(** * XD: wire codec, metainfo, piece store and swarm admission

    A shallow embedding of the Go sources of the XD BitTorrent client
    (packages [common], [metainfo], [storage] and [swarm]) together with
    the properties its specification states about them.

    Conventions.
    - Go's fixed-width integers are [Z] with the wrap-around written out
      ([u32], [u64], [i64]).
    - A byte slice is a [list byte]; a slice expression that Go would
      reject at run time is a [Panic].
    - Loops that are not structurally recursive carry a fuel argument;
      running out of it is the separate outcome [NoFuel], and the
      top-level functions supply a fuel that is proved sufficient. *)

From Stdlib Require Import ZArith Lia.
From Stdlib Require Import Strings.Byte.
From stdpp Require Import base tactics option list strings gmap.

Local Open Scope Z_scope.

(** ** Machine integers and bytes *)

Definition u32 (x : Z) : Z := x mod 2 ^ 32.
Definition u64 (x : Z) : Z := x mod 2 ^ 64.
Definition i64 (x : Z) : Z := (x + 2 ^ 63) mod 2 ^ 64 - 2 ^ 63.

Definition Z_of_byte (b : byte) : Z := Z.of_N (Byte.to_N b).

Definition byte_of_Z (x : Z) : byte :=
  match Byte.of_N (Z.to_N (x mod 256)) with
  | Some b => b
  | None => x00
  end.

Global Instance byte_eq_dec : EqDecision byte := Byte.byte_eq_dec.

Definition len {A} (l : list A) : Z := Z.of_nat (length l).

(** ** Outcomes of Go code that can panic *)

Inductive res (A : Type) : Type :=
  | Ret (a : A)
  | Panic
  | NoFuel.
Arguments Ret {A} a.
Arguments Panic {A}.
Arguments NoFuel {A}.

Definition res_bind {A B} (m : res A) (k : A -> res B) : res B :=
  match m with
  | Ret a => k a
  | Panic => Panic
  | NoFuel => NoFuel
  end.

Notation "'do' x <- m ; k" := (res_bind m (fun x => k))
  (at level 10, x pattern, m at level 100, k at level 200).

(** [b[lo:hi]], [b[lo:]] and [b[:hi]] with Go's bounds check. *)
Definition slice {A} (b : list A) (lo hi : Z) : res (list A) :=
  if (0 <=? lo) && (lo <=? hi) && (hi <=? len b)
  then Ret (take (Z.to_nat (hi - lo)) (drop (Z.to_nat lo) b))
  else Panic.

Definition slice_from {A} (b : list A) (lo : Z) : res (list A) :=
  slice b lo (len b).

Definition slice_to {A} (b : list A) (hi : Z) : res (list A) :=
  slice b 0 hi.

(** [copy(dst, src)]: overwrites the first [min (len dst) (len src)]
    bytes of [dst]. *)
Definition copy {A} (dst src : list A) : list A :=
  take (length dst) src ++ drop (length src) dst.

(** Go's error values that the modelled code produces or inspects. *)
Inductive error : Type :=
  | EOF
  | ErrUnexpectedEOF
  | ErrInvalidPiece
  | ErrIO (why : string).

Global Instance error_eq_dec : EqDecision error.
Proof. solve_decision. Defined.

(** ** encoding/binary, big endian *)

Module binary.

Definition PutUint32 (v : Z) : list byte :=
  [ byte_of_Z (Z.shiftr v 24); byte_of_Z (Z.shiftr v 16);
    byte_of_Z (Z.shiftr v 8); byte_of_Z v ].

(** [binary.BigEndian.Uint32(b)] reads [b[0..3]] and panics on a
    shorter slice. *)
Definition Uint32 (b : list byte) : res Z :=
  match b with
  | b0 :: b1 :: b2 :: b3 :: _ =>
      Ret (Z.lor (Z.lor (Z.lor (Z_of_byte b3) (Z.shiftl (Z_of_byte b2) 8))
                        (Z.shiftl (Z_of_byte b1) 16))
                 (Z.shiftl (Z_of_byte b0) 24))
  | _ => Panic
  end.

End binary.

(** ** Package common: wire messages *)

Module common.

(** [PieceRequest] and [PieceData] are declared in a file of the
    package that is not at hand; their fields are the ones the wire
    codec and the piece store use: three [uint32], and two [uint32]
    with a byte slice. *)
Record PieceRequest : Type := mkPieceRequest {
  req_Index : Z;
  req_Begin : Z;
  req_Length : Z
}.

Record PieceData : Type := mkPieceData {
  pc_Index : Z;
  pc_Begin : Z;
  pc_Data : list byte
}.

(** The zero values Go returns for an unassigned named result. *)
Definition zeroPieceRequest : PieceRequest := mkPieceRequest 0 0 0.
Definition zeroPieceData : PieceData := mkPieceData 0 0 [].

Definition WireMessageType : Type := byte.
Definition Choke : WireMessageType := x00.
Definition UnChoke : WireMessageType := x01.
Definition Interested : WireMessageType := x02.
Definition NotInterested : WireMessageType := x03.
Definition Have : WireMessageType := x04.
Definition BitField : WireMessageType := x05.
Definition Request : WireMessageType := x06.
Definition Piece : WireMessageType := x07.
Definition Cancel : WireMessageType := x08.
Definition Extended : WireMessageType := x14.
Definition Invalid : WireMessageType := xff.

Definition WireMessage : Type := list byte.

Definition KeepAlive : WireMessage := [x00; x00; x00; x00].

(** [make([]byte, 4+l)] followed by the three writes. *)
Definition NewWireMessage (id : WireMessageType) (body : list byte) : WireMessage :=
  let l := len body + 1 in
  binary.PutUint32 (u32 l) ++ id :: body.

Definition MaxWireMessageSize : Z := 32 * 1024.

Definition Len (msg : WireMessage) : res Z := binary.Uint32 msg.

Definition Payload (msg : WireMessage) : res (list byte) :=
  do l <- Len msg;
  if 0 <? l then slice_from msg 5 else Ret [].

Definition MessageID (msg : WireMessage) : WireMessageType :=
  if 4 <? len msg then nth 4 msg Invalid else Invalid.

Definition PieceData_ToWireMessage (p : PieceData) : WireMessage :=
  let buff :=
    binary.PutUint32 (pc_Index p) ++ binary.PutUint32 (pc_Begin p) ++ pc_Data p in
  NewWireMessage Piece buff.

Definition PieceRequest_ToWireMessage (req : PieceRequest) : WireMessage :=
  let body :=
    binary.PutUint32 (req_Index req) ++ binary.PutUint32 (req_Begin req)
      ++ binary.PutUint32 (req_Length req) in
  NewWireMessage Request body.

Definition GetPieceData (msg : WireMessage) : res PieceData :=
  if decide (MessageID msg = Piece) then
    do data <- Payload msg;
    if 8 <? len data then
      do i <- binary.Uint32 data;
      do d4 <- slice_from data 4;
      do b <- binary.Uint32 d4;
      do d8 <- slice_from data 8;
      Ret (mkPieceData i b d8)
    else Ret zeroPieceData
  else Ret zeroPieceData.

Definition GetPieceRequest (msg : WireMessage) : res PieceRequest :=
  if decide (MessageID msg = Request) then
    do data <- Payload msg;
    if len data =? 12 then
      do i <- binary.Uint32 data;
      do d4 <- slice_from data 4;
      do b <- binary.Uint32 d4;
      do d8 <- slice_from data 8;
      do l <- binary.Uint32 d8;
      Ret (mkPieceRequest i b l)
    else Ret zeroPieceRequest
  else Ret zeroPieceRequest.

(** *** The wire reader

    The reader is a finite byte stream.  [io.ReadFull] fills a buffer
    of [n] bytes or reports why it could not; [io.CopyN] to
    [util.Discard] drops [n] bytes. *)

Definition ReadFull (r : list byte) (n : nat)
  : list byte * list byte * option error :=
  if decide (n = 0%nat) then ([], r, None)
  else if decide (r = []) then ([], r, Some EOF)
  else if decide (length r < n)%nat then (r, [], Some ErrUnexpectedEOF)
  else (take n r, drop n r, None).

Definition CopyN_Discard (r : list byte) (n : Z) : list byte * option error :=
  if n <=? len r then (drop (Z.to_nat n) r, None) else ([], Some EOF).

(** What one run of the reader did, in order. *)
Inductive event : Type :=
  | Discarded (l : Z)
  | Dispatched (msg : WireMessage).

(** The loop [for err == nil { ... }].  [msg] is the reader's buffer of
    [MaxWireMessageSize + 4] bytes, which persists across iterations;
    [f] is the per-message handler. *)
Fixpoint ReadWireMessages_loop (fuel : nat) (f : WireMessage -> option error)
    (msg : list byte) (r : list byte) (tr : list event)
  : res (error * list event) :=
  match fuel with
  | O => NoFuel
  | S fuel' =>
      let '(got, r1, err) := ReadFull r 4 in
      let msg1 := got ++ drop (length got) msg in
      do l <- binary.Uint32 (take 4 msg1);
      let continue (r' : list byte) (msg' : list byte) (err' : option error)
                   (tr' : list event) :=
        match err' with
        | None => ReadWireMessages_loop fuel' f msg' r' tr'
        | Some e => Ret (e, tr')
        end in
      if 0 <? l then
        if l <? MaxWireMessageSize then
          let '(r2, err2) := CopyN_Discard r1 l in
          continue r2 msg1 err2 (tr ++ [Discarded l])
        else
          do body <- slice msg1 4 (u32 (4 + l));
          let '(got2, r2, err2) := ReadFull r1 (length body) in
          let msg2 := take 4 msg1 ++ got2 ++ drop (4 + length got2) msg1 in
          match err2 with
          | None =>
              do m <- slice_to msg2 (u32 (4 + l));
              continue r2 msg2 (f m) (tr ++ [Dispatched m])
          | Some e => continue r2 msg2 err2 tr
          end
      else continue r1 msg1 err tr
  end.

Definition ReadWireMessages (r : list byte) (f : WireMessage -> option error)
  : res (error * list event) :=
  ReadWireMessages_loop (S (length r)) f
    (replicate (Z.to_nat (MaxWireMessageSize + 4)) x00) r [].

(** *** The remaining constructors and parsers *)

(** The method [KeepAlive()], next to the variable of the same name. *)
Definition WireMessage_KeepAlive (msg : WireMessage) : res bool :=
  do l <- Len msg;
  Ret (l =? 0).

Definition GetHave (msg : WireMessage) : res Z :=
  if decide (MessageID msg = Have) then
    do data <- Payload msg;
    if len data =? 4 then binary.Uint32 data else Ret 0
  else Ret 0.

Definition NewHave (idx : Z) : WireMessage :=
  NewWireMessage Have (binary.PutUint32 idx).

Definition NewNotInterested : WireMessage := NewWireMessage NotInterested [].

Definition NewInterested : WireMessage := NewWireMessage Interested [].

End common.

(** ** External libraries

    [crypto/sha1] is not part of the repository: the digest is a
    parameter of everything that hashes. *)

Class Sha1 : Type := sha1_Sum : list byte -> list byte.

(** ** Package metainfo *)

Module metainfo.

Definition FilePath : Type := list string.

Record FileInfo : Type := mkFileInfo {
  fi_Length : Z;
  fi_Path : FilePath;
  fi_Sum : list byte
}.

(** The info section: the fields the modelled functions read (the
    empty v2 [FileTree] is left out). *)
Record Info : Type := mkInfo {
  PieceLength : Z;
  Pieces : list byte;
  Path : string;
  Files : list FileInfo;
  Private : option Z;
  Length : Z;
  Sum : list byte;
  MetaVersion : option Z
}.

(** [github.com/zeebo/bencode] and [path/filepath] are external: the
    encoder of an info section and [filepath.Join] are parameters. *)
Class Bencode : Type := bencode_Info : Info -> list byte.
Class PathLib : Type := filepath_Join : list string -> string.

Definition FilePath_FilePath `{PathLib} (f : FilePath) : string :=
  filepath_Join f.

Definition IsV2Compat (i : Info) : bool :=
  match MetaVersion i with Some v => v =? 2 | None => false end.

Definition IsV1Compat (i : Info) : bool :=
  match MetaVersion i with Some v => v =? 1 | None => true end.

Definition IsV1Only (i : Info) : bool :=
  match MetaVersion i with Some _ => false | None => true end.

Definition GetFiles (i : Info) : list FileInfo :=
  if 0 <? Length i
  then [ mkFileInfo (Length i) [Path i] (Sum i) ]
  else Files i.

Definition NumPieces (i : Info) : Z := u32 (len (Pieces i) / 20).

Definition CheckPiece `{Sha1} (i : Info) (p : common.PieceData) : res bool :=
  let idx := u32 (common.pc_Index p * 20) in
  if common.pc_Index p <? NumPieces i then
    let h := sha1_Sum (common.pc_Data p) in
    do expected <- slice (Pieces i) idx (u32 (idx + 20));
    Ret (bool_decide (h = expected))
  else Ret false.

(** A torrent file; creation date, comment and the like play no part
    in what follows. *)
Record TorrentFile : Type := mkTorrentFile {
  tf_Info : Info;
  Announce : string;
  AnnounceList : list (list string)
}.

Definition IsSingleFile (tf : TorrentFile) : bool :=
  0 <? Length (tf_Info tf).

Definition TotalSize (tf : TorrentFile) : Z :=
  if IsSingleFile tf then Length (tf_Info tf)
  else fold_left (fun total f => u64 (total + fi_Length f)) (Files (tf_Info tf)) 0.

Definition LengthOfPiece (tf : TorrentFile) (idx : Z) : Z :=
  let i := tf_Info tf in
  let np := NumPieces i in
  if np =? u32 (idx + 1) then
    let sz := TotalSize tf in
    let l64 := u64 (PieceLength i - u64 (u64 (np * PieceLength i) - sz)) in
    u32 l64
  else PieceLength i.

Definition TorrentName (tf : TorrentFile) : string := Path (tf_Info tf).

(** A [common.Infohash] is either of the two array types.  The size of
    [common.InfohashV2] is declared outside the files at hand and is a
    parameter [v2len]. *)
Inductive Infohash : Type :=
  | IhV1 (bytes : list byte)
  | IhV2 (bytes : list byte).

Section Infohash.
Context `{Sha1} `{Bencode}.
Variable v2len : nat.

Definition InfohashV1 (tf : TorrentFile) : list byte :=
  let d := sha1_Sum (bencode_Info (tf_Info tf)) in
  copy (replicate 20 x00) d.

Definition InfohashV2 (tf : TorrentFile) : list byte :=
  replicate v2len x00.

Definition TorrentFile_Infohash (tf : TorrentFile) : Infohash :=
  if IsV1Only (tf_Info tf) then IhV1 (InfohashV1 tf)
  else IhV2 (InfohashV2 tf).
End Infohash.

Definition IsPrivate (tf : TorrentFile) : bool :=
  match Private (tf_Info tf) with Some v => 0 <? v | None => false end.

(** The loops of [GetAllAnnounceURLS], appending in order. *)
Definition GetAllAnnounceURLS (tf : TorrentFile) : list string :=
  let l := if 0 <? Z.of_nat (String.length (Announce tf))
           then [Announce tf] else [] in
  fold_left
    (fun l al =>
       fold_left
         (fun l a => if 0 <? Z.of_nat (String.length a) then l ++ [a] else l)
         al l)
    (AnnounceList tf) l.

End metainfo.

(** ** Package bittorrent: the bitfield

    The file that declares [bittorrent.Bitfield] is not among the
    sources; its operations are modelled from the specification. *)

Module bittorrent.

(** Modelled from the spec: the declaration of [Bitfield] is missing.
    "A packed bit vector of length N", kept as "the raw bytes and the
    logical length"; bit [i] lives in byte [i / 8], most significant
    bit first, as on the BitTorrent wire. *)
Record Bitfield : Type := mkBitfield {
  bf_Length : Z;
  bf_Data : list byte
}.

(** Modelled from the spec: [NewBitfield] is missing.  A bitfield of
    [l] bits, none set, in [⌈l/8⌉] bytes. *)
Definition NewBitfield (l : Z) : Bitfield :=
  mkBitfield l (replicate (Z.to_nat ((l + 7) / 8)) x00).

Definition bit_mask (i : Z) : Z := Z.shiftl 1 (7 - i mod 8).

(** Modelled from the spec: [Has] is missing.  "Bit i set". *)
Definition Has (bf : Bitfield) (i : Z) : bool :=
  (0 <=? i) && (i <? bf_Length bf) &&
  match bf_Data bf !! Z.to_nat (i / 8) with
  | Some b => negb (Z.land (Z_of_byte b) (bit_mask i) =? 0)
  | None => false
  end.

(** Modelled from the spec: [Set] is missing.  Sets bit [i]; an index
    outside the bitfield changes nothing. *)
Definition Set_ (bf : Bitfield) (i : Z) : Bitfield :=
  if (0 <=? i) && (i <? bf_Length bf) then
    match bf_Data bf !! Z.to_nat (i / 8) with
    | Some b =>
        mkBitfield (bf_Length bf)
          (<[Z.to_nat (i / 8) := byte_of_Z (Z.lor (Z_of_byte b) (bit_mask i))]>
             (bf_Data bf))
    | None => bf
    end
  else bf.

(** Modelled from the spec: [Inverted] is missing.  Every bit below the
    length flipped. *)
Definition Inverted (bf : Bitfield) : Bitfield :=
  mkBitfield (bf_Length bf)
    (map (fun b => byte_of_Z (Z.lxor (Z_of_byte b) 255)) (bf_Data bf)).

(** The piece indices of a bitfield, in increasing order. *)
Definition indices (bf : Bitfield) : list Z :=
  map Z.of_nat (seq 0 (Z.to_nat (bf_Length bf))).

(** Modelled from the spec: [CountSet] is missing.  The number of set
    bits. *)
Definition CountSet (bf : Bitfield) : Z :=
  len (filter (fun i => Has bf i = true) (indices bf)).

(** Modelled from the spec: [Equals] is missing. *)
Definition Equals (a b : Bitfield) : bool :=
  (bf_Length a =? bf_Length b) &&
  forallb (fun i => eqb (Has a i) (Has b i)) (indices a).

(** Modelled from the spec: [Completed] is missing.  All bits set. *)
Definition Completed (bf : Bitfield) : bool :=
  CountSet bf =? bf_Length bf.

(** How many of the peers' bitfields have piece [i]. *)
Definition availability (others : list Bitfield) (i : Z) : Z :=
  len (filter (fun o => Has o i = true) others).

(** Modelled from the spec: [FindRarest] is missing.  "Among pieces
    that are set in remote and not rejected by the exclude predicate,
    pick the index with the smallest count across the peer bitfields;
    ties broken by lowest index; if no candidate exists, return none."
    One pass over the indices in increasing order keeps the best
    candidate so far and replaces it only by a strictly rarer one. *)
Definition rarest_step (bf : Bitfield) (others : list Bitfield)
    (exclude : Z -> bool) (best : option (Z * Z)) (i : Z) : option (Z * Z) :=
  if Has bf i && negb (exclude i) then
    let c := availability others i in
    match best with
    | None => Some (i, c)
    | Some (_, cb) => if c <? cb then Some (i, c) else best
    end
  else best.

Definition FindRarest (bf : Bitfield) (others : list Bitfield)
    (exclude : Z -> bool) : option Z :=
  fst <$> fold_left (rarest_step bf others exclude) (indices bf) None.

End bittorrent.

(** ** Package storage: the filesystem piece store *)

Module storage.
Import metainfo bittorrent.

(** The interface [fs.Driver] is declared outside the files at hand;
    these are the operations the piece store calls on it, with the
    shapes of their call sites.  A file handle is the name it was
    opened under.  [Bitfield_BDecode] and [Bitfield_BEncode] stand for
    the (missing) bencode form of a bitfield read from, or written to,
    an open file. *)
Class Driver (FS : Type) : Type := {
  Join : string -> string -> string;
  FileExists : FS -> string -> bool;
  OpenFileReadOnly : FS -> string -> option error;
  OpenFileWriteOnly : FS -> string -> FS * option error;
  File_ReadAt : FS -> string -> nat -> Z -> list byte * option error;
  File_WriteAt : FS -> string -> list byte -> Z -> FS * Z * option error;
  Bitfield_BDecode : FS -> string -> option Bitfield;
  Bitfield_BEncode : FS -> string -> Bitfield -> FS * option error
}.

(** [ih.Hex()] is declared with [common.Infohash], outside the files at
    hand. *)
Class InfohashHex : Type := Infohash_Hex : Infohash -> string.

Record FsStorage : Type := mkFsStorage {
  DataDir : string;
  MetaDir : string
}.

Record fsTorrent : Type := mkFsTorrent {
  st : FsStorage;
  ih : Infohash;
  meta : TorrentFile;
  bf : option Bitfield
}.

Definition with_bf (t : fsTorrent) (b : option Bitfield) : fsTorrent :=
  mkFsTorrent (st t) (ih t) (meta t) b.

(** What the inner loop of [ReadAt] hands back: a [return] out of the
    whole function, or the state with which the next file is tried. *)
Inductive read_step : Type :=
  | Returned (out : list byte) (err : option error)
  | NextFile (b : list byte) (off : Z) (out : list byte).

Section WithDriver.
Context {FS : Type} `{!Sha1, !PathLib, !InfohashHex, !Driver FS}.

Definition bitfieldFilename (s : FsStorage) (h : Infohash) : string :=
  Join (MetaDir s) (Infohash_Hex h +:+ ".bitfield").

Definition metainfoFilename (s : FsStorage) (h : Infohash) : string :=
  Join (MetaDir s) (Infohash_Hex h +:+ ".torrent").

Definition HasBitfield (s : FsStorage) (fs : FS) (h : Infohash) : bool :=
  FileExists fs (bitfieldFilename s h).

Definition FindBitfield (s : FsStorage) (fs : FS) (h : Infohash)
  : option Bitfield :=
  let fpath := bitfieldFilename s h in
  match OpenFileReadOnly fs fpath with
  | None => Bitfield_BDecode fs fpath
  | Some _ => None
  end.

(** [bf.BEncode] on a nil bitfield dereferences nil. *)
Definition flushBitfield (s : FsStorage) (fs : FS) (h : Infohash)
    (ob : option Bitfield) : res (FS * option error) :=
  let fname := bitfieldFilename s h in
  match OpenFileWriteOnly fs fname with
  | (fs1, None) =>
      match ob with
      | Some b => Ret (Bitfield_BEncode fs1 fname b)
      | None => Panic
      end
  | (fs1, Some e) => Ret (fs1, Some e)
  end.

Definition CreateNewBitfield (s : FsStorage) (fs : FS) (h : Infohash)
    (bits : Z) : FS :=
  let fname := bitfieldFilename s h in
  let b := NewBitfield bits in
  match OpenFileWriteOnly fs fname with
  | (fs1, None) => fst (Bitfield_BEncode fs1 fname b)
  | (fs1, Some _) => fs1
  end.

Definition FilePath (t : fsTorrent) : string :=
  Join (DataDir (st t)) (Path (tf_Info (meta t))).

(** The name [openfileRead] and [openfileWrite] both compute. *)
Definition fileName (t : fsTorrent) (i : FileInfo) : string :=
  if IsSingleFile (meta t)
  then Join (DataDir (st t)) (FilePath_FilePath (fi_Path i))
  else Join (FilePath t) (FilePath_FilePath (fi_Path i)).

Definition openfileRead (t : fsTorrent) (fs : FS) (i : FileInfo)
  : string * option error :=
  let fname := fileName t i in
  (fname, OpenFileReadOnly fs fname).

Definition openfileWrite (t : fsTorrent) (fs : FS) (i : FileInfo)
  : string * (FS * option error) :=
  let fname := fileName t i in
  (fname, OpenFileWriteOnly fs fname).

(** The loop of [readFileAt].  [b] is what is left of the buffer,
    [out] the bytes stored in it so far ([n] is their number), [opened]
    says whether [f] is a file rather than nil. *)
Fixpoint readFileAt_loop (fuel : nat) (fs : FS) (fname : string)
    (opened : bool) (fil : Z) (b : list byte) (off : Z)
    (out : list byte) (err : option error)
  : res (list byte * option error) :=
  if (off <? fil) && negb (len b =? 0) then
    match fuel with
    | O => NoFuel
    | S fuel' =>
        if opened then
          let '(data, err1) := File_ReadAt fs fname (length b) off in
          let n1 := len data in
          do b' <- slice_from b n1;
          if n1 =? 0 then Ret (out ++ data, err1)
          else readFileAt_loop fuel' fs fname opened fil b'
                 (i64 (off + n1)) (out ++ data) err
        else Panic
    end
  else Ret (out, err).

Definition readFileAt (t : fsTorrent) (fs : FS) (fi : FileInfo)
    (b : list byte) (off : Z) : res (list byte * option error) :=
  let '(fname, err) := openfileRead t fs fi in
  let fil := i64 (fi_Length fi) in
  do b1 <- (if i64 (fil - off) <? len b
            then slice_to b (i64 (fil - off)) else Ret b);
  readFileAt_loop (length b1) fs fname (bool_decide (err = None))
    fil b1 off [] err.

(** The loop [for off < fil] of [ReadAt] on one file. *)
Fixpoint ReadAt_file (fuel : nat) (t : fsTorrent) (fs : FS)
    (fi : FileInfo) (b : list byte) (off : Z) (out : list byte)
  : res read_step :=
  let fil := i64 (fi_Length fi) in
  if off <? fil then
    match fuel with
    | O => NoFuel
    | S fuel' =>
        do (data, err1) <- readFileAt t fs fi b off;
        let n1 := len data in
        do b' <- slice_from b n1;
        if len b' =? 0 then Ret (Returned (out ++ data) None)
        else if negb (n1 =? 0) then
          ReadAt_file fuel' t fs fi b' (i64 (off + n1)) (out ++ data)
        else
          Ret (Returned (out ++ data)
                 (if decide (err1 = Some EOF)
                  then Some ErrUnexpectedEOF else err1))
    end
  else Ret (NextFile b off out).

Fixpoint ReadAt_files (t : fsTorrent) (fs : FS) (files : list FileInfo)
    (b : list byte) (off : Z) (out : list byte)
  : res (list byte * option error) :=
  match files with
  | [] => Ret (out, Some EOF)
  | fi :: rest =>
      do r <- ReadAt_file (S (length b)) t fs fi b off out;
      match r with
      | Returned out' err => Ret (out', err)
      | NextFile b' off' out' =>
          ReadAt_files t fs rest b' (i64 (off' - i64 (fi_Length fi))) out'
      end
  end.

(** [ReadAt(b, off)]: the count, the error and the buffer afterwards. *)
Definition ReadAt (t : fsTorrent) (fs : FS) (b : list byte) (off : Z)
  : res (Z * option error * list byte) :=
  do (out, err) <- ReadAt_files t fs (GetFiles (tf_Info (meta t))) b off [];
  Ret (len out, err, out ++ drop (length out) b).

Fixpoint WriteAt_files (t : fsTorrent) (fs : FS) (files : list FileInfo)
    (p : list byte) (off : Z) (n : Z) : res (Z * option error * FS) :=
  match files with
  | [] => Ret (n, None, fs)
  | fi :: rest =>
      let fil := i64 (fi_Length fi) in
      if fil <=? off then WriteAt_files t fs rest p (i64 (off - fil)) n
      else
        let n1 := len p in
        let n1 := if i64 (fil - off) <? n1 then i64 (fil - off) else n1 in
        match openfileWrite t fs fi with
        | (fname, (fs1, Some e)) => Ret (n, Some e, fs1)
        | (fname, (fs1, None)) =>
            do chunk <- slice_to p n1;
            let '(fs2, n1', err) := File_WriteAt fs1 fname chunk off in
            match err with
            | Some e => Ret (n, Some e, fs2)
            | None =>
                let n' := i64 (n + n1') in
                do p' <- slice_from p n1';
                if len p' =? 0 then Ret (n', None, fs2)
                else WriteAt_files t fs2 rest p' 0 n'
            end
        end
  end.

Definition WriteAt (t : fsTorrent) (fs : FS) (p : list byte) (off : Z)
  : res (Z * option error * FS) :=
  WriteAt_files t fs (GetFiles (tf_Info (meta t))) p off 0.

(** [t.Bitfield()]: loads the stored bitfield on first use. *)
Definition Bitfield_ (t : fsTorrent) (fs : FS)
  : fsTorrent * FS * option Bitfield :=
  match bf t with
  | Some b => (t, fs, Some b)
  | None =>
      let fs1 :=
        if HasBitfield (st t) fs (ih t) then fs
        else CreateNewBitfield (st t) fs (ih t) (NumPieces (tf_Info (meta t))) in
      let b := FindBitfield (st t) fs1 (ih t) in
      (with_bf t b, fs1, b)
  end.

(** [bf.CountSet()] on a nil bitfield dereferences nil. *)
Definition DownloadRemaining (t : fsTorrent) (fs : FS)
  : res (Z * fsTorrent * FS) :=
  let '(t1, fs1, ob) := Bitfield_ t fs in
  match ob with
  | None => Panic
  | Some b =>
      let have := u64 (u64 (CountSet b) * u64 (PieceLength (tf_Info (meta t1)))) in
      Ret (u64 (TotalSize (meta t1) - have), t1, fs1)
  end.

(** [VisitPiece(r, v)].  The visitor may update a state of its own
    (the closure of [verifyBitfield] does). *)
Definition VisitPiece {S : Type} (t : fsTorrent) (fs : FS)
    (r : common.PieceRequest)
    (v : common.PieceData -> S -> res (S * option error)) (s : S)
  : res (S * option error) :=
  let sz := PieceLength (tf_Info (meta t)) in
  let data0 := replicate (Z.to_nat (common.req_Length r)) x00 in
  do (_, err, data) <-
    ReadAt t fs data0
      (i64 (common.req_Begin r + i64 (sz * common.req_Index r)));
  match err with
  | None =>
      v (common.mkPieceData (common.req_Index r) (common.req_Begin r) data) s
  | Some e => Ret (s, Some e)
  end.

Definition checkPiece (t : fsTorrent) (pc : common.PieceData)
  : res (option error) :=
  do ok <- CheckPiece (tf_Info (meta t)) pc;
  Ret (if ok then None else Some ErrInvalidPiece).

Definition VerifyPiece (t : fsTorrent) (fs : FS) (idx : Z)
  : res (option error) :=
  let l := LengthOfPiece (meta t) idx in
  do (_, err) <-
    VisitPiece t fs (common.mkPieceRequest idx 0 l)
      (fun pc (_ : unit) => do e <- checkPiece t pc; Ret (tt, e)) tt;
  Ret err.

(** [t.bf.Set] on a nil [t.bf] dereferences nil. *)
Definition PutPiece (t : fsTorrent) (fs : FS) (pc : common.PieceData)
  : res (fsTorrent * FS * option error) :=
  do err <- checkPiece t pc;
  match err with
  | None =>
      let sz := i64 (PieceLength (tf_Info (meta t))) in
      do (_, err, fs1) <-
        WriteAt t fs (common.pc_Data pc) (i64 (sz * common.pc_Index pc));
      match err with
      | None =>
          match bf t with
          | Some b => Ret (with_bf t (Some (Set_ b (common.pc_Index pc))), fs1, None)
          | None => Panic
          end
      | Some e => Ret (t, fs1, Some e)
      end
  | Some e => Ret (t, fs, Some e)
  end.

(** The loop of [verifyBitfield]; [has] and [err] are the variables
    the closure and the loop body assign. *)
Fixpoint verifyBitfield_loop (fuel : nat) (t : fsTorrent) (fs : FS)
    (b : Bitfield) (np : Z) (idx : Z) (has : Bitfield) (err : option error)
  : res (Bitfield * option error) :=
  if idx <? np then
    match fuel with
    | O => NoFuel
    | S fuel' =>
        let l := LengthOfPiece (meta t) idx in
        do (has1, err1) <-
          (if Has b idx then
             VisitPiece t fs (common.mkPieceRequest idx 0 l)
               (fun pc (h : Bitfield) =>
                  do e <- checkPiece t pc;
                  match e with
                  | None => Ret (Set_ h idx, e)
                  | Some _ => Ret (h, e)
                  end) has
           else Ret (has, err));
        verifyBitfield_loop fuel' t fs b np (u32 (idx + 1)) has1 err1
    end
  else Ret (has, err).

Definition verifyBitfield (t : fsTorrent) (fs : FS) (b : Bitfield)
    (warn : bool) : res (Bitfield * option error) :=
  let np := NumPieces (tf_Info (meta t)) in
  verifyBitfield_loop (Z.to_nat np) t fs b np 0 (NewBitfield np) None.

Definition Flush (t : fsTorrent) (fs : FS)
  : res (fsTorrent * FS * option error) :=
  let '(t1, fs1, ob) := Bitfield_ t fs in
  do (fs2, err) <- flushBitfield (st t1) fs1 (ih t1) ob;
  Ret (t1, fs2, err).

Definition VerifyAll (t : fsTorrent) (fs : FS) (fresh : bool)
  : res (fsTorrent * FS * option error) :=
  let verify (check : Bitfield) :=
    do (has, err) <- verifyBitfield t fs check true;
    let t1 := with_bf t (Some has) in
    match err with
    | None => Flush t1 fs
    | Some e => Ret (t1, fs, Some e)
    end in
  match FindBitfield (st t) fs (ih t) with
  | None =>
      let check := Inverted (NewBitfield (NumPieces (tf_Info (meta t)))) in
      if fresh then
        do (has, err) <- verifyBitfield t fs check false;
        do (fs1, _) <- flushBitfield (st t) fs (ih t) (Some has);
        Ret (t, fs1, err)
      else verify check
  | Some check => verify check
  end.

End WithDriver.

(** [FS.EnsureFile(name, size)], the one further operation of the
    driver that allocation calls. *)
Class Allocator (FS : Type) : Type :=
  EnsureFile : FS -> string -> Z -> FS * option error.

Section Allocation.
Context {FS : Type} `{!PathLib, !Driver FS, !Allocator FS}.

Definition AllocateFile (t : fsTorrent) (fs : FS) (f : FileInfo)
  : FS * option error :=
  let fname := Join (FilePath t) (FilePath_FilePath (fi_Path f)) in
  EnsureFile fs fname (fi_Length f).

(** The loop of [Allocate] over [Info.Files], left at the first error. *)
Fixpoint Allocate_files (t : fsTorrent) (fs : FS) (files : list FileInfo)
  : FS * option error :=
  match files with
  | [] => (fs, None)
  | f :: rest =>
      match AllocateFile t fs f with
      | (fs1, Some e) => (fs1, Some e)
      | (fs1, None) => Allocate_files t fs1 rest
      end
  end.

Definition Allocate (t : fsTorrent) (fs : FS) : FS * option error :=
  if IsSingleFile (meta t)
  then EnsureFile fs (FilePath t) (Length (tf_Info (meta t)))
  else Allocate_files t fs (Files (tf_Info (meta t))).
End Allocation.

End storage.

(** ** An in-memory file driver *)

Module memfs.
Import bittorrent.

(** Modelled from the spec: the implementations of [fs.Driver] are
    missing.  Content files are byte arrays found by name, "addressed
    as one linear byte stream that maps left-to-right into the file
    list"; the bitfield files hold a bitfield "in bencoded form" and
    are kept decoded.  Reads and writes behave as [os.File.ReadAt] and
    [os.File.WriteAt]: a read past the end is short and reports [EOF],
    a write past the end extends the file with zeros, a negative
    offset is an error, opening for writing creates the file. *)
Record MemFS : Type := mkMemFS {
  mem_files : gmap string (list byte);
  mem_bitfields : gmap string Bitfield
}.

Definition read_bytes (c : list byte) (n : nat) (off : Z) : list byte :=
  take n (drop (Z.to_nat off) c).

Definition write_bytes (c : list byte) (data : list byte) (off : Z) : list byte :=
  let o := Z.to_nat off in
  take o (c ++ replicate (o - length c) x00) ++ data ++ drop (o + length data) c.

Definition exists_ (fs : MemFS) (name : string) : bool :=
  bool_decide (is_Some (mem_files fs !! name))
  || bool_decide (is_Some (mem_bitfields fs !! name)).

Definition open_read (fs : MemFS) (name : string) : option error :=
  if exists_ fs name then None else Some (ErrIO "no such file").

Definition open_write (fs : MemFS) (name : string) : MemFS * option error :=
  if exists_ fs name then (fs, None)
  else (mkMemFS (<[name := []]> (mem_files fs)) (mem_bitfields fs), None).

Definition read_at (fs : MemFS) (name : string) (n : nat) (off : Z)
  : list byte * option error :=
  match mem_files fs !! name with
  | Some c =>
      if off <? 0 then ([], Some (ErrIO "negative offset"))
      else
        let data := read_bytes c n off in
        (data, if decide (length data < n)%nat then Some EOF else None)
  | None => ([], Some (ErrIO "bad file"))
  end.

Definition write_at (fs : MemFS) (name : string) (data : list byte) (off : Z)
  : MemFS * Z * option error :=
  match mem_files fs !! name with
  | Some c =>
      if off <? 0 then (fs, 0, Some (ErrIO "negative offset"))
      else
        (mkMemFS (<[name := write_bytes c data off]> (mem_files fs))
                 (mem_bitfields fs),
         len data, None)
  | None => (fs, 0, Some (ErrIO "bad file"))
  end.

Definition bdecode (fs : MemFS) (name : string) : option Bitfield :=
  mem_bitfields fs !! name.

Definition bencode (fs : MemFS) (name : string) (b : Bitfield)
  : MemFS * option error :=
  (mkMemFS (mem_files fs) (<[name := b]> (mem_bitfields fs)), None).

Global Instance mem_driver : storage.Driver MemFS := {|
  storage.Join := fun a b => a +:+ "/" +:+ b;
  storage.FileExists := exists_;
  storage.OpenFileReadOnly := open_read;
  storage.OpenFileWriteOnly := open_write;
  storage.File_ReadAt := read_at;
  storage.File_WriteAt := write_at;
  storage.Bitfield_BDecode := bdecode;
  storage.Bitfield_BEncode := bencode
|}.

(** Modelled from the spec: [EnsureFile] is missing.  "Files are
    preallocated to exact length before any write": a file that does
    not exist is created with the declared number of zero bytes; one
    that exists is left alone, so that data placed beforehand can be
    seeded. *)
Definition ensure_file (fs : MemFS) (name : string) (sz : Z)
  : MemFS * option error :=
  if exists_ fs name then (fs, None)
  else (mkMemFS (<[name := replicate (Z.to_nat sz) x00]> (mem_files fs))
                (mem_bitfields fs), None).

Global Instance mem_allocator : storage.Allocator MemFS := ensure_file.

End memfs.

(** ** Package swarm: one torrent's peers *)

Module swarm.
Import bittorrent.

(** [PeerConn] is declared in a file of the package that is not at
    hand; of its fields the torrent uses the peer's bitfield (nil until
    the peer has sent one) and the direction. *)
Record PeerConn : Type := mkPeerConn {
  c_bf : option Bitfield;
  inbound : bool
}.

(** The fields of [Torrent] that peer admission and piece selection
    read or write.  [self] is [t.Network().Addr().String()].  The maps
    hold pointers that [addOBPeer] and [addIBPeer] never leave nil. *)
Record Torrent : Type := mkTorrent {
  obconns : gmap string PeerConn;
  ibconns : gmap string PeerConn;
  closing : bool;
  self : string
}.

Definition HasIBConn (t : Torrent) (a : string) : bool :=
  bool_decide (is_Some (ibconns t !! a)).

Definition HasOBConn (t : Torrent) (a : string) : bool :=
  bool_decide (is_Some (obconns t !! a)).

Definition addOBPeer (t : Torrent) (a : string) (c : PeerConn) : Torrent :=
  mkTorrent (<[a := c]> (obconns t)) (ibconns t) (closing t) (self t).

Definition addIBPeer (t : Torrent) (a : string) (c : PeerConn) : Torrent :=
  mkTorrent (obconns t)
    (<[a := mkPeerConn (c_bf c) true]> (ibconns t)) (closing t) (self t).

(** The connections [VisitPeers] hands to its visitor: outbound first,
    then inbound. *)
Definition VisitPeers (t : Torrent) : list PeerConn :=
  (map_to_list (obconns t)).*2 ++ (map_to_list (ibconns t)).*2.

(** [bt] is [t.st.Bitfield()], the local bitfield. *)
Definition getRarestPiece (t : Torrent) (bt : Bitfield)
    (remote : Bitfield) (exclude : list Z) : option Z :=
  let swarm := omap c_bf (VisitPeers t) in
  let m : gmap Z bool :=
    fold_left (fun m x => <[x := true]> m) exclude ∅ in
  FindRarest remote swarm
    (fun idx => Has bt idx || default false (m !! idx)).

(** *** Peer admission

    [common.Peer] is declared outside the files at hand; resolving a
    peer against the network is the parameter [Resolve]. *)
Record Peer : Type := mkPeer {
  peer_Dest : string;
  peer_ID : list byte
}.

Section Admission.
Variable Resolve : Peer -> error + string.

(** The goroutines [addPeers] starts, in order: one [PersistPeer(a, id)]
    for each [go] statement it reaches. *)
Fixpoint addPeers (t : Torrent) (peers : list Peer)
  : list (string * list byte) :=
  match peers with
  | [] => []
  | p :: rest =>
      match Resolve p with
      | inr a =>
          if decide (a = self t) then addPeers t rest
          else if HasOBConn t a then addPeers t rest
          else (a, peer_ID p) :: addPeers t rest
      | inl _ => addPeers t rest
      end
  end.
End Admission.

(** A goroutine running [PersistPeer(a, id)].  It is either at the head
    of the loop with [triesLeft] attempts to go, or inside [DialPeer]
    waiting for [Network().Dial] and the handshake, or done. *)
Inductive pstate : Type :=
  | AtLoop (triesLeft : Z)
  | InDial (triesLeft : Z)
  | Done.

Record goroutine : Type := mkGoroutine {
  g_addr : string;
  g_id : list byte;
  g_state : pstate
}.

Definition PersistPeer (ai : string * list byte) : goroutine :=
  mkGoroutine ai.1 ai.2 (AtLoop 10).

(** The torrent, the goroutines, and the addresses handed to
    [Network().Dial] so far. *)
Record world : Type := mkWorld {
  w_torrent : Torrent;
  w_dials : list string;
  w_gs : list goroutine
}.

(** How a call of [DialPeer] that reached [Network().Dial] ends: with
    the peer added to [obconns] and [nil]; with an error; or, when the
    handshake answers with another infohash, with [nil] and nothing
    added. *)
Inductive dial_outcome : Type :=
  | Connected
  | Failed
  | Mismatch.

(** One step of a [PersistPeer] goroutine: from the head of the loop up
    to the call of [Dial], or from the dial's outcome back to the loop.
    The source takes [connMtx] for each check on its own and reads
    [closing] without it, so the program has more interleavings than
    these steps: what is proved over them is either a run that the
    program can make as well, or a bound that each goroutine keeps by
    itself. *)
Definition step_goroutine (o : dial_outcome) (t : Torrent)
    (dials : list string) (g : goroutine)
  : Torrent * list string * goroutine :=
  let a := g_addr g in
  match g_state g with
  | AtLoop n =>
      if closing t then (t, dials, mkGoroutine a (g_id g) Done)
      else if HasIBConn t a then (t, dials, mkGoroutine a (g_id g) Done)
      else if negb (HasOBConn t a) then
        (* DialPeer: HasOBConn is false, so Dial is called *)
        (t, dials ++ [a], mkGoroutine a (g_id g) (InDial n))
      else (* time.Sleep, then around the loop again *)
        (t, dials, g)
  | InDial n =>
      match o with
      | Connected =>
          (addOBPeer t a (mkPeerConn None false), dials,
           mkGoroutine a (g_id g) Done)
      | Mismatch => (t, dials, mkGoroutine a (g_id g) Done)
      | Failed =>
          let n' := n - 1 in
          (t, dials,
           mkGoroutine a (g_id g) (if n' <=? 0 then Done else AtLoop n'))
      end
  | Done => (t, dials, g)
  end.

(** A schedule names, step by step, the goroutine that runs and the
    outcome of its dial, should it be waiting for one.  Only the
    [PersistPeer] goroutines move: connections that go away, [Close]
    and [Start] are not steps of this relation. *)
Definition step (w : world) (s : nat * dial_outcome) : world :=
  match w_gs w !! s.1 with
  | Some g =>
      let '(t', d', g') := step_goroutine s.2 (w_torrent w) (w_dials w) g in
      mkWorld t' d' (<[s.1 := g']> (w_gs w))
  | None => w
  end.

Definition run (w : world) (schedule : list (nat * dial_outcome)) : world :=
  fold_left step schedule w.

(** [addPeers] followed by the start of its goroutines. *)
Definition announce_peers (Resolve : Peer -> error + string)
    (t : Torrent) (peers : list Peer) : world :=
  mkWorld t [] (PersistPeer <$> addPeers Resolve t peers).

(** *** Counting, admitting and serving peers *)

Definition NumPeers (t : Torrent) : Z := len (VisitPeers t).



(** What the torrent does to a connection: the calls of [Close],
    [start] and [Send] on a [PeerConn].  The bitfield message is
    [t.Bitfield().ToWireMessage()], built outside the files at hand. *)
Inductive conn_action : Type :=
  | ConnClose
  | ConnStart
  | ConnSendBitfield
  | ConnSend (msg : common.WireMessage).

(** [onNewPeer(c)], [a] being [c.c.RemoteAddr().String()]. *)
Definition onNewPeer (t : Torrent) (a : string) (c : PeerConn)
  : Torrent * list conn_action :=
  if HasIBConn t a then (t, [ConnClose])
  else (addIBPeer t a c, [ConnStart; ConnSendBitfield]).

(** [broadcastHave(idx)]: who is sent what.  A connection's remote
    address is the key it was stored under. *)
Definition broadcastHave (t : Torrent) (idx : Z)
  : list (string * common.WireMessage) :=
  let msg := common.NewHave idx in
  let conns : gmap string PeerConn :=
    fold_left (fun m ac => <[ac.1 := ac.2]> m)
      (map_to_list (obconns t) ++ map_to_list (ibconns t)) ∅ in
  (fun ac => (ac.1, msg)) <$> map_to_list conns.

Section Serving.
Context {FS : Type} `{!metainfo.PathLib, !storage.Driver FS}.

(** [handlePieceRequest(c, r)]: what happens to [c].  [st] is the
    torrent's store; [None] is a nil request. *)
Definition handlePieceRequest (st : storage.fsTorrent) (fs : FS)
    (r : option common.PieceRequest) : res (list conn_action) :=
  match r with
  | Some r =>
      if 0 <? common.req_Length r then
        do (acts, _) <-
          storage.VisitPiece st fs r
            (fun p (acts : list conn_action) =>
               Ret (acts ++ [ConnSend (common.PieceData_ToWireMessage p)], None))
            [];
        Ret acts
      else Ret [ConnClose]
  | None => Ret [ConnClose]
  end.
End Serving.

(** *** Announce times

    [torrentAnnounce] is declared outside the files at hand; these are
    the two fields the torrent reads and writes.  An instant is a
    number of nanoseconds, [time.Now()] a parameter. *)
Record torrentAnnounce : Type := mkTorrentAnnounce {
  next : Z;
  fails : Z
}.

Definition Minute : Z := 60 * 1000000000.

Definition nextAnnounceFor (announcers : gmap string torrentAnnounce)
    (now : Z) (name : string) : gmap string torrentAnnounce * Z :=
  match announcers !! name with
  | Some a => (announcers, next a)
  | None =>
      let tm := now + Minute in
      (<[name := mkTorrentAnnounce tm 0]> announcers, tm)
  end.

(** [time.Now().After(t.nextAnnounceFor(name))]: the receiver's clock
    reading [now0] is taken before the one inside [nextAnnounceFor]. *)
Definition shouldAnnounce (announcers : gmap string torrentAnnounce)
    (now0 now1 : Z) (name : string) : gmap string torrentAnnounce * bool :=
  let '(announcers', tm) := nextAnnounceFor announcers now1 name in
  (announcers', tm <? now0).

End swarm.

(** ** A small concrete world

    Stand-ins for the external libraries, used to run the model on
    concrete torrents. *)

Module example.

(** A checksum in the place of SHA-1: twenty copies of the byte sum. *)
Definition checksum (d : list byte) : list byte :=
  replicate 20 (byte_of_Z (foldr (fun b s => Z_of_byte b + s) 0 d)).

Global Instance example_sha1 : Sha1 := checksum.

Global Instance example_paths : metainfo.PathLib :=
  fun elems => foldr (fun e s => if decide (s = "") then e else e +:+ "/" +:+ s) "" elems.

Global Instance example_hex : storage.InfohashHex := fun _ => "00".

Global Instance example_bencode : metainfo.Bencode :=
  fun i => metainfo.Pieces i.

(** [pieces_of data pl]: the concatenated digests of the [pl]-byte
    pieces of [data]. *)
Fixpoint pieces_of (fuel : nat) (data : list byte) (pl : nat) : list byte :=
  match fuel, data with
  | O, _ | _, [] => []
  | S fuel', _ => checksum (take pl data) ++ pieces_of fuel' (drop pl data) pl
  end.

End example.

(** * Specification predicates *)

(** The ranges Go's types give the fields of a message. *)
Definition is_u32 (x : Z) : Prop := 0 <= x < 2 ^ 32.

Definition PieceRequest_wf (r : common.PieceRequest) : Prop :=
  is_u32 (common.req_Index r) /\ is_u32 (common.req_Begin r)
  /\ is_u32 (common.req_Length r).

Definition PieceData_wf (p : common.PieceData) : Prop :=
  is_u32 (common.pc_Index p) /\ is_u32 (common.pc_Begin p).


(** The content length of a file list, as a number (no wrap-around). *)
Definition content_length (files : list metainfo.FileInfo) : Z :=
  foldr (fun f s => metainfo.fi_Length f + s) 0 files.

(** A manifest whose piece count agrees with its content length: the
    last piece is neither empty nor longer than a piece. *)
Definition pieces_cover_content (tf : metainfo.TorrentFile) : Prop :=
  let i := metainfo.tf_Info tf in
  let n := metainfo.NumPieces i in
  1 <= n /\ is_u32 (metainfo.PieceLength i)
  /\ (n - 1) * metainfo.PieceLength i < metainfo.TotalSize tf
       <= n * metainfo.PieceLength i.

(** A bitfield whose byte array has the size its length asks for. *)
Definition Bitfield_wf (b : bittorrent.Bitfield) : Prop :=
  0 <= bittorrent.bf_Length b
  /\ len (bittorrent.bf_Data b) = (bittorrent.bf_Length b + 7) / 8.

(** Bit [i mod 8] of a byte, most significant first. *)
Definition byte_bit (b : byte) (i : Z) : bool :=
  Z.testbit (Z_of_byte b) (7 - i mod 8).

(** Rarest-first selection: the pieces a query may return, and how many
    of the connected peers announce a piece. *)
Definition candidate (bt remote : bittorrent.Bitfield) (exclude : list Z)
    (i : Z) : Prop :=
  bittorrent.Has remote i = true /\ bittorrent.Has bt i = false /\ i ∉ exclude.

Definition swarm_count (t : swarm.Torrent) (i : Z) : Z :=
  bittorrent.availability (omap swarm.c_bf (swarm.VisitPeers t)) i.

(** The pieces [FindRarest] may pick, and what its scan knows after the
    indices below [k]: the best wanted index so far with its count, no
    other wanted index below [k] being rarer, or as rare and lower. *)
Definition wanted (bf : bittorrent.Bitfield) (exclude : Z -> bool) (i : Z) : Prop :=
  bittorrent.Has bf i = true /\ exclude i = false.

Definition scanned (bf : bittorrent.Bitfield) (others : list bittorrent.Bitfield)
    (exclude : Z -> bool) (k : nat) (best : option (Z * Z)) : Prop :=
  match best with
  | Some (i, c) =>
      0 <= i < Z.of_nat k /\ wanted bf exclude i
      /\ c = bittorrent.availability others i
      /\ forall j, 0 <= j < Z.of_nat k -> wanted bf exclude j ->
           c < bittorrent.availability others j
           \/ (c = bittorrent.availability others j /\ i <= j)
  | None => forall j, 0 <= j < Z.of_nat k -> ~ wanted bf exclude j
  end.

(** The 20-byte digest the manifest holds for piece [idx]. *)
Definition manifest_hash (i : metainfo.Info) (idx : Z) : list byte :=
  take 20 (drop (Z.to_nat (20 * idx)) (metainfo.Pieces i)).

(** The data of [pc] hash to the digest the manifest holds for its
    index. *)
Definition hash_matches `{!Sha1} (i : metainfo.Info) (pc : common.PieceData) : Prop :=
  common.pc_Index pc < metainfo.NumPieces i
  /\ sha1_Sum (common.pc_Data pc) = manifest_hash i (common.pc_Index pc).



(** The bytes [VisitPiece] reads for piece [idx], when the read succeeds:
    [LengthOfPiece idx] bytes at the offset of the piece. *)
Definition piece_on_disk {FS : Type} `{!metainfo.PathLib, !storage.Driver FS}
    (t : storage.fsTorrent) (fs : FS) (idx : Z) (data : list byte) : Prop :=
  let tf := storage.meta t in
  exists n,
    storage.ReadAt t fs
      (replicate (Z.to_nat (metainfo.LengthOfPiece tf idx)) x00)
      (i64 (0 + i64 (metainfo.PieceLength (metainfo.tf_Info tf) * idx)))
    = Ret (n, None, data).

(** [VerifyPiece] finds piece [idx] intact. *)
Definition piece_ok {FS : Type} `{!Sha1, !metainfo.PathLib, !storage.Driver FS}
    (t : storage.fsTorrent) (fs : FS) (idx : Z) : bool :=
  match storage.VerifyPiece t fs idx with
  | Ret None => true
  | _ => false
  end.

(** The in-memory layout of a torrent: the bytes of one file, the linear
    content of a file list, files allocated to their declared length,
    and file entries that name different files. *)
Definition file_bytes `{!metainfo.PathLib} (t : storage.fsTorrent)
    (fs : memfs.MemFS) (fi : metainfo.FileInfo) : list byte :=
  default [] (memfs.mem_files fs !! storage.fileName t fi).

Definition content `{!metainfo.PathLib} (t : storage.fsTorrent)
    (fs : memfs.MemFS) (files : list metainfo.FileInfo) : list byte :=
  concat (file_bytes t fs <$> files).

Definition file_ready `{!metainfo.PathLib} (t : storage.fsTorrent)
    (fs : memfs.MemFS) (fi : metainfo.FileInfo) : bool :=
  match memfs.mem_files fs !! storage.fileName t fi with
  | Some c => len c =? metainfo.fi_Length fi
  | None => false
  end.

Definition allocated `{!metainfo.PathLib} (t : storage.fsTorrent)
    (fs : memfs.MemFS) (files : list metainfo.FileInfo) : Prop :=
  forallb (file_ready t fs) files = true.

Definition preallocated `{!metainfo.PathLib} (t : storage.fsTorrent)
    (fs : memfs.MemFS) : Prop :=
  allocated t fs (metainfo.GetFiles (metainfo.tf_Info (storage.meta t))).

Definition distinct_files `{!metainfo.PathLib} (t : storage.fsTorrent) : Prop :=
  NoDup (storage.fileName t <$> metainfo.GetFiles (metainfo.tf_Info (storage.meta t))).

(** The address has an entry in one of the connection maps. *)
Definition connected (t : swarm.Torrent) (a : string) : Prop :=
  swarm.HasOBConn t a = true \/ swarm.HasIBConn t a = true.

(** The piece indices of a manifest, [0 .. NumPieces - 1]. *)
Definition piece_indices (tf : metainfo.TorrentFile) : list Z :=
  Z.of_nat <$> seq 0 (Z.to_nat (metainfo.NumPieces (metainfo.tf_Info tf))).

(** The dials a [PersistPeer] goroutine for address [a] may still make:
    none for another address or when done, and otherwise what is left of
    its ten tries (a goroutine inside a dial has used one of them). *)
Definition dial_budget (a : string) (g : swarm.goroutine) : Z :=
  if decide (swarm.g_addr g = a) then
    match swarm.g_state g with
    | swarm.AtLoop n => Z.max n 1
    | swarm.InDial n => Z.max (n - 1) 0
    | swarm.Done => 0
    end
  else 0.

Definition dial_budgets (a : string) (gs : list swarm.goroutine) : Z :=
  foldr (fun g s => dial_budget a g + s) 0 gs.

(** How often address [a] was handed to [Dial]. *)
Definition dials_to (a : string) (dials : list string) : Z :=
  len (filter (fun x => x = a) dials).

(** * Properties *)

(** ** Bytes and big-endian words *)

Lemma Z_of_byte_range (b : byte) : 0 <= Z_of_byte b < 256.
Proof.
  unfold Z_of_byte. pose proof (Byte.to_N_bounded b) as Hb.
  lia.
Qed.

Lemma Z_of_byte_of_Z (x : Z) : Z_of_byte (byte_of_Z x) = x mod 256.
Proof.
  unfold Z_of_byte, byte_of_Z.
  assert (Hr : 0 <= x mod 256 < 256) by (apply Z.mod_pos_bound; lia).
  destruct (Byte.of_N (Z.to_N (x mod 256))) as [b|] eqn:E.
  - apply Byte.to_of_N in E. rewrite E. lia.
  - apply Byte.of_N_None_iff in E. lia.
Qed.

Lemma byte_of_Z_of_byte (b : byte) : byte_of_Z (Z_of_byte b) = b.
Proof.
  unfold byte_of_Z, Z_of_byte.
  pose proof (Z_of_byte_range b) as Hr. unfold Z_of_byte in Hr.
  rewrite Z.mod_small by lia. rewrite N2Z.id, Byte.of_to_N. reflexivity.
Qed.
Lemma testbit_field (v k n : Z) :
  0 <= k -> 0 <= n ->
  Z.testbit (Z.shiftr v k mod 2 ^ 8) (n - k) =
  (k <=? n) && (n <? k + 8) && Z.testbit v n.
Proof.
  intros Hk Hn.
  destruct (Z.leb_spec k n); simpl.
  - destruct (Z.ltb_spec n (k + 8)); simpl.
    + rewrite Z.mod_pow2_bits_low by lia.
      rewrite Z.shiftr_spec by lia. f_equal. lia.
    + apply Z.mod_pow2_bits_high. lia.
  - apply Z.testbit_neg_r. lia.
Qed.

Lemma testbit_u32_high (v n : Z) :
  0 <= v < 2 ^ 32 -> 32 <= n -> Z.testbit v n = false.
Proof.
  intros Hv Hn.
  destruct (Z.eq_dec v 0) as [->|Hz]; [apply Z.bits_0|].
  apply Z.bits_above_log2; [lia|].
  apply Z.lt_le_trans with 32; [|lia]. apply Z.log2_lt_pow2; lia.
Qed.

Lemma Uint32_PutUint32 (v : Z) (rest : list byte) :
  0 <= v < 2 ^ 32 -> binary.Uint32 (binary.PutUint32 v ++ rest) = Ret v.
Proof.
  intros Hv. unfold binary.PutUint32, binary.Uint32. simpl. f_equal.
  rewrite !Z_of_byte_of_Z.
  apply Z.bits_inj'. intros n Hn.
  rewrite !Z.lor_spec, !Z.shiftl_spec by lia.
  change 256 with (2 ^ 8).
  rewrite <- (Z.shiftr_0_r v) at 1. replace n with (n - 0) at 1 by lia.
  rewrite !testbit_field by lia.
  pose proof (testbit_u32_high v n Hv) as Hhigh.
  destruct (Z.testbit v n); [|by rewrite !andb_false_r].
  rewrite !andb_true_r.
  destruct (Z.ltb_spec n 32) as [Hlt|Hge]; [|specialize (Hhigh Hge); done].
  repeat match goal with
  | |- context [?a <=? ?b] => destruct (Z.leb_spec a b)
  | |- context [?a <? ?b] => destruct (Z.ltb_spec a b)
  end; simpl; try reflexivity; lia.
Qed.

(** ** Slices *)

Lemma len_app {A} (a b : list A) : len (a ++ b) = len a + len b.
Proof. unfold len. rewrite length_app. lia. Qed.

Lemma len_nonneg {A} (a : list A) : 0 <= len a.
Proof. unfold len. lia. Qed.

Lemma slice_from_app {A} (a b : list A) (k : Z) :
  k = len a -> slice_from (a ++ b) k = Ret b.
Proof.
  intros ->. unfold slice_from, slice.
  pose proof (len_nonneg a). pose proof (len_nonneg b). rewrite len_app.
  rewrite !(proj2 (Z.leb_le _ _)) by lia. simpl. f_equal.
  unfold len. rewrite Nat2Z.id, drop_app_length.
  apply take_ge. lia.
Qed.

Lemma slice_to_app {A} (a b : list A) (k : Z) :
  k = len a -> slice_to (a ++ b) k = Ret a.
Proof.
  intros ->. unfold slice_to, slice.
  pose proof (len_nonneg a). pose proof (len_nonneg b). rewrite len_app.
  rewrite !(proj2 (Z.leb_le _ _)) by lia. simpl. f_equal.
  rewrite Z.sub_0_r. unfold len. rewrite Nat2Z.id.
  apply take_app_length.
Qed.

(** ** Wire messages: serialise, then parse *)

Lemma len_PutUint32 (v : Z) : len (binary.PutUint32 v) = 4.
Proof. reflexivity. Qed.

Lemma MessageID_NewWireMessage id body :
  common.MessageID (common.NewWireMessage id body) = id.
Proof.
  unfold common.MessageID, common.NewWireMessage.
  rewrite len_app, len_PutUint32.
  change (len (id :: body)) with (Z.of_nat (S (length body))).
  destruct (Z.ltb_spec 4 (4 + Z.of_nat (S (length body)))); [|lia].
  reflexivity.
Qed.

Lemma Payload_NewWireMessage id body :
  len body + 1 < 2 ^ 32 ->
  common.Payload (common.NewWireMessage id body) = Ret body.
Proof.
  intros Hl. unfold common.Payload, common.Len, common.NewWireMessage.
  pose proof (len_nonneg body).
  assert (Hu : u32 (len body + 1) = len body + 1)
    by (unfold u32; apply Z.mod_small; lia).
  rewrite Uint32_PutUint32 by (rewrite Hu; lia). simpl.
  rewrite Hu. destruct (Z.ltb_spec 0 (len body + 1)); [|lia].
  apply (slice_from_app [_; _; _; _; _] body). reflexivity.
Qed.

Lemma be32_bytes (v : Z) :
  is_u32 v ->
  Z.lor (Z.lor (Z.lor (Z_of_byte (byte_of_Z v))
                      (Z.shiftl (Z_of_byte (byte_of_Z (Z.shiftr v 8))) 8))
               (Z.shiftl (Z_of_byte (byte_of_Z (Z.shiftr v 16))) 16))
        (Z.shiftl (Z_of_byte (byte_of_Z (Z.shiftr v 24))) 24) = v.
Proof.
  intros Hv. pose proof (Uint32_PutUint32 v [] Hv) as E.
  by injection E.
Qed.

Lemma GetPieceRequest_ToWireMessage (r : common.PieceRequest) :
  PieceRequest_wf r ->
  common.GetPieceRequest (common.PieceRequest_ToWireMessage r) = Ret r.
Proof.
  intros (Hi & Hb & Hl). destruct r as [i b l]; simpl in *.
  unfold common.GetPieceRequest, common.PieceRequest_ToWireMessage.
  rewrite MessageID_NewWireMessage.
  destruct (decide (common.Request = common.Request)); [|done].
  rewrite Payload_NewWireMessage by (vm_compute; reflexivity).
  simpl. by rewrite !be32_bytes.
Qed.

Lemma GetPieceData_ToWireMessage (p : common.PieceData) :
  PieceData_wf p ->
  common.pc_Data p <> [] ->
  len (common.pc_Data p) + 9 < 2 ^ 32 ->
  common.GetPieceData (common.PieceData_ToWireMessage p) = Ret p.
Proof.
  intros (Hi & Hb) Hne Hlen. destruct p as [i b d]; simpl in *.
  unfold common.GetPieceData, common.PieceData_ToWireMessage.
  cbn [common.pc_Index common.pc_Begin common.pc_Data].
  rewrite MessageID_NewWireMessage.
  destruct (decide (common.Piece = common.Piece)); [|done].
  assert (Hbody : len (binary.PutUint32 i ++ binary.PutUint32 b ++ d) = 8 + len d)
    by (rewrite !len_app, !len_PutUint32; lia).
  rewrite Payload_NewWireMessage by (rewrite Hbody; lia).
  unfold res_bind at 1. rewrite Hbody.
  assert (0 < len d) by (destruct d; [done|]; unfold len; simpl; lia).
  destruct (Z.ltb_spec 8 (8 + len d)); [|lia].
  rewrite (slice_from_app (binary.PutUint32 i)) by reflexivity.
  rewrite (app_assoc (binary.PutUint32 i)).
  rewrite (slice_from_app (binary.PutUint32 i ++ binary.PutUint32 b)) by reflexivity.
  simpl. by rewrite !be32_bytes.
Qed.

(** C8, as stated, fails: a piece message without data bytes does not
    survive [GetPieceData], whose guard [len(data) > 8] treats it as no
    piece at all and returns the zero value. *)
Lemma C8_empty_piece_lost :
  let p := common.mkPieceData 1 0 [] in
  common.GetPieceData (common.PieceData_ToWireMessage p) = Ret common.zeroPieceData
  /\ common.GetPieceData (common.PieceData_ToWireMessage p) <> Ret p.
Proof. split; [reflexivity|discriminate]. Qed.

(** C8, amended: parse after serialise is the identity on every piece
    request, and on every piece message that carries at least one data
    byte (and fits the 32-bit length prefix). *)
Theorem C8_parse_serialize :
  forall (r : common.PieceRequest) (p : common.PieceData),
    PieceRequest_wf r ->
    PieceData_wf p ->
    common.pc_Data p <> [] ->
    len (common.pc_Data p) + 9 < 2 ^ 32 ->
    common.GetPieceRequest (common.PieceRequest_ToWireMessage r) = Ret r
    /\ common.GetPieceData (common.PieceData_ToWireMessage p) = Ret p.
Proof.
  intros r p Hr Hp Hne Hlen. split.
  - by apply GetPieceRequest_ToWireMessage.
  - by apply GetPieceData_ToWireMessage.
Qed.

(** A request and a three-byte block survive the round trip. *)
Lemma C8_parse_serialize_witness :
  let r := common.mkPieceRequest 3 16384 16384 in
  let p := common.mkPieceData 3 16384 [x01; x02; x03] in
  common.GetPieceRequest (common.PieceRequest_ToWireMessage r) = Ret r
  /\ common.GetPieceData (common.PieceData_ToWireMessage p) = Ret p.
Proof.
  apply C8_parse_serialize.
  - unfold PieceRequest_wf, is_u32; simpl; lia.
  - unfold PieceData_wf, is_u32; simpl; lia.
  - discriminate.
  - vm_compute; reflexivity.
Defined.

(** ** The wire reader *)

Lemma lor_lt_pow2 (a b k : Z) :
  0 <= k -> 0 <= a < 2 ^ k -> 0 <= b < 2 ^ k -> 0 <= Z.lor a b < 2 ^ k.
Proof.
  intros Hk Ha Hb. split; [apply Z.lor_nonneg; lia|].
  destruct (Z.eq_dec (Z.lor a b) 0) as [->|Hz]; [lia|].
  assert (0 < Z.lor a b) by (pose proof (proj2 (Z.lor_nonneg a b)); lia).
  apply Z.log2_lt_pow2; [lia|].
  rewrite Z.log2_lor by lia.
  assert (Hlog : forall x, 0 <= x < 2 ^ k -> 0 < Z.lor a b -> 0 < k -> Z.log2 x < k).
  { intros x Hx _ Hk0. destruct (Z.eq_dec x 0) as [->|]; [simpl; lia|].
    apply Z.log2_lt_pow2; lia. }
  assert (0 < k).
  { destruct (Z.eq_dec k 0) as [->|]; [|lia].
    change (2 ^ 0) with 1 in *.
    assert (Z.lor a b = 0); [|lia].
    replace a with 0 by lia. replace b with 0 by lia. reflexivity. }
  apply Z.max_lub_lt; apply Hlog; auto.
Qed.

Lemma shiftl_byte_lt (b : byte) (k : Z) :
  0 <= k <= 24 -> 0 <= Z.shiftl (Z_of_byte b) k < 2 ^ 32.
Proof.
  intros Hk. pose proof (Z_of_byte_range b) as Hb.
  rewrite Z.shiftl_mul_pow2 by lia.
  assert (2 ^ k <= 2 ^ 24) by (apply Z.pow_le_mono_r; lia).
  assert (0 < 2 ^ k) by (apply Z.pow_pos_nonneg; lia).
  nia.
Qed.

Lemma Uint32_range (b : list byte) (l : Z) :
  binary.Uint32 b = Ret l -> 0 <= l < 2 ^ 32.
Proof.
  unfold binary.Uint32.
  destruct b as [|b0 [|b1 [|b2 [|b3 ?]]]]; try done.
  intros [= <-].
  pose proof (shiftl_byte_lt b3 0) as H3. rewrite Z.shiftl_0_r in H3.
  repeat apply lor_lt_pow2; try lia; apply shiftl_byte_lt; lia.
Qed.

(** Every message the reader hands to the handler fills the whole
    buffer: its length prefix is exactly [MaxWireMessageSize]. *)
Lemma ReadWireMessages_loop_dispatch fuel f msg r tr e tr' :
  len msg = common.MaxWireMessageSize + 4 ->
  common.ReadWireMessages_loop fuel f msg r tr = Ret (e, tr') ->
  forall m, common.Dispatched m ∈ tr' ->
    common.Dispatched m ∈ tr \/ len m = common.MaxWireMessageSize + 4.
Proof.
  revert msg r tr.
  induction fuel as [|fuel IH]; intros msg r tr Hmsg Hrun m Hin; [done|].
  simpl in Hrun.
  destruct (common.ReadFull r 4) as [[got r1] err] eqn:Hrf.
  set (msg1 := got ++ drop (length got) msg) in *.
  assert (Hgot : (length got <= 4)%nat).
  { unfold common.ReadFull in Hrf. repeat case_decide; simplify_eq; simpl; try lia.
    rewrite length_take. lia. }
  assert (Hmsg1 : len msg1 = common.MaxWireMessageSize + 4).
  { unfold msg1, len in *. rewrite length_app, length_drop.
    change (common.MaxWireMessageSize + 4) with 32772 in *. lia. }
  destruct (binary.Uint32 (take 4 msg1)) as [l| |] eqn:Hl; simpl in Hrun; try done.
  destruct (0 <? l) eqn:Hpos.
  - destruct (l <? common.MaxWireMessageSize) eqn:Hsmall.
    + destruct (common.CopyN_Discard r1 l) as [r2 [e2|]] eqn:Hc.
      * simplify_eq. apply elem_of_app in Hin as [Hin|Hin]; [by left|].
        apply list_elem_of_singleton in Hin. done.
      * apply (IH _ _ _ Hmsg1 Hrun) in Hin as [Hin|Hin]; [|by right].
        apply elem_of_app in Hin as [Hin|Hin]; [by left|].
        apply list_elem_of_singleton in Hin. done.
    + destruct (slice msg1 4 (u32 (4 + l))) as [body| |] eqn:Hbody;
        simpl in Hrun; try done.
      destruct (common.ReadFull r1 (length body)) as [[got2 r2] err2] eqn:Hrf2.
      set (msg2 := take 4 msg1 ++ got2 ++ drop (S (S (S (S (length got2))))) msg1) in *.
      apply Z.ltb_ge in Hsmall. apply Z.ltb_lt in Hpos.
      unfold slice in Hbody.
      destruct ((0 <=? 4) && (4 <=? u32 (4 + l)) && (u32 (4 + l) <=? len msg1))
        eqn:Hb; [|done].
      apply andb_prop in Hb as [Hb Hb3]. apply andb_prop in Hb as [_ Hb2].
      apply Z.leb_le in Hb2, Hb3.
      destruct err2 as [e2|].
      * simplify_eq. by left.
      * destruct (slice_to msg2 (u32 (4 + l))) as [m'| |] eqn:Hm;
          simpl in Hrun; try done.
        assert (Hlenbody : len body = u32 (4 + l) - 4).
        { simplify_eq. unfold len in *. rewrite length_take, length_drop. lia. }
        assert (Hgot2 : length got2 = length body).
        { unfold common.ReadFull in Hrf2. repeat case_decide; simplify_eq; simpl; try lia.
          rewrite length_take. lia. }
        assert (Hmsg2 : len msg2 = common.MaxWireMessageSize + 4).
        { unfold msg2, len in *.
          rewrite !length_app, length_take, length_drop. lia. }
        assert (Hl32 : 0 <= l < 2 ^ 32) by (by eapply Uint32_range).
        assert (Hl' : l = common.MaxWireMessageSize).
        { change common.MaxWireMessageSize with 32768 in *.
          unfold u32 in *.
          destruct (Z_lt_le_dec (4 + l) (2 ^ 32)).
          - rewrite Z.mod_small in * by lia. lia.
          - replace ((4 + l) mod 2 ^ 32) with (4 + l - 2 ^ 32) in *; [lia|].
            apply Z.mod_unique with 1; lia. }
        assert (Hm' : len m' = common.MaxWireMessageSize + 4).
        { subst l. unfold slice_to, slice in Hm.
          destruct ((0 <=? 0) && (0 <=? u32 (4 + common.MaxWireMessageSize))
                    && (u32 (4 + common.MaxWireMessageSize) <=? len msg2));
            [|done].
          injection Hm as <-. unfold len in *. rewrite length_take, length_drop.
          change (u32 (4 + common.MaxWireMessageSize)) with 32772.
          change (common.MaxWireMessageSize + 4) with 32772 in *. lia. }
        destruct (f m') as [e3|] eqn:Hf.
        -- simplify_eq. apply elem_of_app in Hin as [Hin|Hin]; [by left|].
           apply list_elem_of_singleton in Hin. simplify_eq. by right.
        -- apply (IH _ _ _ Hmsg2 Hrun) in Hin as [Hin|Hin]; [|by right].
           apply elem_of_app in Hin as [Hin|Hin]; [by left|].
           apply list_elem_of_singleton in Hin. simplify_eq. by right.
  - destruct err as [e1|].
    + simplify_eq. by left.
    + apply (IH _ _ _ Hmsg1 Hrun) in Hin as [Hin|Hin]; [by left|by right].
Qed.

(** The reader never hands an in-range frame to the handler. *)
Lemma ReadWireMessages_dispatches_only_full r f e tr :
  common.ReadWireMessages r f = Ret (e, tr) ->
  forall m, common.Dispatched m ∈ tr -> len m = common.MaxWireMessageSize + 4.
Proof.
  intros Hrun m Hin. unfold common.ReadWireMessages in Hrun.
  assert (Hlen : len (replicate (Z.to_nat (common.MaxWireMessageSize + 4)) x00)
                 = common.MaxWireMessageSize + 4).
  { unfold len. rewrite length_replicate. apply Z2Nat.id. done. }
  destruct (ReadWireMessages_loop_dispatch _ _ _ _ _ _ _ Hlen Hrun m Hin)
    as [H|H]; [|exact H].
  exfalso. revert H. apply not_elem_of_nil.
Qed.

(** C1.  The reader has its two branches the wrong way round.  A CHOKE
    frame (L = 1) followed by an UNCHOKE frame is drained and logged as
    "too big" and never reaches the handler; a frame announcing
    L = 10 MiB is not drained: slicing the 32 KiB buffer up to [4 + L]
    panics. *)
Theorem C1_reader_branches_reversed :
  let accept : common.WireMessage -> option error := fun _ => None in
  let choke := common.NewWireMessage common.Choke [] in
  let unchoke := common.NewWireMessage common.UnChoke [] in
  let oversize := binary.PutUint32 (10 * 1024 * 1024) in
  common.ReadWireMessages (choke ++ unchoke) accept
    = Ret (EOF, [common.Discarded 1; common.Discarded 1; common.Discarded 1])
  /\ common.ReadWireMessages (oversize ++ unchoke) accept = Panic.
Proof. split; vm_compute; reflexivity. Qed.

(** ** Infohash *)

(** C9.  A manifest whose info section carries a [meta version] at all,
    version 1 included, gets the zero-valued v2 infohash and never the
    SHA-1 of its bencoded info section; the v1 infohash is returned
    exactly when the field is absent. *)
Theorem C9_infohash_by_meta_version
    `{!Sha1, !metainfo.Bencode} (v2len : nat) (tf : metainfo.TorrentFile) :
  metainfo.TorrentFile_Infohash v2len tf =
    match metainfo.MetaVersion (metainfo.tf_Info tf) with
    | Some _ => metainfo.IhV2 (replicate v2len x00)
    | None =>
        metainfo.IhV1
          (copy (replicate 20 x00)
             (sha1_Sum (metainfo.bencode_Info (metainfo.tf_Info tf))))
    end
  /\ (metainfo.TorrentFile_Infohash v2len tf
        = metainfo.IhV1 (metainfo.InfohashV1 tf)
      <-> metainfo.MetaVersion (metainfo.tf_Info tf) = None)
  /\ (metainfo.MetaVersion (metainfo.tf_Info tf) = Some 1 ->
      metainfo.IsV1Compat (metainfo.tf_Info tf) = true
      /\ metainfo.TorrentFile_Infohash v2len tf
           = metainfo.IhV2 (replicate v2len x00)).
Proof.
  unfold metainfo.TorrentFile_Infohash, metainfo.IsV1Only, metainfo.IsV1Compat,
    metainfo.InfohashV1, metainfo.InfohashV2.
  destruct (metainfo.MetaVersion (metainfo.tf_Info tf)) as [v|].
  - split; [reflexivity|]. split; [split; discriminate|].
    intros [= ->]. split; reflexivity.
  - split; [reflexivity|]. split; [split; reflexivity|discriminate].
Qed.

(** ** Piece lengths *)

Lemma NumPieces_range (i : metainfo.Info) : 0 <= metainfo.NumPieces i < 2 ^ 32.
Proof. unfold metainfo.NumPieces, u32. apply Z.mod_pos_bound. lia. Qed.

Lemma LengthOfPiece_inner (tf : metainfo.TorrentFile) (idx : Z) :
  0 <= idx < metainfo.NumPieces (metainfo.tf_Info tf) - 1 ->
  metainfo.LengthOfPiece tf idx = metainfo.PieceLength (metainfo.tf_Info tf).
Proof.
  intros Hidx. unfold metainfo.LengthOfPiece.
  pose proof (NumPieces_range (metainfo.tf_Info tf)) as Hn.
  unfold u32 at 1. rewrite Z.mod_small by lia.
  destruct (Z.eqb_spec (metainfo.NumPieces (metainfo.tf_Info tf)) (idx + 1)); [lia|].
  reflexivity.
Qed.

Lemma LengthOfPiece_last (tf : metainfo.TorrentFile) :
  pieces_cover_content tf ->
  let n := metainfo.NumPieces (metainfo.tf_Info tf) in
  metainfo.LengthOfPiece tf (n - 1)
  = metainfo.TotalSize tf - (n - 1) * metainfo.PieceLength (metainfo.tf_Info tf).
Proof.
  intros (Hn1 & Hpl & Hlo & Hhi) n. unfold metainfo.LengthOfPiece.
  pose proof (NumPieces_range (metainfo.tf_Info tf)) as Hn.
  fold n in Hn, Hn1, Hlo, Hhi |- *.
  set (pl := metainfo.PieceLength (metainfo.tf_Info tf)) in *.
  set (sz := metainfo.TotalSize tf) in *.
  unfold is_u32 in Hpl.
  replace (n - 1 + 1) with n by lia.
  unfold u32 at 1. rewrite (Z.mod_small n) by lia.
  rewrite Z.eqb_refl.
  assert (0 <= n * pl < 2 ^ 64) by nia.
  unfold u64. rewrite (Z.mod_small (n * pl)) by lia.
  rewrite (Z.mod_small (n * pl - sz)) by nia.
  rewrite (Z.mod_small (pl - (n * pl - sz))) by nia.
  unfold u32. rewrite Z.mod_small by nia. lia.
Qed.

(** C6, as stated, fails: nothing ties the number of piece hashes to the
    content length.  Two piece hashes, pieces of 16 bytes and one file of
    100 bytes give a "last piece" of 84 bytes; with a file of 10 bytes the
    subtraction wraps and the last piece is 2^32 - 6 bytes long. *)
Lemma C6_unrelated_piece_count :
  let long := metainfo.mkTorrentFile
    (metainfo.mkInfo 16 (replicate 40 x00) "f" [] None 100 [] None) "" [] in
  let short := metainfo.mkTorrentFile
    (metainfo.mkInfo 16 (replicate 40 x00) "f" [] None 10 [] None) "" [] in
  (content_length (metainfo.GetFiles (metainfo.tf_Info long)) = metainfo.TotalSize long
   /\ metainfo.NumPieces (metainfo.tf_Info long) = 2
   /\ metainfo.LengthOfPiece long 1 = 84
   /\ ~ metainfo.LengthOfPiece long 1 <= metainfo.PieceLength (metainfo.tf_Info long))
  /\
  (content_length (metainfo.GetFiles (metainfo.tf_Info short)) = metainfo.TotalSize short
   /\ metainfo.NumPieces (metainfo.tf_Info short) = 2
   /\ metainfo.LengthOfPiece short 1 = 2 ^ 32 - 6
   /\ metainfo.LengthOfPiece short 1
        <> metainfo.TotalSize short - 1 * metainfo.PieceLength (metainfo.tf_Info short)).
Proof. vm_compute. repeat split; congruence. Qed.

(** C6, amended: when the piece count agrees with the content length,
    that is (N-1) * piece_length < total <= N * piece_length, every piece
    but the last has piece_length bytes and the last has
    total - (N-1) * piece_length bytes, more than 0 and at most
    piece_length. *)
Theorem C6_length_of_piece (tf : metainfo.TorrentFile) :
  pieces_cover_content tf ->
  let n := metainfo.NumPieces (metainfo.tf_Info tf) in
  let pl := metainfo.PieceLength (metainfo.tf_Info tf) in
  (forall i, 0 <= i < n - 1 -> metainfo.LengthOfPiece tf i = pl)
  /\ metainfo.LengthOfPiece tf (n - 1) = metainfo.TotalSize tf - (n - 1) * pl
  /\ 0 < metainfo.LengthOfPiece tf (n - 1) <= pl.
Proof.
  intros Hwf n pl. split; [|split].
  - intros i Hi. by apply LengthOfPiece_inner.
  - by apply LengthOfPiece_last.
  - unfold n, pl. rewrite LengthOfPiece_last by done.
    destruct Hwf as (? & ? & ? & ?). lia.
Qed.

(** Forty bytes in three pieces of sixteen: the last piece has eight. *)
Lemma C6_length_of_piece_witness :
  let tf := metainfo.mkTorrentFile
    (metainfo.mkInfo 16 (replicate 60 x00) "d"
       [metainfo.mkFileInfo 30 ["a"] []; metainfo.mkFileInfo 10 ["b"] []]
       None 0 [] None) "" [] in
  (forall i, 0 <= i < 3 - 1 -> metainfo.LengthOfPiece tf i = 16)
  /\ metainfo.LengthOfPiece tf (3 - 1) = 40 - (3 - 1) * 16
  /\ 0 < metainfo.LengthOfPiece tf (3 - 1) <= 16.
Proof.
  intros tf. apply (C6_length_of_piece tf).
  unfold pieces_cover_content, is_u32. vm_compute. repeat split; congruence.
Defined.

(** ** Bitfields *)

Lemma len_indices (b : bittorrent.Bitfield) :
  0 <= bittorrent.bf_Length b -> len (bittorrent.indices b) = bittorrent.bf_Length b.
Proof.
  intros H. unfold len, bittorrent.indices.
  rewrite length_map, length_seq. lia.
Qed.

Lemma elem_of_indices (b : bittorrent.Bitfield) (i : Z) :
  i ∈ bittorrent.indices b <-> 0 <= i < bittorrent.bf_Length b.
Proof.
  unfold bittorrent.indices. rewrite list_elem_of_fmap. split.
  - intros (k & -> & Hk). apply elem_of_seq in Hk. lia.
  - intros Hi. exists (Z.to_nat i). split; [lia|]. apply elem_of_seq. lia.
Qed.

Lemma filter_all {A} (P : A -> Prop) `{!forall x, Decision (P x)} (l : list A) :
  Forall P l -> filter P l = l.
Proof.
  induction 1 as [|x l Hx _ IH]; [reflexivity|].
  rewrite filter_cons_True by done. by rewrite IH.
Qed.

Lemma CountSet_all (b : bittorrent.Bitfield) :
  0 <= bittorrent.bf_Length b ->
  (forall i, 0 <= i < bittorrent.bf_Length b -> bittorrent.Has b i = true) ->
  bittorrent.CountSet b = bittorrent.bf_Length b.
Proof.
  intros Hl Hall. unfold bittorrent.CountSet.
  rewrite <- (len_indices b Hl). f_equal.
  apply filter_all. apply Forall_forall. intros i Hi.
  apply Hall. by apply elem_of_indices.
Qed.

(** ** Download accounting *)

Section DownloadRemaining.
Context {FS : Type} `{!storage.InfohashHex, !storage.Driver FS}.

Lemma Bitfield_meta (t t1 : storage.fsTorrent) (fs fs1 : FS) ob :
  storage.Bitfield_ t fs = (t1, fs1, ob) -> storage.meta t1 = storage.meta t.
Proof.
  unfold storage.Bitfield_. destruct (storage.bf t); intros [= <- <- <-]; reflexivity.
Qed.

(** C10.  [DownloadRemaining] is [TotalSize - CountSet * PieceLength]
    modulo 2^64.  With every piece present and a last piece shorter
    than the others, the product exceeds the total and the result is
    2^64 minus the excess, not 0. *)
Theorem C10_download_remaining_wraps (t t1 : storage.fsTorrent) (fs fs1 : FS)
    (b : bittorrent.Bitfield) :
  storage.Bitfield_ t fs = (t1, fs1, Some b) ->
  let tf := storage.meta t in
  let pl := metainfo.PieceLength (metainfo.tf_Info tf) in
  let n := metainfo.NumPieces (metainfo.tf_Info tf) in
  storage.DownloadRemaining t fs
    = Ret ((metainfo.TotalSize tf - bittorrent.CountSet b * pl) mod 2 ^ 64, t1, fs1)
  /\ (pieces_cover_content tf ->
      bittorrent.bf_Length b = n ->
      (forall i, 0 <= i < n -> bittorrent.Has b i = true) ->
      metainfo.LengthOfPiece tf (n - 1) < pl ->
      metainfo.TotalSize tf < bittorrent.CountSet b * pl
      /\ storage.DownloadRemaining t fs
         = Ret (2 ^ 64 - (n * pl - metainfo.TotalSize tf), t1, fs1)
      /\ 2 ^ 64 - (n * pl - metainfo.TotalSize tf) <> 0).
Proof.
  intros Hbf tf pl n.
  assert (Hrun : storage.DownloadRemaining t fs
    = Ret ((metainfo.TotalSize tf - bittorrent.CountSet b * pl) mod 2 ^ 64, t1, fs1)).
  { unfold storage.DownloadRemaining. rewrite Hbf.
    rewrite (Bitfield_meta _ _ _ _ _ Hbf). fold tf pl.
    f_equal. f_equal. f_equal. unfold u64.
    rewrite <- Z.mul_mod by lia.
    rewrite Zminus_mod_idemp_r. reflexivity. }
  split; [exact Hrun|].
  intros Hwf Hlen Hall Hshort.
  pose proof (LengthOfPiece_last tf Hwf) as Hlast. cbv zeta in Hlast.
  fold n pl in Hlast.
  destruct Hwf as (Hn1 & Hpl & Hlo & Hhi). fold n pl in Hn1, Hpl, Hlo, Hhi.
  pose proof (NumPieces_range (metainfo.tf_Info tf)) as Hn. fold n in Hn.
  unfold is_u32 in Hpl.
  assert (Hc : bittorrent.CountSet b = n).
  { rewrite CountSet_all; [done|lia|]. intros i Hi. apply Hall. lia. }
  rewrite Hc in *.
  assert (n * pl < 2 ^ 64) by nia.
  split; [lia|]. split; [|lia].
  rewrite Hrun. f_equal. f_equal. f_equal.
  symmetry. apply Z.mod_unique with (-1); lia.
Qed.
End DownloadRemaining.

(** Forty bytes, three pieces of sixteen, all present: 2^64 - 8 remain. *)
Lemma C10_download_remaining_wraps_witness :
  let tf := metainfo.mkTorrentFile
    (metainfo.mkInfo 16 (replicate 60 x00) "d"
       [metainfo.mkFileInfo 30 ["a"] []; metainfo.mkFileInfo 10 ["b"] []]
       None 0 [] None) "" [] in
  let b := bittorrent.mkBitfield 3 [xe0] in
  let t := storage.mkFsTorrent (storage.mkFsStorage "data" "meta")
             (metainfo.IhV1 []) tf (Some b) in
  let fs := memfs.mkMemFS ∅ ∅ in
  storage.DownloadRemaining t fs = Ret ((40 - 3 * 16) mod 2 ^ 64, t, fs)
  /\ (40 < 3 * 16
      /\ storage.DownloadRemaining t fs = Ret (2 ^ 64 - (3 * 16 - 40), t, fs)
      /\ 2 ^ 64 - (3 * 16 - 40) <> 0).
Proof.
  intros tf b t fs.
  destruct (C10_download_remaining_wraps t t fs fs b eq_refl) as [H1 H2].
  split; [exact H1|]. apply H2.
  - unfold pieces_cover_content, is_u32. vm_compute. repeat split; congruence.
  - reflexivity.
  - intros i Hi.
    change (0 <= i < 3) in Hi.
    assert (i = 0 \/ i = 1 \/ i = 2) as [->|[->| ->]] by lia;
      reflexivity.
  - vm_compute. reflexivity.
Defined.

(** ** Bits of a bitfield *)

Lemma bit_mask_pow2 (i : Z) : bittorrent.bit_mask i = 2 ^ (7 - i mod 8).
Proof.
  unfold bittorrent.bit_mask. rewrite Z.shiftl_1_l. reflexivity.
Qed.

Lemma bit_index_range (i : Z) : 0 <= 7 - i mod 8 < 8.
Proof. pose proof (Z.mod_pos_bound i 8). lia. Qed.

Lemma land_pow2_eqb (y k : Z) :
  0 <= k -> (Z.land y (2 ^ k) =? 0) = negb (Z.testbit y k).
Proof.
  intros Hk. destruct (Z.testbit y k) eqn:Hb; simpl.
  - apply Z.eqb_neq. intros Hz.
    assert (Z.testbit (Z.land y (2 ^ k)) k = true)
      by (rewrite Z.land_spec, Hb, Z.pow2_bits_true by lia; reflexivity).
    rewrite Hz, Z.bits_0 in H. done.
  - apply Z.eqb_eq. apply Z.bits_inj'. intros n Hn.
    rewrite Z.land_spec, Z.bits_0, Z.pow2_bits_eqb by lia.
    destruct (Z.eqb_spec k n) as [->|]; [by rewrite Hb|by rewrite andb_false_r].
Qed.

Lemma Has_unfold (b : bittorrent.Bitfield) (i : Z) :
  bittorrent.Has b i =
  (0 <=? i) && (i <? bittorrent.bf_Length b) &&
  match bittorrent.bf_Data b !! Z.to_nat (i / 8) with
  | Some x => byte_bit x i
  | None => false
  end.
Proof.
  unfold bittorrent.Has, byte_bit. f_equal.
  destruct (bittorrent.bf_Data b !! Z.to_nat (i / 8)); [|done].
  pose proof (bit_index_range i).
  rewrite bit_mask_pow2, land_pow2_eqb by lia. apply negb_involutive.
Qed.

Lemma byte_bit_set (x : byte) (i j : Z) :
  byte_bit (byte_of_Z (Z.lor (Z_of_byte x) (bittorrent.bit_mask i))) j
  = byte_bit x j || bool_decide (i mod 8 = j mod 8).
Proof.
  unfold byte_bit. rewrite Z_of_byte_of_Z, bit_mask_pow2.
  pose proof (bit_index_range i). pose proof (bit_index_range j).
  change 256 with (2 ^ 8). rewrite Z.mod_pow2_bits_low by lia.
  rewrite Z.lor_spec, Z.pow2_bits_eqb by lia. f_equal.
  destruct (Z.eqb_spec (7 - i mod 8) (7 - j mod 8)); case_bool_decide; try done; lia.
Qed.

Lemma lookup_in_bitfield (b : bittorrent.Bitfield) (i : Z) :
  Bitfield_wf b -> 0 <= i < bittorrent.bf_Length b ->
  is_Some (bittorrent.bf_Data b !! Z.to_nat (i / 8)).
Proof.
  intros [Hl Hd] Hi. apply lookup_lt_is_Some.
  assert (i / 8 < (bittorrent.bf_Length b + 7) / 8).
  { apply Z.div_lt_upper_bound; [lia|].
    pose proof (Z.mul_div_le (bittorrent.bf_Length b + 7) 8).
    pose proof (Z.mod_pos_bound (bittorrent.bf_Length b + 7) 8).
    pose proof (Z.div_mod (bittorrent.bf_Length b + 7) 8). lia. }
  assert (0 <= i / 8) by (apply Z.div_pos; lia).
  unfold len in Hd. lia.
Qed.

Lemma Set_Length (b : bittorrent.Bitfield) (i : Z) :
  bittorrent.bf_Length (bittorrent.Set_ b i) = bittorrent.bf_Length b.
Proof.
  unfold bittorrent.Set_.
  destruct ((0 <=? i) && (i <? bittorrent.bf_Length b)); [|done].
  by destruct (bittorrent.bf_Data b !! Z.to_nat (i / 8)).
Qed.

Lemma Set_wf (b : bittorrent.Bitfield) (i : Z) :
  Bitfield_wf b -> Bitfield_wf (bittorrent.Set_ b i).
Proof.
  intros [Hl Hd]. split; [by rewrite Set_Length|]. rewrite Set_Length.
  unfold bittorrent.Set_.
  destruct ((0 <=? i) && (i <? bittorrent.bf_Length b)); [|done].
  destruct (bittorrent.bf_Data b !! Z.to_nat (i / 8)); [|done].
  simpl. unfold len in *. by rewrite length_insert.
Qed.

(** Setting a bit of a well-formed bitfield sets that bit and no other. *)
Lemma Has_Set (b : bittorrent.Bitfield) (i j : Z) :
  Bitfield_wf b -> 0 <= i < bittorrent.bf_Length b ->
  bittorrent.Has (bittorrent.Set_ b i) j = bittorrent.Has b j || bool_decide (i = j).
Proof.
  intros Hwf Hi.
  destruct (lookup_in_bitfield b i Hwf Hi) as [x Hx].
  rewrite !Has_unfold, Set_Length. unfold bittorrent.Set_.
  destruct (Z.leb_spec 0 i); [|lia]. destruct (Z.ltb_spec i (bittorrent.bf_Length b)); [|lia].
  simpl. rewrite Hx. simpl.
  destruct (Z.leb_spec 0 j); simpl; [|case_bool_decide; [lia|done]].
  destruct (Z.ltb_spec j (bittorrent.bf_Length b)); simpl;
    [|case_bool_decide; [lia|done]].
  destruct (decide (Z.to_nat (i / 8) = Z.to_nat (j / 8))) as [Heq|Hne].
  - rewrite <- Heq, list_lookup_insert_eq by (by eapply lookup_lt_Some).
    rewrite Hx, byte_bit_set. f_equal.
    assert (i / 8 = j / 8).
    { assert (0 <= i / 8) by (apply Z.div_pos; lia).
      assert (0 <= j / 8) by (apply Z.div_pos; lia). lia. }
    pose proof (Z.div_mod i 8). pose proof (Z.div_mod j 8).
    repeat case_bool_decide; try done; lia.
  - rewrite list_lookup_insert_ne by done.
    case_bool_decide as Hij; [by subst|]. by rewrite orb_false_r.
Qed.

Lemma NewBitfield_wf (n : Z) : 0 <= n -> Bitfield_wf (bittorrent.NewBitfield n).
Proof.
  intros Hn. split; [done|]. unfold bittorrent.NewBitfield, len. simpl.
  rewrite length_replicate.
  assert (0 <= (n + 7) / 8) by (apply Z.div_pos; lia). lia.
Qed.

Lemma Has_NewBitfield (n i : Z) : bittorrent.Has (bittorrent.NewBitfield n) i = false.
Proof.
  rewrite Has_unfold. unfold bittorrent.NewBitfield. simpl.
  destruct (replicate _ _ !! _) as [x|] eqn:Hx; [|by rewrite andb_false_r].
  apply lookup_replicate in Hx as [-> _].
  unfold byte_bit. change (Z_of_byte x00) with 0. rewrite Z.bits_0.
  by rewrite andb_false_r.
Qed.

Lemma Has_in_range (b : bittorrent.Bitfield) (i : Z) :
  bittorrent.Has b i = true -> 0 <= i < bittorrent.bf_Length b.
Proof.
  unfold bittorrent.Has. intros H.
  apply andb_prop in H as [H _]. apply andb_prop in H as [H1 H2].
  apply Z.leb_le in H1. apply Z.ltb_lt in H2. lia.
Qed.

(** ** Rarest-first selection *)

Section FindRarest.
Variables (bf : bittorrent.Bitfield) (others : list bittorrent.Bitfield).
Variable exclude : Z -> bool.

Local Abbreviation wanted := (wanted bf exclude).
Local Abbreviation count := (bittorrent.availability others).
Local Abbreviation scanned := (scanned bf others exclude).

Lemma rarest_step_scanned (k : nat) (best : option (Z * Z)) :
  scanned k best ->
  scanned (S k) (bittorrent.rarest_step bf others exclude best (Z.of_nat k)).
Proof.
  intros Hs. unfold bittorrent.rarest_step.
  destruct (bittorrent.Has bf (Z.of_nat k) && negb (exclude (Z.of_nat k))) eqn:Hw.
  - apply andb_prop in Hw as [Hh He]. apply negb_true_iff in He.
    assert (Hwk : wanted (Z.of_nat k)) by done.
    destruct best as [[i c]|]; simpl in *.
    + destruct Hs as (Hi & Hwi & -> & Hmin).
      destruct (Z.ltb_spec (count (Z.of_nat k)) (count i)) as [Hlt|Hge]; simpl.
      * split; [lia|]. split; [done|]. split; [done|]. intros j Hj Hwj.
        destruct (decide (j = Z.of_nat k)) as [->|]; [right; lia|].
        destruct (Hmin j ltac:(lia) Hwj); lia.
      * split; [lia|]. split; [done|]. split; [done|]. intros j Hj Hwj.
        destruct (decide (j = Z.of_nat k)) as [->|]; [lia|].
        apply Hmin; [lia|done].
    + split; [lia|]. split; [done|]. split; [done|]. intros j Hj Hwj.
      destruct (decide (j = Z.of_nat k)) as [->|]; [right; lia|].
      exfalso. apply (Hs j); [lia|done].
  - assert (Hnw : ~ wanted (Z.of_nat k)).
    { intros [Hh He]. rewrite Hh, He in Hw. done. }
    destruct best as [[i c]|]; simpl in *.
    + destruct Hs as (Hi & Hwi & -> & Hmin).
      split; [lia|]. split; [done|]. split; [done|]. intros j Hj Hwj.
      destruct (decide (j = Z.of_nat k)) as [->|]; [done|].
      apply Hmin; [lia|done].
    + intros j Hj Hwj.
      destruct (decide (j = Z.of_nat k)) as [->|]; [done|].
      apply (Hs j); [lia|done].
Qed.

Lemma scan_scanned (k : nat) :
  scanned k
    (fold_left (bittorrent.rarest_step bf others exclude)
       (map Z.of_nat (seq 0 k)) None).
Proof.
  induction k as [|k IH]; [intros j Hj; simpl in Hj; lia|].
  rewrite seq_S, map_app, fold_left_app. simpl.
  by apply rarest_step_scanned.
Qed.

(** [FindRarest] returns a wanted piece of least availability, the
    lowest such index, and nothing only if nothing is wanted. *)
Lemma FindRarest_spec :
  match bittorrent.FindRarest bf others exclude with
  | Some i =>
      wanted i /\
      forall j, wanted j -> count i < count j \/ (count i = count j /\ i <= j)
  | None => forall j, ~ wanted j
  end.
Proof.
  unfold bittorrent.FindRarest, bittorrent.indices.
  pose proof (scan_scanned (Z.to_nat (bittorrent.bf_Length bf))) as Hs.
  destruct (fold_left _ _ None) as [[i c]|]; simpl in *.
  - destruct Hs as (Hi & Hwi & -> & Hmin). split; [done|].
    intros j Hwj. apply Hmin; [|done].
    destruct Hwj as [Hh _]. apply Has_in_range in Hh. lia.
  - intros j Hwj. apply (Hs j); [|done].
    destruct Hwj as [Hh _]. apply Has_in_range in Hh. lia.
Qed.
End FindRarest.

Lemma exclude_map_lookup (exclude : list Z) (m0 : gmap Z bool) (i : Z) :
  default false ((fold_left (fun m x => <[x := true]> m) exclude m0) !! i) = true
  <-> i ∈ exclude \/ default false (m0 !! i) = true.
Proof.
  revert m0. induction exclude as [|x l IH]; intros m0; simpl.
  - rewrite elem_of_nil. tauto.
  - rewrite IH, elem_of_cons.
    destruct (decide (x = i)) as [->|Hne].
    + rewrite lookup_insert_eq. simpl. tauto.
    + rewrite lookup_insert_ne by done.
      split; [intros [?|?]; auto|intros [[?|?]|?]; auto].
Qed.

(** C4.  The piece [getRarestPiece] returns is announced by the remote
    peer, missing locally and not excluded; no other such piece is
    announced by fewer peers, and none of equal count has a lower index.
    Without such a piece nothing is returned. *)
Theorem C4_rarest_piece (t : swarm.Torrent) (bt remote : bittorrent.Bitfield)
    (exclude : list Z) :
  match swarm.getRarestPiece t bt remote exclude with
  | Some i =>
      bittorrent.Has remote i = true
      /\ bittorrent.Has bt i = false
      /\ (i ∉ exclude)
      /\ forall j, candidate bt remote exclude j ->
           swarm_count t i < swarm_count t j
           \/ (swarm_count t i = swarm_count t j /\ i <= j)
  | None => forall j, ~ candidate bt remote exclude j
  end.
Proof.
  unfold swarm.getRarestPiece.
  set (ex := fun idx : Z => bittorrent.Has bt idx || default false (_ !! idx)).
  assert (Hex : forall j, ex j = false <-> bittorrent.Has bt j = false /\ j ∉ exclude).
  { intros j. unfold ex. rewrite orb_false_iff.
    pose proof (exclude_map_lookup exclude ∅ j) as Hm.
    rewrite lookup_empty in Hm. simpl in Hm.
    destruct (default false _) eqn:Hd.
    - split; [intros [_ ?]; done|]. intros [_ Hn]. exfalso. apply Hn.
      destruct (proj1 Hm eq_refl); done.
    - split; [intros [? _]|intros [? _]; done]. split; [done|].
      intros Hin. assert (false = true) by (apply Hm; auto). done. }
  pose proof (FindRarest_spec remote (omap swarm.c_bf (swarm.VisitPeers t)) ex) as Hs.
  destruct (bittorrent.FindRarest _ _ _) as [i|].
  - destruct Hs as [[Hr He] Hmin]. apply Hex in He as [Hl Hn].
    repeat (split; [done|]).
    intros j (Hjr & Hjl & Hjn). apply Hmin. split; [done|]. by apply Hex.
  - intros j (Hjr & Hjl & Hjn). apply (Hs j). split; [done|]. by apply Hex.
Qed.

(** ** Checking and storing a piece *)

Section PutPiece.
Context {FS : Type} `{!Sha1, !metainfo.PathLib, !storage.Driver FS}.

Lemma CheckPiece_spec (i : metainfo.Info) (pc : common.PieceData) :
  len (metainfo.Pieces i) < 2 ^ 32 ->
  0 <= common.pc_Index pc ->
  metainfo.CheckPiece i pc = Ret (bool_decide (hash_matches i pc)).
Proof.
  intros Hsmall Hidx. unfold metainfo.CheckPiece, hash_matches.
  pose proof (len_nonneg (metainfo.Pieces i)) as Hl0.
  assert (Hnp : metainfo.NumPieces i = len (metainfo.Pieces i) / 20).
  { unfold metainfo.NumPieces, u32. apply Z.mod_small.
    split; [apply Z.div_pos; lia|].
    apply Z.div_lt_upper_bound; lia. }
  destruct (Z.ltb_spec (common.pc_Index pc) (metainfo.NumPieces i)) as [Hlt|Hge].
  - rewrite Hnp in Hlt.
    assert (Hend : 20 * common.pc_Index pc + 20 <= len (metainfo.Pieces i)).
    { pose proof (Z.mul_div_le (len (metainfo.Pieces i)) 20). lia. }
    assert (Hi : u32 (common.pc_Index pc * 20) = 20 * common.pc_Index pc)
      by (unfold u32; rewrite Z.mod_small; lia).
    rewrite Hi.
    assert (Hj : u32 (20 * common.pc_Index pc + 20) = 20 * common.pc_Index pc + 20)
      by (unfold u32; rewrite Z.mod_small; lia).
    rewrite Hj. unfold slice.
    destruct (Z.leb_spec 0 (20 * common.pc_Index pc)); [|lia].
    destruct (Z.leb_spec (20 * common.pc_Index pc) (20 * common.pc_Index pc + 20)); [|lia].
    destruct (Z.leb_spec (20 * common.pc_Index pc + 20) (len (metainfo.Pieces i))); [|lia].
    simpl. f_equal.
    replace (20 * common.pc_Index pc + 20 - 20 * common.pc_Index pc) with 20 by lia.
    unfold manifest_hash.
    change (Z.to_nat 20) with 20%nat.
    apply bool_decide_ext. rewrite Hnp. split; [intros ->; done|intros [_ ?]; done].
  - f_equal. symmetry. apply bool_decide_eq_false. intros [? _]. lia.
Qed.

End PutPiece.


(** ** Reading always ends *)

Lemma slice_Ret {A} (b : list A) (lo hi : Z) (r : list A) :
  slice b lo hi = Ret r ->
  0 <= lo <= hi /\ hi <= len b
  /\ r = take (Z.to_nat (hi - lo)) (drop (Z.to_nat lo) b).
Proof.
  unfold slice.
  destruct (Z.leb_spec 0 lo); [|done].
  destruct (Z.leb_spec lo hi); [|done].
  destruct (Z.leb_spec hi (len b)); [|done].
  simpl. intros [= <-]. repeat split; lia.
Qed.

Lemma slice_from_Ret {A} (b : list A) (lo : Z) (r : list A) :
  slice_from b lo = Ret r ->
  0 <= lo <= len b /\ r = drop (Z.to_nat lo) b.
Proof.
  intros H. apply slice_Ret in H as (? & ? & ->). split; [lia|].
  apply take_ge. unfold len in *. rewrite length_drop. lia.
Qed.

Lemma slice_to_Ret {A} (b : list A) (hi : Z) (r : list A) :
  slice_to b hi = Ret r ->
  0 <= hi <= len b /\ r = take (Z.to_nat hi) b.
Proof.
  intros H. apply slice_Ret in H as (? & ? & ->). split; [lia|].
  by rewrite Z.sub_0_r.
Qed.

Lemma slice_not_NoFuel {A} (b : list A) (lo hi : Z) : slice b lo hi <> NoFuel.
Proof. unfold slice. by destruct (_ && _). Qed.

Section Reading.
Context {FS : Type} `{!metainfo.PathLib, !storage.Driver FS}.

Lemma readFileAt_loop_ends fuel (fs : FS) fname opened fil b off out err :
  (length b <= fuel)%nat ->
  storage.readFileAt_loop fuel fs fname opened fil b off out err <> NoFuel.
Proof.
  revert b off out. induction fuel as [|fuel IH]; intros b off out Hb.
  - simpl. destruct b; [|simpl in Hb; lia].
    by rewrite andb_false_r.
  - simpl. destruct ((off <? fil) && negb (len b =? 0)); [|done].
    destruct opened; [|done].
    destruct (storage.File_ReadAt fs fname (length b) off) as [data err1].
    destruct (slice_from b (len data)) as [b'| |] eqn:Hs; simpl; try done.
    + destruct (Z.eqb_spec (len data) 0); [done|].
      apply IH. apply slice_from_Ret in Hs as [Hr ->].
      rewrite length_drop. unfold len in *. lia.
    + by apply slice_not_NoFuel in Hs.
Qed.

Lemma readFileAt_ends (t : storage.fsTorrent) (fs : FS) fi b off :
  storage.readFileAt t fs fi b off <> NoFuel.
Proof.
  unfold storage.readFileAt. simpl.
  destruct (i64 (i64 (metainfo.fi_Length fi) - off) <? len b).
  - destruct (slice_to b _) as [b1| |] eqn:Hs; simpl; try done.
    + by apply readFileAt_loop_ends.
    + by apply slice_not_NoFuel in Hs.
  - simpl. by apply readFileAt_loop_ends.
Qed.

Lemma ReadAt_file_ends fuel (t : storage.fsTorrent) (fs : FS) fi b off out :
  (length b < fuel)%nat ->
  storage.ReadAt_file fuel t fs fi b off out <> NoFuel.
Proof.
  revert b off out. induction fuel as [|fuel IH]; intros b off out Hb; [lia|].
  simpl. destruct (off <? i64 (metainfo.fi_Length fi)); [|done].
  pose proof (readFileAt_ends t fs fi b off) as Hr.
  destruct (storage.readFileAt t fs fi b off) as [[data err1]| |]; simpl; try done.
  destruct (slice_from b (len data)) as [b'| |] eqn:Hs; simpl; try done.
  - destruct (len b' =? 0); [done|].
    destruct (Z.eqb_spec (len data) 0); simpl; [done|].
    apply IH. apply slice_from_Ret in Hs as [Hr' ->].
    rewrite length_drop. unfold len in *. lia.
  - by apply slice_not_NoFuel in Hs.
Qed.

Lemma ReadAt_files_cons (t : storage.fsTorrent) (fs : FS) fi rest b off out :
  storage.ReadAt_files t fs (fi :: rest) b off out =
  do r <- storage.ReadAt_file (S (length b)) t fs fi b off out;
  match r with
  | storage.Returned out' err => Ret (out', err)
  | storage.NextFile b' off' out' =>
      storage.ReadAt_files t fs rest b'
        (i64 (off' - i64 (metainfo.fi_Length fi))) out'
  end.
Proof. reflexivity. Qed.

Lemma ReadAt_files_ends (t : storage.fsTorrent) (fs : FS) files b off out :
  storage.ReadAt_files t fs files b off out <> NoFuel.
Proof.
  revert b off out. induction files as [|fi rest IH]; intros b off out; [done|].
  rewrite ReadAt_files_cons.
  pose proof (ReadAt_file_ends (S (length b)) t fs fi b off out ltac:(lia)) as Hr.
  destruct (storage.ReadAt_file _ t fs fi b off out) as [[o e|b' off' out']| |];
    simpl; try done; apply IH.
Qed.

Lemma ReadAt_ends (t : storage.fsTorrent) (fs : FS) b off :
  storage.ReadAt t fs b off <> NoFuel.
Proof.
  unfold storage.ReadAt.
  pose proof (ReadAt_files_ends t fs
    (metainfo.GetFiles (metainfo.tf_Info (storage.meta t))) b off []) as Hr.
  by destruct (storage.ReadAt_files _ _ _ _ _ _) as [[o e]| |].
Qed.
End Reading.

(** ** Verifying the stored bitfield *)

Section Verify.
Context {FS : Type}
  `{!Sha1, !metainfo.PathLib, !storage.InfohashHex, !storage.Driver FS}.
Variables (t : storage.fsTorrent) (fs : FS).

Local Abbreviation info := (metainfo.tf_Info (storage.meta t)).
Local Abbreviation np := (metainfo.NumPieces (metainfo.tf_Info (storage.meta t))).

Lemma checkPiece_ends (pc : common.PieceData) : storage.checkPiece t pc <> NoFuel.
Proof.
  unfold storage.checkPiece, metainfo.CheckPiece.
  destruct (_ <? _); [|done].
  destruct (slice _ _ _) eqn:Hs; simpl; try done.
  by apply slice_not_NoFuel in Hs.
Qed.

Lemma VerifyPiece_ends (idx : Z) : storage.VerifyPiece t fs idx <> NoFuel.
Proof.
  unfold storage.VerifyPiece, storage.VisitPiece.
  pose proof (ReadAt_ends t fs
    (replicate (Z.to_nat (common.req_Length
       (common.mkPieceRequest idx 0 (metainfo.LengthOfPiece (storage.meta t) idx)))) x00)
    (i64 (common.req_Begin (common.mkPieceRequest idx 0
            (metainfo.LengthOfPiece (storage.meta t) idx))
          + i64 (metainfo.PieceLength info
                 * common.req_Index (common.mkPieceRequest idx 0
                     (metainfo.LengthOfPiece (storage.meta t) idx)))))) as Hr.
  destruct (storage.ReadAt _ _ _ _) as [[[n [e|]] data]| |]; simpl; try done.
  pose proof (checkPiece_ends (common.mkPieceData idx 0 data)) as Hc.
  simpl in *.
  by destruct (storage.checkPiece t {| common.pc_Index := idx |}) as [[?|]| |].
Qed.

(** The visitor of [verifyBitfield] sets the bit exactly when
    [VerifyPiece] accepts the piece. *)
Lemma visit_as_VerifyPiece (idx : Z) (has : bittorrent.Bitfield) :
  storage.VisitPiece t fs
    (common.mkPieceRequest idx 0 (metainfo.LengthOfPiece (storage.meta t) idx))
    (fun pc (h : bittorrent.Bitfield) =>
       do e <- storage.checkPiece t pc;
       match e with
       | None => Ret (bittorrent.Set_ h idx, e)
       | Some _ => Ret (h, e)
       end) has
  = match storage.VerifyPiece t fs idx with
    | Ret None => Ret (bittorrent.Set_ has idx, None)
    | Ret (Some e) => Ret (has, Some e)
    | Panic => Panic
    | NoFuel => NoFuel
    end.
Proof.
  unfold storage.VerifyPiece, storage.VisitPiece.
  destruct (storage.ReadAt _ _ _ _) as [[[n [e|]] data]| |]; simpl; try done.
  by destruct (storage.checkPiece t _) as [[?|]| |].
Qed.

Lemma verifyBitfield_loop_spec (chk : bittorrent.Bitfield) (fuel : nat)
    (idx : Z) (has : bittorrent.Bitfield) (err : option error) :
  0 <= idx <= np ->
  (Z.to_nat (np - idx) <= fuel)%nat ->
  Bitfield_wf has -> bittorrent.bf_Length has = np ->
  match storage.verifyBitfield_loop fuel t fs chk np idx has err with
  | Ret (has', _) =>
      Bitfield_wf has' /\ bittorrent.bf_Length has' = np
      /\ forall j, bittorrent.Has has' j =
           bittorrent.Has has j
           || ((idx <=? j) && (j <? np) && bittorrent.Has chk j && piece_ok t fs j)
  | Panic =>
      exists j, idx <= j < np /\ bittorrent.Has chk j = true
                /\ storage.VerifyPiece t fs j = Panic
  | NoFuel => False
  end.
Proof.
  revert idx has err.
  induction fuel as [|fuel IH]; intros idx has err Hidx Hfuel Hwf Hlen.
  - simpl. destruct (Z.ltb_spec idx np); [lia|].
    split; [done|]. split; [done|]. intros j.
    destruct (Z.leb_spec idx j), (Z.ltb_spec j np); simpl;
      try lia; by rewrite orb_false_r.
  - simpl. destruct (Z.ltb_spec idx np) as [Hlt|Hge].
    + pose proof (NumPieces_range info) as Hnp.
      assert (Hnext : u32 (idx + 1) = idx + 1)
        by (unfold u32; apply Z.mod_small; lia).
      rewrite Hnext.
      destruct (bittorrent.Has chk idx) eqn:Hchk.
      * rewrite visit_as_VerifyPiece.
        pose proof (VerifyPiece_ends idx) as Hends.
        assert (Hok : piece_ok t fs idx =
          match storage.VerifyPiece t fs idx with Ret None => true | _ => false end)
          by reflexivity.
        destruct (storage.VerifyPiece t fs idx) as [[e|]| |] eqn:Hv; simpl; try done.
        -- specialize (IH (idx + 1) has (Some e) ltac:(lia) ltac:(lia) Hwf Hlen).
           destruct (storage.verifyBitfield_loop _ _ _ _ _ _ _ _) as [[has' e']| |];
             try done.
           ++ destruct IH as (Hwf' & Hlen' & Hbits). split; [done|]. split; [done|].
              intros j. rewrite Hbits. f_equal.
              destruct (decide (j = idx)) as [->|Hne].
              ** rewrite Hok.
                 destruct (Z.leb_spec (idx + 1) idx); [lia|].
                 by rewrite !andb_false_r.
              ** destruct (Z.leb_spec (idx + 1) j), (Z.leb_spec idx j);
                   try lia; reflexivity.
           ++ destruct IH as (j & Hj & Hcj & Hpj). exists j. split; [lia|done].
        -- pose proof (Set_wf has idx Hwf) as Hwf1.
           pose proof (Set_Length has idx) as Hlen1.
           specialize (IH (idx + 1) (bittorrent.Set_ has idx) None
                         ltac:(lia) ltac:(lia) Hwf1 ltac:(congruence)).
           destruct (storage.verifyBitfield_loop _ _ _ _ _ _ _ _) as [[has' e']| |];
             try done.
           ++ destruct IH as (Hwf' & Hlen' & Hbits). split; [done|]. split; [done|].
              intros j. rewrite Hbits, Has_Set by (done || lia).
              rewrite <- orb_assoc. f_equal.
              destruct (decide (j = idx)) as [->|Hne].
              ** rewrite Hok, Hchk, bool_decide_true by done.
                 destruct (Z.leb_spec idx idx), (Z.ltb_spec idx np);
                   try lia; reflexivity.
              ** rewrite bool_decide_false by congruence. simpl.
                 destruct (Z.leb_spec (idx + 1) j), (Z.leb_spec idx j);
                   try lia; reflexivity.
           ++ destruct IH as (j & Hj & Hcj & Hpj). exists j. split; [lia|done].
        -- exists idx. split; [lia|done].
      * simpl.
        specialize (IH (idx + 1) has err ltac:(lia) ltac:(lia) Hwf Hlen).
        destruct (storage.verifyBitfield_loop _ _ _ _ _ _ _ _) as [[has' e']| |];
          try done.
        -- destruct IH as (Hwf' & Hlen' & Hbits). split; [done|]. split; [done|].
           intros j. rewrite Hbits. f_equal.
           destruct (decide (j = idx)) as [->|Hne].
           ++ rewrite Hchk.
              destruct (Z.leb_spec (idx + 1) idx); [lia|].
              by rewrite !andb_false_r.
           ++ destruct (Z.leb_spec (idx + 1) j), (Z.leb_spec idx j);
                try lia; reflexivity.
        -- destruct IH as (j & Hj & Hcj & Hpj). exists j. split; [lia|done].
    + split; [done|]. split; [done|]. intros j.
      destruct (Z.leb_spec idx j), (Z.ltb_spec j np); simpl;
        try lia; by rewrite orb_false_r.
Qed.

Lemma verifyBitfield_spec (chk : bittorrent.Bitfield) (warn : bool) :
  match storage.verifyBitfield t fs chk warn with
  | Ret (has, _) =>
      forall j, bittorrent.Has has j =
                (j <? np) && bittorrent.Has chk j && piece_ok t fs j
  | Panic =>
      exists j, 0 <= j < np /\ bittorrent.Has chk j = true
                /\ storage.VerifyPiece t fs j = Panic
  | NoFuel => False
  end.
Proof.
  unfold storage.verifyBitfield.
  pose proof (NumPieces_range info) as Hnp.
  pose proof (verifyBitfield_loop_spec chk (Z.to_nat np) 0
                (bittorrent.NewBitfield np) None
                ltac:(lia) ltac:(lia) (NewBitfield_wf np ltac:(lia)) eq_refl) as Hloop.
  destruct (storage.verifyBitfield_loop _ _ _ _ _ _ _ _) as [[has e]| |]; try done.
  destruct Hloop as (_ & _ & Hbits). intros j. rewrite Hbits, Has_NewBitfield. simpl.
  destruct (bittorrent.Has chk j) eqn:Hc; [|by rewrite !andb_false_r].
  apply Has_in_range in Hc as Hr.
  destruct (Z.leb_spec 0 j); [|lia]. reflexivity.
Qed.

(** [VerifyPiece] accepts a piece exactly when its bytes can be read
    from disk and hash to the manifest's digest. *)
Lemma piece_ok_iff (idx : Z) :
  len (metainfo.Pieces info) < 2 ^ 32 -> 0 <= idx ->
  piece_ok t fs idx = true <->
  exists data, piece_on_disk t fs idx data
               /\ hash_matches info (common.mkPieceData idx 0 data).
Proof.
  intros Hsmall Hidx.
  unfold piece_ok, piece_on_disk, storage.VerifyPiece, storage.VisitPiece,
    storage.checkPiece. simpl.
  destruct (storage.ReadAt _ _ _ _) as [[[n [e|]] data]| |]; simpl.
  - split; [done|]. intros (d & (m & [=]) & _).
  - rewrite CheckPiece_spec by done. simpl.
    case_bool_decide as Hm; simpl.
    + split; [|done]. intros _. exists data. split; [by exists n|done].
    + split; [done|]. intros (d & (m & [= <- <-]) & Hd). done.
  - split; [done|]. intros (d & (m & [=]) & _).
  - split; [done|]. intros (d & (m & [=]) & _).
Qed.

(** C5.  With a stored bitfield and [fresh = false], [VerifyAll] leaves
    a bitfield whose bit [i] is set exactly when the stored bitfield
    claimed piece [i] and the bytes of piece [i] on disk hash to the
    manifest's digest.  No bit is added; a piece the stored bitfield did
    not claim is never read, so only a claimed piece can make the check
    panic. *)
Theorem C5_verify_all (check : bittorrent.Bitfield) :
  storage.FindBitfield (storage.st t) fs (storage.ih t) = Some check ->
  match storage.VerifyAll t fs false with
  | Ret (t', _, _) =>
      exists has, storage.bf t' = Some has
        /\ (forall i, bittorrent.Has has i = true <->
              bittorrent.Has check i = true /\ i < np /\ piece_ok t fs i = true)
        /\ (len (metainfo.Pieces info) < 2 ^ 32 ->
            forall i, bittorrent.Has has i = true <->
              bittorrent.Has check i = true
              /\ exists data, piece_on_disk t fs i data
                   /\ hash_matches info (common.mkPieceData i 0 data))
  | Panic =>
      exists i, 0 <= i < np /\ bittorrent.Has check i = true
                /\ storage.VerifyPiece t fs i = Panic
  | NoFuel => False
  end.
Proof.
  intros Hfind. unfold storage.VerifyAll. rewrite Hfind.
  pose proof (verifyBitfield_spec check true) as Hv.
  destruct (storage.verifyBitfield t fs check true) as [[has e]| |]; simpl; try done.
  assert (Hbits : forall i, bittorrent.Has has i = true <->
            bittorrent.Has check i = true /\ i < np /\ piece_ok t fs i = true).
  { intros i. rewrite Hv, !andb_true_iff, Z.ltb_lt. tauto. }
  assert (Hsha : len (metainfo.Pieces info) < 2 ^ 32 ->
            forall i, bittorrent.Has has i = true <->
              bittorrent.Has check i = true
              /\ exists data, piece_on_disk t fs i data
                   /\ hash_matches info (common.mkPieceData i 0 data)).
  { intros Hsmall i. rewrite Hbits. split.
    - intros (Hc & Hi & Hok). split; [done|].
      apply piece_ok_iff; [done| |done]. apply Has_in_range in Hc. lia.
    - intros (Hc & Hd). split; [done|].
      assert (0 <= i) by (apply Has_in_range in Hc; lia).
      split; [|by apply piece_ok_iff].
      destruct Hd as (d & _ & Hlt & _). exact Hlt. }
  destruct e as [e|].
  - exists has. done.
  - unfold storage.Flush, storage.Bitfield_, storage.flushBitfield. simpl.
    destruct (storage.OpenFileWriteOnly _ _) as [fs1 [e|]]; simpl.
    + exists has. done.
    + destruct (storage.Bitfield_BEncode _ _ _) as [fs2 err]. simpl.
      exists has. done.
Qed.
End Verify.

(** Two claimed pieces, the second one damaged on disk: the first bit
    stays, the second is cleared. *)
Lemma C5_verify_all_witness :
  let tf := metainfo.mkTorrentFile
    (metainfo.mkInfo 2
       (example.checksum [x01; x02] ++ example.checksum [x03; x04])
       "f" [] None 4 [] None) "" [] in
  let check := bittorrent.mkBitfield 2 [xc0] in
  let t := storage.mkFsTorrent (storage.mkFsStorage "data" "meta")
             (metainfo.IhV1 []) tf None in
  let fs := memfs.mkMemFS {[ "data/f" := [x01; x02; x09; x09] ]}
                          {[ "meta/00.bitfield" := check ]} in
  storage.VerifyAll t fs false
    = Ret (storage.with_bf t (Some (bittorrent.mkBitfield 2 [x80])), fs,
           Some ErrInvalidPiece)
  /\ match storage.VerifyAll t fs false with
     | Ret (t', _, _) =>
         exists has, storage.bf t' = Some has
           /\ (forall i, bittorrent.Has has i = true <->
                 bittorrent.Has check i = true
                 /\ i < metainfo.NumPieces (metainfo.tf_Info tf)
                 /\ piece_ok t fs i = true)
           /\ (len (metainfo.Pieces (metainfo.tf_Info tf)) < 2 ^ 32 ->
               forall i, bittorrent.Has has i = true <->
                 bittorrent.Has check i = true
                 /\ exists data, piece_on_disk t fs i data
                      /\ hash_matches (metainfo.tf_Info tf)
                           (common.mkPieceData i 0 data))
     | Panic =>
         exists i, 0 <= i < metainfo.NumPieces (metainfo.tf_Info tf)
                   /\ bittorrent.Has check i = true
                   /\ storage.VerifyPiece t fs i = Panic
     | NoFuel => False
     end.
Proof.
  intros tf check t fs. split; [vm_compute; reflexivity|].
  apply (C5_verify_all t fs check). vm_compute. reflexivity.
Defined.

(** ** Reading and writing the in-memory layout *)

Lemma i64_small (x : Z) : - 2 ^ 63 <= x < 2 ^ 63 -> i64 x = x.
Proof. intros H. unfold i64. rewrite Z.mod_small; lia. Qed.

Lemma len_take {A} (l : list A) (n : nat) :
  (n <= length l)%nat -> len (take n l) = Z.of_nat n.
Proof. intros H. unfold len. rewrite length_take. lia. Qed.

Lemma len_drop {A} (l : list A) (n : nat) :
  len (drop n l) = len l - Z.of_nat (n `min` length l).
Proof. unfold len. rewrite length_drop. lia. Qed.

Lemma len_zero_nil {A} (l : list A) : len l = 0 -> l = [].
Proof. destruct l; [done|]. unfold len. simpl. lia. Qed.

Section MemRead.
Context {paths : metainfo.PathLib}.
Variables (t : storage.fsTorrent) (fs : memfs.MemFS).

Lemma file_ready_spec (fi : metainfo.FileInfo) :
  file_ready t fs fi = true ->
  exists c, memfs.mem_files fs !! storage.fileName t fi = Some c
            /\ len c = metainfo.fi_Length fi.
Proof.
  unfold file_ready. destruct (memfs.mem_files fs !! _) as [c|]; [|done].
  intros H. apply Z.eqb_eq in H. by exists c.
Qed.

Lemma file_bytes_ready (fi : metainfo.FileInfo) (c : list byte) :
  memfs.mem_files fs !! storage.fileName t fi = Some c -> file_bytes t fs fi = c.
Proof. unfold file_bytes. by intros ->. Qed.

Lemma content_length_allocated (files : list metainfo.FileInfo) :
  allocated t fs files -> len (content t fs files) = content_length files.
Proof.
  unfold allocated, content. induction files as [|fi rest IH]; [done|].
  intros Hall. apply andb_prop in Hall as [Hfi Hrest].
  apply file_ready_spec in Hfi as (c & Hc & Hlen).
  change (len (file_bytes t fs fi ++ concat (file_bytes t fs <$> rest))
          = metainfo.fi_Length fi + content_length rest).
  rewrite len_app, (file_bytes_ready _ _ Hc), IH by done. lia.
Qed.

Lemma readFileAt_loop_nil fuel fname opened fil off out err :
  storage.readFileAt_loop fuel fs fname opened fil [] off out err = Ret (out, err).
Proof. destruct fuel; simpl; by rewrite andb_false_r. Qed.

Lemma readFileAt_mem (fi : metainfo.FileInfo) (c b : list byte) (off : Z) :
  memfs.mem_files fs !! storage.fileName t fi = Some c ->
  len c = metainfo.fi_Length fi ->
  len c < 2 ^ 63 -> len b < 2 ^ 63 ->
  0 <= off < len c ->
  storage.readFileAt t fs fi b off
  = Ret (take (length b) (drop (Z.to_nat off) c), None).
Proof.
  intros Hc Hlen Hc63 Hb63 Hoff.
  unfold storage.readFileAt, storage.openfileRead. simpl.
  unfold memfs.open_read, memfs.exists_. rewrite Hc. simpl.
  rewrite <- Hlen. rewrite (i64_small (len c)) by (unfold len in *; lia).
  rewrite (i64_small (len c - off)) by lia.
  (* the clipped buffer *)
  set (k := (length b `min` Z.to_nat (len c - off))%nat).
  assert (Hclip : (if len c - off <? len b
                   then slice_to b (len c - off) else Ret b)
                  = Ret (take k b)).
  { destruct (Z.ltb_spec (len c - off) (len b)).
    - unfold slice_to, slice.
      destruct (Z.leb_spec 0 (len c - off)); [|lia].
      destruct (Z.leb_spec (len c - off) (len b)); [|lia].
      simpl. rewrite Z.sub_0_r. f_equal. f_equal. unfold k, len in *. lia.
    - f_equal. symmetry. apply take_ge. unfold k, len in *. lia. }
  rewrite Hclip. simpl.
  assert (Hk : length (take k b) = k) by (rewrite length_take; unfold k; lia).
  rewrite Hk.
  assert (Hdata : take (length b) (drop (Z.to_nat off) c)
                  = take k (drop (Z.to_nat off) c)).
  { unfold k. rewrite <- (take_ge (drop _ c) (Z.to_nat (len c - off))) at 1
      by (rewrite length_drop; unfold len; lia).
    by rewrite take_take. }
  rewrite Hdata.
  destruct k as [|k'] eqn:Ek.
  { rewrite (nil_length_inv _ Hk). by rewrite readFileAt_loop_nil. }
  (* one read fills the clipped buffer *)
  simpl storage.readFileAt_loop.
  destruct (Z.ltb_spec off (len c)); [|lia].
  assert (len (take (S k') b) = Z.of_nat (S k')) as Hlk by (unfold len; lia).
  rewrite Hlk. destruct (Z.eqb_spec (Z.of_nat (S k')) 0); [lia|]. simpl.
  unfold memfs.read_at. rewrite Hc.
  destruct (Z.ltb_spec off 0); [lia|].
  unfold memfs.read_bytes. rewrite Hk.
  assert (Hfull : length (take (S k') (drop (Z.to_nat off) c)) = S k').
  { rewrite length_take, length_drop. unfold len in *. lia. }
  unfold len at 1. rewrite Hfull.
  unfold slice_from, slice. rewrite Hlk.
  destruct (Z.leb_spec 0 (Z.of_nat (S k'))); [|lia].
  destruct (Z.leb_spec (Z.of_nat (S k')) (Z.of_nat (S k'))); [|lia].
  simpl andb. cbv iota. simpl res_bind.
  destruct (Z.eqb_spec (len (take (S k') (drop (Z.to_nat off) c))) 0) as [Hz|_].
  { unfold len in Hz. lia. }
  rewrite Nat2Z.id.
  rewrite (drop_ge (take (S k') b)) by lia.
  rewrite take_nil. by rewrite readFileAt_loop_nil.
Qed.

Lemma ReadAt_file_S fuel (fi : metainfo.FileInfo) b off out :
  storage.ReadAt_file (S fuel) t fs fi b off out =
  if off <? i64 (metainfo.fi_Length fi) then
    do (data, err1) <- storage.readFileAt t fs fi b off;
    do b' <- slice_from b (len data);
    if len b' =? 0 then Ret (storage.Returned (out ++ data) None)
    else if negb (len data =? 0) then
      storage.ReadAt_file fuel t fs fi b' (i64 (off + len data)) (out ++ data)
    else
      Ret (storage.Returned (out ++ data)
             (if decide (err1 = Some EOF) then Some ErrUnexpectedEOF else err1))
  else Ret (storage.NextFile b off out).
Proof. reflexivity. Qed.

Lemma ReadAt_file_past fuel (fi : metainfo.FileInfo) b off out :
  i64 (metainfo.fi_Length fi) <= off ->
  storage.ReadAt_file fuel t fs fi b off out = Ret (storage.NextFile b off out).
Proof.
  intros Hoff. destruct fuel; simpl;
    by destruct (Z.ltb_spec off (i64 (metainfo.fi_Length fi))); [lia|].
Qed.

(** One file of the walk: the read ends inside the file, or takes the
    rest of the file and moves on. *)
Lemma ReadAt_file_mem (fi : metainfo.FileInfo) (c b : list byte) (off : Z)
    (out : list byte) :
  memfs.mem_files fs !! storage.fileName t fi = Some c ->
  len c = metainfo.fi_Length fi ->
  len c < 2 ^ 63 -> len b < 2 ^ 63 ->
  0 <= off < len c ->
  storage.ReadAt_file (S (length b)) t fs fi b off out =
  if len b <=? len c - off
  then Ret (storage.Returned (out ++ take (length b) (drop (Z.to_nat off) c)) None)
  else Ret (storage.NextFile (drop (Z.to_nat (len c - off)) b) (len c)
              (out ++ drop (Z.to_nat off) c)).
Proof.
  intros Hc Hlen Hc63 Hb63 Hoff.
  assert (Hfil : i64 (metainfo.fi_Length fi) = len c)
    by (rewrite <- Hlen; apply i64_small; unfold len in *; lia).
  pose proof (len_nonneg b) as Hb0.
  rewrite ReadAt_file_S, Hfil.
  destruct (Z.ltb_spec off (len c)); [|lia].
  rewrite (readFileAt_mem fi c b off) by done. simpl res_bind.
  set (data := take (length b) (drop (Z.to_nat off) c)).
  assert (Hdata : len data = Z.min (len b) (len c - off)).
  { unfold data, len in *. rewrite length_take, length_drop. lia. }
  unfold slice_from, slice. rewrite Hdata.
  destruct (Z.leb_spec 0 (Z.min (len b) (len c - off))); [|lia].
  destruct (Z.leb_spec (Z.min (len b) (len c - off)) (len b)); [|lia].
  simpl andb. cbv iota. simpl res_bind.
  rewrite (take_ge (drop _ b)) by (rewrite length_drop; unfold len; lia).
  rewrite Z.leb_refl. simpl res_bind.
  rewrite len_drop.
  destruct (Z.leb_spec (len b) (len c - off)) as [Hin|Hover].
  - destruct (Z.eqb_spec (len b - Z.of_nat (Z.to_nat (Z.min (len b) (len c - off))
                                     `min` length b)) 0) as [_|Hne];
      [done|unfold len in *; lia].
  - destruct (Z.eqb_spec (len b - Z.of_nat (Z.to_nat (Z.min (len b) (len c - off))
                                     `min` length b)) 0) as [Hz|_];
      [unfold len in *; lia|].
    destruct (Z.eqb_spec (Z.min (len b) (len c - off)) 0); [lia|]. simpl negb.
    cbv iota.
    rewrite ReadAt_file_past
      by (rewrite Hfil, i64_small by lia; lia).
    rewrite (i64_small (off + _)) by lia.
    f_equal. f_equal.
    + f_equal. lia.
    + lia.
    + f_equal. unfold data. apply take_ge.
      rewrite length_drop. unfold len in *. lia.
Qed.

(** The walk over the file list reads the linear content. *)
Lemma ReadAt_files_mem (files : list metainfo.FileInfo) (b : list byte)
    (off : Z) (out : list byte) :
  allocated t fs files ->
  content_length files < 2 ^ 63 ->
  0 <= off -> off + len b <= content_length files ->
  storage.ReadAt_files t fs files b off out =
  Ret (out ++ take (length b) (drop (Z.to_nat off) (content t fs files)),
       if decide (b = [] /\ off = content_length files)
       then Some EOF else None).
Proof.
  revert b off out.
  induction files as [|fi rest IH]; intros b off out Hall Htot Hoff Hend.
  - simpl in *. pose proof (len_nonneg b).
    assert (b = []) as -> by (apply len_zero_nil; lia).
    rewrite decide_True by (split; [done|lia]).
    by rewrite app_nil_r.
  - apply andb_prop in Hall as [Hfi Hrest].
    apply file_ready_spec in Hfi as (c & Hc & Hlen).
    pose proof (len_nonneg c) as Hc0. pose proof (len_nonneg b) as Hb0.
    assert (Hrest0 : 0 <= content_length rest).
    { rewrite <- (content_length_allocated rest Hrest). apply len_nonneg. }
    change (content_length (fi :: rest))
      with (metainfo.fi_Length fi + content_length rest) in *.
    change (content t fs (fi :: rest))
      with (file_bytes t fs fi ++ content t fs rest).
    rewrite (file_bytes_ready _ _ Hc).
    assert (Hfil : i64 (metainfo.fi_Length fi) = len c)
      by (rewrite <- Hlen; apply i64_small; lia).
    rewrite ReadAt_files_cons.
    destruct (Z_lt_le_dec off (len c)) as [Hin|Hpast].
    + rewrite (ReadAt_file_mem fi c b off out) by (done || lia).
      destruct (Z.leb_spec (len b) (len c - off)) as [Hfit|Hover]; simpl res_bind.
      * rewrite decide_False by (intros [_ ?]; lia).
        f_equal. f_equal. f_equal.
        rewrite drop_app_le by (unfold len in *; lia).
        rewrite take_app_le; [done|].
        rewrite length_drop. unfold len in *. lia.
      * rewrite Hfil, Z.sub_diag. change (i64 0) with 0.
        rewrite IH; [|done|lia|lia|rewrite len_drop; unfold len in *; lia].
        rewrite decide_False.
        2:{ intros [Hnil _]. apply (f_equal length) in Hnil.
            rewrite length_drop in Hnil. unfold len in *. simpl in Hnil. lia. }
        rewrite decide_False by (intros [-> _]; unfold len in *; simpl in *; lia).
        f_equal. f_equal. rewrite <- app_assoc. f_equal.
        rewrite drop_app_le by (unfold len in *; lia).
        rewrite take_app_ge by (rewrite length_drop; unfold len in *; lia).
        f_equal. change (Z.to_nat 0) with 0%nat. rewrite drop_0.
        f_equal. rewrite !length_drop. unfold len in *. lia.
    + rewrite ReadAt_file_past by lia. simpl res_bind.
      rewrite Hfil, (i64_small (off - len c)) by lia.
      rewrite IH by (done || lia).
      f_equal. f_equal.
      * f_equal. rewrite drop_app_ge by (unfold len in *; lia).
        f_equal. f_equal. unfold len. lia.
      * destruct (decide (b = [] /\ off - len c = content_length rest)) as [[-> ?]|Hn].
        -- rewrite decide_True; [done|]. split; [done|lia].
        -- rewrite decide_False; [done|]. intros [-> ?]. apply Hn. split; [done|lia].
Qed.

Lemma ReadAt_mem (b : list byte) (off : Z) :
  preallocated t fs ->
  content_length (metainfo.GetFiles (metainfo.tf_Info (storage.meta t))) < 2 ^ 63 ->
  0 <= off ->
  off + len b
    <= content_length (metainfo.GetFiles (metainfo.tf_Info (storage.meta t))) ->
  let files := metainfo.GetFiles (metainfo.tf_Info (storage.meta t)) in
  storage.ReadAt t fs b off =
  Ret (len b,
       if decide (b = [] /\ off = content_length files) then Some EOF else None,
       take (length b) (drop (Z.to_nat off) (content t fs files))).
Proof.
  intros Hall Htot Hoff Hend files. subst files. unfold storage.ReadAt.
  rewrite (ReadAt_files_mem _ b off []) by done. simpl.
  set (data := take (length b) (drop (Z.to_nat off) (content t fs _))).
  assert (Hdata : length data = length b).
  { unfold data. rewrite length_take, length_drop.
    pose proof (content_length_allocated _ Hall) as Hcl.
    unfold len in *. lia. }
  rewrite Hdata, drop_all, app_nil_r. unfold len. by rewrite Hdata.
Qed.
End MemRead.

Section MemWrite.
Context {paths : metainfo.PathLib}.
Variable t : storage.fsTorrent.

Lemma allocated_cons (fs : memfs.MemFS) fi rest :
  allocated t fs (fi :: rest)
  <-> file_ready t fs fi = true /\ allocated t fs rest.
Proof. unfold allocated. simpl. apply andb_true_iff. Qed.

Lemma allocated_frame (fs fs' : memfs.MemFS) (files : list metainfo.FileInfo) :
  (forall name, name ∈ storage.fileName t <$> files ->
     memfs.mem_files fs' !! name = memfs.mem_files fs !! name) ->
  allocated t fs files -> allocated t fs' files.
Proof.
  induction files as [|fi rest IH]; intros Hsame Hall; [done|].
  apply allocated_cons in Hall as [Hfi Hrest].
  apply allocated_cons. split.
  - unfold file_ready in *. rewrite Hsame; [done|]. rewrite fmap_cons. left.
  - apply IH; [|done]. intros name Hin. apply Hsame. rewrite fmap_cons. by right.
Qed.

Lemma content_frame (fs fs' : memfs.MemFS) (files : list metainfo.FileInfo) :
  (forall name, name ∈ storage.fileName t <$> files ->
     memfs.mem_files fs' !! name = memfs.mem_files fs !! name) ->
  content t fs' files = content t fs files.
Proof.
  unfold content. induction files as [|fi rest IH]; intros Hsame; [done|].
  rewrite !fmap_cons. simpl. f_equal.
  - unfold file_bytes. rewrite Hsame; [done|]. rewrite fmap_cons. left.
  - apply IH. intros name Hin. apply Hsame. rewrite fmap_cons. by right.
Qed.

Lemma write_bytes_inside (c data : list byte) (off : Z) :
  0 <= off -> off + len data <= len c ->
  memfs.write_bytes c data off
  = take (Z.to_nat off) c ++ data ++ drop (Z.to_nat (off + len data)) c.
Proof.
  intros Hoff Hend. unfold memfs.write_bytes, len in *.
  replace (Z.to_nat off - length c)%nat with 0%nat by lia.
  simpl. rewrite app_nil_r. do 3 f_equal. lia.
Qed.

Lemma WriteAt_files_cons (fs : memfs.MemFS) fi rest p off n :
  storage.WriteAt_files t fs (fi :: rest) p off n =
  let fil := i64 (metainfo.fi_Length fi) in
  if fil <=? off then storage.WriteAt_files t fs rest p (i64 (off - fil)) n
  else
    let n1 := len p in
    let n1 := if i64 (fil - off) <? n1 then i64 (fil - off) else n1 in
    match storage.openfileWrite t fs fi with
    | (fname, (fs1, Some e)) => Ret (n, Some e, fs1)
    | (fname, (fs1, None)) =>
        do chunk <- slice_to p n1;
        let '(fs2, n1', err) := storage.File_WriteAt fs1 fname chunk off in
        match err with
        | Some e => Ret (n, Some e, fs2)
        | None =>
            let n' := i64 (n + n1') in
            do p' <- slice_from p n1';
            if len p' =? 0 then Ret (n', None, fs2)
            else storage.WriteAt_files t fs2 rest p' 0 n'
        end
    end.
Proof. reflexivity. Qed.

(** The walk over the file list overwrites the linear content at
    [off], keeps every file at its length and touches no other file. *)
Lemma WriteAt_files_mem (files : list metainfo.FileInfo) :
  forall (fs : memfs.MemFS) (p : list byte) (off n : Z),
  allocated t fs files ->
  NoDup (storage.fileName t <$> files) ->
  content_length files < 2 ^ 63 ->
  0 <= off -> off + len p <= content_length files ->
  0 <= n -> n + len p < 2 ^ 63 ->
  exists fs',
    storage.WriteAt_files t fs files p off n = Ret (n + len p, None, fs')
    /\ allocated t fs' files
    /\ content t fs' files
       = take (Z.to_nat off) (content t fs files) ++ p
           ++ drop (Z.to_nat (off + len p)) (content t fs files)
    /\ (forall name, name ∉ storage.fileName t <$> files ->
          memfs.mem_files fs' !! name = memfs.mem_files fs !! name).
Proof.
  induction files as [|fi rest IH];
    intros fs p off n Hall Hnd Htot Hoff Hend Hn Hnp.
  - simpl in *. pose proof (len_nonneg p).
    assert (p = []) as -> by (apply len_zero_nil; lia).
    exists fs. change (len []) with 0. rewrite Z.add_0_r.
    split; [done|]. split; [done|]. split; [|done].
    change (content t fs []) with (@nil byte).
    by rewrite take_nil, drop_nil.
  - apply allocated_cons in Hall as [Hfi Hrest].
    apply file_ready_spec in Hfi as (c & Hc & Hlen).
    rewrite fmap_cons in Hnd. apply NoDup_cons in Hnd as [Hfresh Hnd].
    pose proof (len_nonneg c) as Hc0. pose proof (len_nonneg p) as Hp0.
    assert (Hrest0 : 0 <= content_length rest).
    { rewrite <- (content_length_allocated t fs rest Hrest). apply len_nonneg. }
    change (content_length (fi :: rest))
      with (metainfo.fi_Length fi + content_length rest) in *.
    change (content t fs (fi :: rest))
      with (file_bytes t fs fi ++ content t fs rest).
    rewrite (file_bytes_ready t fs _ _ Hc).
    assert (Hfil : i64 (metainfo.fi_Length fi) = len c)
      by (rewrite <- Hlen; apply i64_small; lia).
    rewrite WriteAt_files_cons. cbv zeta. rewrite Hfil.
    destruct (Z.leb_spec (len c) off) as [Hpast|Hin].
    + (* the write starts after this file *)
      rewrite (i64_small (off - len c)) by lia.
      destruct (IH fs p (off - len c) n) as (fs' & Hrun & Hall' & Hcont & Hframe);
        try done; try lia.
      exists fs'. split; [done|].
      assert (Hfi' : memfs.mem_files fs' !! storage.fileName t fi = Some c)
        by (rewrite Hframe; done).
      split; [|split].
      * apply allocated_cons. split; [|done].
        unfold file_ready. rewrite Hfi'. by apply Z.eqb_eq.
      * change (content t fs' (fi :: rest))
          with (file_bytes t fs' fi ++ content t fs' rest).
        rewrite (file_bytes_ready t fs' _ _ Hfi'), Hcont.
        rewrite take_app_ge, drop_app_ge by (unfold len in *; lia).
        rewrite <- app_assoc. do 3 f_equal.
        -- f_equal. unfold len in *. lia.
        -- f_equal. unfold len in *. lia.
      * intros name Hname. apply Hframe. intros Hin. apply Hname.
        rewrite fmap_cons. by right.
    + (* the write starts inside this file *)
      rewrite (i64_small (len c - off)) by lia.
      set (n1 := if len c - off <? len p then len c - off else len p).
      assert (Hn1 : n1 = Z.min (len p) (len c - off))
        by (unfold n1; destruct (Z.ltb_spec (len c - off) (len p)); lia).
      unfold storage.openfileWrite. simpl storage.OpenFileWriteOnly.
      unfold memfs.open_write, memfs.exists_. rewrite Hc. simpl orb. cbv iota.
      unfold slice_to, slice.
      destruct (Z.leb_spec 0 n1); [|lia]. destruct (Z.leb_spec n1 (len p)); [|lia].
      simpl andb. cbv iota. simpl res_bind. rewrite Z.sub_0_r, drop_0.
      simpl storage.File_WriteAt. unfold memfs.write_at. rewrite Hc.
      destruct (Z.ltb_spec off 0); [lia|].
      set (chunk := take (Z.to_nat n1) p).
      assert (Hchunk : len chunk = n1)
        by (unfold chunk, len in *; rewrite length_take; lia).
      rewrite Hchunk, (i64_small (n + n1)) by lia.
      set (c2 := memfs.write_bytes c chunk off).
      assert (Hc2 : c2 = take (Z.to_nat off) c ++ chunk
                         ++ drop (Z.to_nat (off + n1)) c).
      { unfold c2. rewrite write_bytes_inside by lia. by rewrite Hchunk. }
      assert (Hlen2 : len c2 = len c).
      { rewrite Hc2, !len_app, Hchunk, len_drop. unfold len in *.
        rewrite length_take. lia. }
      set (fs2 := memfs.mkMemFS _ _).
      assert (Hfi2 : memfs.mem_files fs2 !! storage.fileName t fi = Some c2)
        by apply lookup_insert_eq.
      assert (Hsame2 : forall name, name ∈ storage.fileName t <$> rest ->
                memfs.mem_files fs2 !! name = memfs.mem_files fs !! name).
      { intros name Hname. apply lookup_insert_ne. intros <-. done. }
      pose proof (allocated_frame fs fs2 rest Hsame2 Hrest) as Hrest2.
      pose proof (content_frame fs fs2 rest Hsame2) as Hcont2.
      unfold slice_from, slice.
      rewrite (proj2 (Z.leb_le 0 n1)), (proj2 (Z.leb_le n1 (len p))) by lia.
      rewrite Z.leb_refl. simpl andb. cbv iota. simpl res_bind.
      rewrite (take_ge (drop _ p)) by (rewrite length_drop; unfold len; lia).
      destruct (Z.eqb_spec (len (drop (Z.to_nat n1) p)) 0) as [Hdone|Hmore].
      * (* the buffer ends in this file *)
        assert (Hfit : len p <= len c - off)
          by (rewrite len_drop in Hdone; unfold len in *; lia).
        assert (n1 = len p) as Hn1p by lia.
        exists fs2. split; [by rewrite Hn1p|].
        split; [|split].
        -- apply allocated_cons. split; [|done].
           unfold file_ready. rewrite Hfi2. apply Z.eqb_eq. lia.
        -- change (content t fs2 (fi :: rest))
             with (file_bytes t fs2 fi ++ content t fs2 rest).
           rewrite (file_bytes_ready t fs2 _ _ Hfi2), Hcont2, Hc2.
           rewrite take_app_le, drop_app_le by (unfold len in *; lia).
           rewrite <- !app_assoc. do 2 f_equal.
           ++ unfold chunk. apply take_ge. unfold len in *. lia.
           ++ f_equal. f_equal. lia.
        -- intros name Hname. apply lookup_insert_ne. intros <-.
           apply Hname. rewrite fmap_cons. left.
      * (* the buffer goes on into the next files *)
        assert (Hover : len c - off < len p)
          by (rewrite len_drop in Hmore; unfold len in *; lia).
        assert (n1 = len c - off) as Hn1c by lia.
        assert (Hp' : len (drop (Z.to_nat n1) p) = len p - n1)
          by (rewrite len_drop; unfold len in *; lia).
        destruct (IH fs2 (drop (Z.to_nat n1) p) 0 (n + n1))
          as (fs' & Hrun & Hall' & Hcont & Hframe); try done; try lia.
        exists fs'. split; [rewrite Hrun; do 3 f_equal; lia|].
        assert (Hfi' : memfs.mem_files fs' !! storage.fileName t fi = Some c2)
          by (rewrite Hframe; done).
        split; [|split].
        -- apply allocated_cons. split; [|done].
           unfold file_ready. rewrite Hfi'. apply Z.eqb_eq. lia.
        -- change (content t fs' (fi :: rest))
             with (file_bytes t fs' fi ++ content t fs' rest).
           rewrite (file_bytes_ready t fs' _ _ Hfi'), Hcont, Hcont2, Hc2.
           change (Z.to_nat 0) with 0%nat. rewrite take_0, app_nil_l.
           rewrite take_app_le, drop_app_ge by (unfold len in *; lia).
           rewrite (drop_ge c) by (unfold len in *; lia). rewrite app_nil_r.
           rewrite <- !app_assoc. f_equal.
           rewrite (app_assoc chunk). f_equal; [apply take_drop|].
           f_equal. rewrite Z.add_0_l, Hp'. unfold len in *. lia.
        -- intros name Hname. rewrite Hframe.
           ++ apply lookup_insert_ne. intros <-. apply Hname. rewrite fmap_cons. left.
           ++ intros Hmem. apply Hname. rewrite fmap_cons. by right.
Qed.
End MemWrite.

Section ReadAfterWrite.
Context {paths : metainfo.PathLib}.
Variable t : storage.fsTorrent.

Lemma allocated_lengths (fs : memfs.MemFS) (files : list metainfo.FileInfo) :
  allocated t fs files -> Forall (fun f => 0 <= metainfo.fi_Length f) files.
Proof.
  induction files as [|fi rest IH]; intros Hall; [constructor|].
  apply allocated_cons in Hall as [Hfi Hrest].
  apply file_ready_spec in Hfi as (c & _ & Hlen).
  constructor; [rewrite <- Hlen; apply len_nonneg|by apply IH].
Qed.

Lemma sum_lengths (files : list metainfo.FileInfo) (a : Z) :
  Forall (fun f => 0 <= metainfo.fi_Length f) files ->
  0 <= a -> a + content_length files < 2 ^ 64 ->
  fold_left (fun total f => u64 (total + metainfo.fi_Length f)) files a
  = a + content_length files.
Proof.
  revert a. induction files as [|fi rest IH]; intros a Hpos Ha Hsum; simpl in *.
  - lia.
  - apply Forall_cons in Hpos as [Hfi Hrest].
    assert (0 <= content_length rest).
    { clear -Hrest. induction Hrest; simpl; lia. }
    assert (Hu : u64 (a + metainfo.fi_Length fi) = a + metainfo.fi_Length fi)
      by (unfold u64; apply Z.mod_small; lia).
    rewrite Hu, IH by (done || lia). lia.
Qed.

(** Under preallocation [TotalSize] is the length of the content. *)
Lemma TotalSize_content (fs : memfs.MemFS) :
  preallocated t fs ->
  content_length (metainfo.GetFiles (metainfo.tf_Info (storage.meta t))) < 2 ^ 63 ->
  metainfo.TotalSize (storage.meta t)
  = content_length (metainfo.GetFiles (metainfo.tf_Info (storage.meta t))).
Proof.
  intros Hall Htot. apply allocated_lengths in Hall.
  unfold metainfo.TotalSize, metainfo.IsSingleFile, metainfo.GetFiles in *.
  destruct (0 <? metainfo.Length _); [simpl; lia|].
  rewrite sum_lengths by (done || lia). lia.
Qed.

(** C3, amended: with every file allocated to its declared length, the
    file entries naming different files and the content shorter than
    2^63 bytes, writing [x] at an in-range offset and reading [len x]
    bytes back at the same offset returns [x], whatever the buffer held
    before, for one file as for many.  (An empty read at the very end
    of the content reports [EOF] next to its zero bytes.) *)
Theorem C3_read_after_write (fs : memfs.MemFS) (x : list byte) (off : Z) :
  preallocated t fs ->
  distinct_files t ->
  content_length (metainfo.GetFiles (metainfo.tf_Info (storage.meta t))) < 2 ^ 63 ->
  0 <= off ->
  off + len x <= metainfo.TotalSize (storage.meta t) ->
  exists fs',
    storage.WriteAt t fs x off = Ret (len x, None, fs')
    /\ preallocated t fs'
    /\ forall b, length b = length x ->
         storage.ReadAt t fs' b off
         = Ret (len x,
                if decide (x = [] /\ off = metainfo.TotalSize (storage.meta t))
                then Some EOF else None,
                x).
Proof.
  intros Hall Hnd Htot Hoff Hend.
  rewrite (TotalSize_content fs Hall Htot) in *.
  pose proof (len_nonneg x) as Hx0.
  destruct (WriteAt_files_mem t _ fs x off 0 Hall Hnd Htot Hoff Hend)
    as (fs' & Hrun & Hall' & Hcont & _); [lia|lia|].
  exists fs'. split; [exact Hrun|]. split; [exact Hall'|].
  intros b Hb.
  assert (Hlb : len b = len x) by (unfold len; lia).
  rewrite (ReadAt_mem t fs' b off Hall' Htot Hoff) by lia.
  rewrite Hlb, Hb. f_equal. f_equal.
  - destruct (decide (x = [] /\ off = _)) as [[-> ?]|Hn].
    + rewrite decide_True; [done|]. split; [|done]. by apply nil_length_inv.
    + rewrite decide_False; [done|]. intros [-> ?]. apply Hn. split; [|done].
      symmetry in Hb. by apply nil_length_inv.
  - rewrite Hcont.
    pose proof (content_length_allocated t fs _ Hall) as Hcl.
    rewrite drop_app_length'
      by (rewrite length_take; unfold len in *; lia).
    by rewrite take_app_length.
Qed.
End ReadAfterWrite.

(** C3, as stated, fails: nothing keeps two entries of the file list
    from naming the same file.  Two entries of two bytes each, both
    named [a]: the file is allocated to its declared length, four bytes
    written at offset 0 are reported written in full, and the second
    half of the write lands on the first; reading back gives
    03 04 03 04. *)
Lemma C3_shared_file_overwritten :
  let tf := metainfo.mkTorrentFile
    (metainfo.mkInfo 4 [] "d"
       [metainfo.mkFileInfo 2 ["a"] []; metainfo.mkFileInfo 2 ["a"] []]
       None 0 [] None) "" [] in
  let t := storage.mkFsTorrent (storage.mkFsStorage "data" "meta")
             (metainfo.IhV1 []) tf None in
  let fs := memfs.mkMemFS {[ "data/d/a" := [x00; x00] ]} ∅ in
  let x := [x01; x02; x03; x04] in
  preallocated t fs
  /\ 0 + len x <= metainfo.TotalSize tf
  /\ exists fs',
       storage.WriteAt t fs x 0 = Ret (len x, None, fs')
       /\ storage.ReadAt t fs' [x00; x00; x00; x00] 0
          = Ret (len x, None, [x03; x04; x03; x04])
       /\ storage.ReadAt t fs' [x00; x00; x00; x00] 0 <> Ret (len x, None, x).
Proof.
  intros tf t fs x. split; [vm_compute; reflexivity|].
  split; [vm_compute; discriminate|].
  exists (memfs.mkMemFS {[ "data/d/a" := [x03; x04] ]} ∅).
  split; [vm_compute; reflexivity|]. split; [vm_compute; reflexivity|].
  vm_compute. discriminate.
Qed.

(** Four bytes written across three files, one of them empty, read back. *)
Lemma C3_read_after_write_witness :
  let tf := metainfo.mkTorrentFile
    (metainfo.mkInfo 4 [] "d"
       [metainfo.mkFileInfo 3 ["a"] []; metainfo.mkFileInfo 0 ["e"] [];
        metainfo.mkFileInfo 4 ["sub"; "b"] []]
       None 0 [] None) "" [] in
  let t := storage.mkFsTorrent (storage.mkFsStorage "data" "meta")
             (metainfo.IhV1 []) tf None in
  let fs := memfs.mkMemFS
    {[ "data/d/a" := [x00; x00; x00]; "data/d/e" := [];
       "data/d/sub/b" := [x00; x00; x00; x00] ]} ∅ in
  let x := [x01; x02; x03; x04] in
  exists fs',
    storage.WriteAt t fs x 2 = Ret (len x, None, fs')
    /\ preallocated t fs'
    /\ forall b, length b = length x ->
         storage.ReadAt t fs' b 2
         = Ret (len x,
                if decide (x = [] /\ 2 = metainfo.TotalSize tf)
                then Some EOF else None,
                x).
Proof.
  intros tf t fs x. apply (C3_read_after_write t fs x 2).
  - vm_compute. reflexivity.
  - unfold distinct_files. apply (bool_decide_unpack _). vm_compute. exact I.
  - vm_compute. reflexivity.
  - lia.
  - vm_compute. discriminate.
Defined.

(** ** Peer admission *)

Section Admission.
Variable Resolve : swarm.Peer -> error + string.

Lemma addPeers_filter (t : swarm.Torrent) (peers : list swarm.Peer) a id :
  (a, id) ∈ swarm.addPeers Resolve t peers ->
  a <> swarm.self t /\ swarm.HasOBConn t a = false
  /\ exists p, p ∈ peers /\ Resolve p = inr a /\ swarm.peer_ID p = id.
Proof.
  induction peers as [|p rest IH]; simpl; [by intros ?%elem_of_nil|].
  assert (Hrest : (a, id) ∈ swarm.addPeers Resolve t rest ->
    a <> swarm.self t /\ swarm.HasOBConn t a = false
    /\ exists q, q ∈ p :: rest /\ Resolve q = inr a /\ swarm.peer_ID q = id).
  { intros Hin. destruct (IH Hin) as (? & ? & q & ? & ? & ?).
    split; [done|]. split; [done|]. exists q. split; [by right|done]. }
  destruct (Resolve p) as [e|a'] eqn:Hres; [done|].
  destruct (decide (a' = swarm.self t)); [done|].
  destruct (swarm.HasOBConn t a') eqn:Hob; [done|].
  intros [[= -> ->]|Hin]%elem_of_cons; [|by apply Hrest].
  split; [done|]. split; [done|]. exists p. split; [left|done].
Qed.

(** One [PersistPeer] goroutine is started for every occurrence of a
    destination that passes the two checks. *)
Lemma addPeers_twice (t : swarm.Torrent) (p : swarm.Peer) (a : string) :
  Resolve p = inr a -> a <> swarm.self t -> swarm.HasOBConn t a = false ->
  swarm.addPeers Resolve t [p; p] = [(a, swarm.peer_ID p); (a, swarm.peer_ID p)].
Proof.
  intros Hres Hself Hob. simpl. rewrite Hres.
  destruct (decide (a = swarm.self t)); [done|]. by rewrite Hob.
Qed.
End Admission.

Lemma step_goroutine_addr o t dials g :
  swarm.g_addr (swarm.step_goroutine o t dials g).2 = swarm.g_addr g.
Proof.
  unfold swarm.step_goroutine.
  destruct (swarm.g_state g); [| destruct o |]; simpl; try done.
  by repeat case_match.
Qed.

Lemma step_goroutine_dials o t dials g :
  (swarm.step_goroutine o t dials g).1.2 = dials
  \/ ((swarm.step_goroutine o t dials g).1.2 = dials ++ [swarm.g_addr g]
      /\ (exists n, swarm.g_state g = swarm.AtLoop n)
      /\ swarm.HasIBConn t (swarm.g_addr g) = false
      /\ swarm.HasOBConn t (swarm.g_addr g) = false).
Proof.
  unfold swarm.step_goroutine.
  destruct (swarm.g_state g) as [n|n|]; [| destruct o |]; simpl; auto.
  destruct (swarm.closing t); [auto|].
  destruct (swarm.HasIBConn t _) eqn:Hib; [auto|].
  destruct (swarm.HasOBConn t _) eqn:Hob; simpl; [auto|].
  right. eauto.
Qed.

(** The goroutines keep their addresses, and a dial goes to the address
    of the goroutine that makes it. *)
Lemma step_addrs (w : swarm.world) (s : nat * swarm.dial_outcome) :
  swarm.g_addr <$> swarm.w_gs (swarm.step w s) = swarm.g_addr <$> swarm.w_gs w.
Proof.
  unfold swarm.step.
  destruct (swarm.w_gs w !! s.1) as [g|] eqn:Hg; [|done].
  pose proof (step_goroutine_addr s.2 (swarm.w_torrent w) (swarm.w_dials w) g) as Ha.
  destruct (swarm.step_goroutine _ _ _ _) as [[t' d'] g']. simpl in *.
  rewrite list_fmap_insert, Ha. apply list_insert_id.
  by rewrite list_lookup_fmap, Hg.
Qed.

Lemma step_dials_addr (w : swarm.world) (s : nat * swarm.dial_outcome) (a : string) :
  a ∈ swarm.w_dials (swarm.step w s) ->
  a ∈ swarm.w_dials w \/ a ∈ swarm.g_addr <$> swarm.w_gs w.
Proof.
  unfold swarm.step.
  destruct (swarm.w_gs w !! s.1) as [g|] eqn:Hg; [|by left].
  pose proof (step_goroutine_dials s.2 (swarm.w_torrent w) (swarm.w_dials w) g) as Hd.
  destruct (swarm.step_goroutine _ _ _ _) as [[t' d'] g']. simpl in *.
  destruct Hd as [->|(-> & _)]; [by left|].
  intros [Hin|Hin]%elem_of_app; [by left|].
  apply list_elem_of_singleton in Hin as ->. right.
  apply list_elem_of_fmap. exists g. split; [done|]. by eapply list_elem_of_lookup_2.
Qed.

Lemma run_dials_addr (w : swarm.world) schedule (a : string) :
  a ∈ swarm.w_dials (swarm.run w schedule) ->
  a ∈ swarm.w_dials w \/ a ∈ swarm.g_addr <$> swarm.w_gs w.
Proof.
  unfold swarm.run. revert w.
  induction schedule as [|s rest IH]; intros w Hin; [by left|].
  simpl in Hin. apply IH in Hin as [Hin|Hin].
  - by apply step_dials_addr in Hin.
  - right. by rewrite step_addrs in Hin.
Qed.

(** C7.  The tracker names one destination twice; it is not the
    process's own and has no connection yet.  [addPeers] starts two
    [PersistPeer] goroutines, each finds no entry for the address and
    calls [Dial] before the other has registered a connection: two dial
    attempts, both of which may then succeed. *)
Theorem C7_duplicate_destination_dialed_twice :
  let resolve : swarm.Peer -> error + string := fun p => inr (swarm.peer_Dest p) in
  let t := swarm.mkTorrent ∅ ∅ false "self.i2p" in
  let p := swarm.mkPeer "peer.i2p" [] in
  let w0 := swarm.announce_peers resolve t [p; p] in
  let w := swarm.run w0 [(0%nat, swarm.Connected); (1%nat, swarm.Connected)] in
  length (swarm.w_gs w0) = 2%nat
  /\ swarm.w_dials w = ["peer.i2p"; "peer.i2p"]
  /\ swarm.w_dials
       (swarm.run w [(0%nat, swarm.Connected); (1%nat, swarm.Connected)])
     = ["peer.i2p"; "peer.i2p"]
  /\ swarm.g_state <$> swarm.w_gs
       (swarm.run w [(0%nat, swarm.Connected); (1%nat, swarm.Connected)])
     = [swarm.Done; swarm.Done].
Proof. vm_compute. done. Qed.

(** ** The wire reader stops *)

Lemma ReadFull_cases (r : list byte) (n : nat) got r1 err :
  n <> 0%nat ->
  common.ReadFull r n = (got, r1, err) ->
  (err = None /\ (length r1 + n = length r)%nat /\ length got = n)
  \/ (err <> None /\ r1 = []).
Proof.
  intros Hn. unfold common.ReadFull.
  repeat case_decide; intros [= <- <- <-]; try done; try (by right).
  left. rewrite length_drop, length_take. split; [done|]. lia.
Qed.

Lemma ReadFull_rest (r : list byte) (n : nat) got r1 err :
  common.ReadFull r n = (got, r1, err) -> (length r1 <= length r)%nat.
Proof.
  unfold common.ReadFull.
  repeat case_decide; intros [= <- <- <-]; simpl; try lia.
  rewrite length_drop. lia.
Qed.

(** The reader stops on every finite stream: the fuel [ReadWireMessages]
    supplies is never used up. *)
Lemma ReadWireMessages_loop_ends fuel f msg r tr :
  (length r < fuel)%nat ->
  common.ReadWireMessages_loop fuel f msg r tr <> NoFuel.
Proof.
  revert msg r tr. induction fuel as [|fuel IH]; intros msg r tr Hfuel; [lia|].
  simpl.
  destruct (common.ReadFull r 4) as [[got r1] err] eqn:Hrf.
  apply ReadFull_cases in Hrf as Hcase; [|done].
  set (msg1 := got ++ drop (length got) msg) in *.
  destruct (binary.Uint32 (take 4 msg1)) as [l| |] eqn:Hl; simpl; try done.
  2:{ unfold binary.Uint32 in Hl. by repeat case_match. }
  apply Uint32_range in Hl as Hl32.
  destruct (Z.ltb_spec 0 l) as [Hpos|Hzero].
  - destruct (l <? common.MaxWireMessageSize).
    + unfold common.CopyN_Discard.
      destruct (Z.leb_spec l (len r1)) as [Hle|Hgt]; [|done].
      destruct Hcase as [(-> & Hlen & _)|[_ ->]].
      * apply IH. rewrite length_drop. lia.
      * unfold len in Hle. simpl in Hle. lia.
    + destruct (slice msg1 4 (u32 (4 + l))) as [body| |] eqn:Hbody; simpl; try done.
      2:{ by apply slice_not_NoFuel in Hbody. }
      apply slice_Ret in Hbody as (Hlo & Hhi & ->).
      destruct (common.ReadFull r1 _) as [[got2 r2] err2] eqn:Hrf2.
      destruct err2 as [e2|]; [done|].
      destruct (slice_to _ _) as [m| |] eqn:Hm; simpl; try done.
      2:{ by apply slice_not_NoFuel in Hm. }
      destruct (f m); [done|].
      apply IH. apply ReadFull_rest in Hrf2 as Hle.
      destruct Hcase as [(-> & Hlen & _)|[_ ->]]; [lia|].
      (* the header read failed: the body read cannot succeed *)
      exfalso. unfold common.ReadFull in Hrf2.
      case_decide as Hz; [|by repeat case_decide].
      rewrite length_take, length_drop in Hz.
      assert (u32 (4 + l) <> 4).
      { unfold u32. intros Heq.
        destruct (Z_lt_le_dec (4 + l) (2 ^ 32)).
        - rewrite Z.mod_small in Heq by lia. lia.
        - assert ((4 + l) mod 2 ^ 32 = 4 + l - 2 ^ 32)
            by (symmetry; apply Z.mod_unique with 1; lia).
          lia. }
      unfold len in Hhi. lia.
  - destruct Hcase as [(-> & Hlen & _)|[Herr _]].
    + apply IH. lia.
    + by destruct err.
Qed.

Lemma ReadWireMessages_ends (r : list byte) (f : common.WireMessage -> option error) :
  common.ReadWireMessages r f <> NoFuel.
Proof. unfold common.ReadWireMessages. apply ReadWireMessages_loop_ends. lia. Qed.

(** ** The model at work *)

(** The one frame size the reader does hand on: L = 32768 exactly. *)
Example ReadWireMessages_full_frame :
  let body := replicate (Z.to_nat 32768) x07 in
  let frame := binary.PutUint32 32768 ++ body in
  match common.ReadWireMessages frame (fun _ => Some ErrInvalidPiece) with
  | Ret (e, [common.Dispatched m]) =>
      e = ErrInvalidPiece /\ bool_decide (m = frame) = true
  | _ => False
  end.
Proof. vm_compute. done. Qed.

(** Three peers announce pieces {0,1,2}, {0,1} and {0}; we hold piece 0
    and the remote peer offers all three.  Piece 2 is the rarest; with 2
    excluded it is piece 1; with both excluded there is nothing to ask
    for. *)
Example getRarestPiece_picks :
  let peer (d : byte) := swarm.mkPeerConn (Some (bittorrent.mkBitfield 3 [d])) false in
  let t := swarm.mkTorrent
    {[ "a.i2p" := peer xe0; "b.i2p" := peer xc0 ]}
    {[ "c.i2p" := peer x80; "d.i2p" := swarm.mkPeerConn None true ]}
    false "self.i2p" in
  let ours := bittorrent.mkBitfield 3 [x80] in
  let remote := bittorrent.mkBitfield 3 [xe0] in
  swarm.getRarestPiece t ours remote [] = Some 2
  /\ swarm.getRarestPiece t ours remote [2] = Some 1
  /\ swarm.getRarestPiece t ours remote [1; 2] = None.
Proof. vm_compute. done. Qed.

(** A piece that does not hash to the manifest's digest is refused and
    leaves store and bitfield alone. *)
Example PutPiece_rejects_bad_hash :
  let data := [x01; x02; x03; x04] in
  let tf := metainfo.mkTorrentFile
    (metainfo.mkInfo 4 (example.checksum data) "f" [] None 4 [] None) "" [] in
  let t := storage.mkFsTorrent (storage.mkFsStorage "data" "meta")
             (metainfo.IhV1 []) tf (Some (bittorrent.NewBitfield 1)) in
  let fs := memfs.mkMemFS {[ "data/f" := [x00; x00; x00; x00] ]} ∅ in
  storage.PutPiece t fs (common.mkPieceData 0 0 [x01; x02; x03; x05])
  = Ret (t, fs, Some ErrInvalidPiece).
Proof. vm_compute. reflexivity. Qed.

(** A destination that already has an inbound connection gets its
    goroutine, which returns without dialling. *)
Example PersistPeer_inbound_no_dial :
  let resolve : swarm.Peer -> error + string := fun p => inr (swarm.peer_Dest p) in
  let t := swarm.mkTorrent ∅ {[ "peer.i2p" := swarm.mkPeerConn None true ]}
             false "self.i2p" in
  let w := swarm.run (swarm.announce_peers resolve t [swarm.mkPeer "peer.i2p" []])
             [(0%nat, swarm.Connected)] in
  swarm.w_dials w = [] /\ swarm.g_state <$> swarm.w_gs w = [swarm.Done].
Proof. vm_compute. done. Qed.

(** * Further properties *)

(** ** Wire messages: framing and guarded parsers *)

Lemma Len_NewWireMessage id body :
  len body + 1 < 2 ^ 32 ->
  common.Len (common.NewWireMessage id body) = Ret (len body + 1).
Proof.
  intros Hl. unfold common.Len, common.NewWireMessage.
  pose proof (len_nonneg body).
  assert (Hu : u32 (len body + 1) = len body + 1)
    by (unfold u32; apply Z.mod_small; lia).
  rewrite Hu. apply Uint32_PutUint32. lia.
Qed.

(** X1.  A message built by [NewWireMessage] is a well-formed frame: its
    length prefix is the body length plus one for the id, the frame is
    four bytes longer than the prefix says, id and payload read back,
    and it is never taken for a keep-alive. *)
Theorem X1_new_message_is_a_frame (id : common.WireMessageType) (body : list byte) :
  len body + 1 < 2 ^ 32 ->
  let msg := common.NewWireMessage id body in
  common.Len msg = Ret (len body + 1)
  /\ len msg = 4 + (len body + 1)
  /\ common.MessageID msg = id
  /\ common.Payload msg = Ret body
  /\ common.WireMessage_KeepAlive msg = Ret false.
Proof.
  intros Hl msg. pose proof (len_nonneg body).
  split; [by apply Len_NewWireMessage|]. split.
  { unfold msg, common.NewWireMessage. rewrite len_app, len_PutUint32.
    change (id :: body) with ([id] ++ body). rewrite len_app.
    change (len [id]) with 1. lia. }
  split; [apply MessageID_NewWireMessage|].
  split; [by apply Payload_NewWireMessage|].
  unfold common.WireMessage_KeepAlive, msg.
  rewrite Len_NewWireMessage by done. simpl.
  f_equal. apply Z.eqb_neq. lia.
Qed.

(** A frame with a one-byte body. *)
Lemma X1_new_message_is_a_frame_witness :
  let msg := common.NewWireMessage common.Extended [x00] in
  common.Len msg = Ret (1 + 1)
  /\ len msg = 4 + (1 + 1)
  /\ common.MessageID msg = common.Extended
  /\ common.Payload msg = Ret [x00]
  /\ common.WireMessage_KeepAlive msg = Ret false.
Proof.
  apply (X1_new_message_is_a_frame common.Extended [x00]).
  vm_compute. reflexivity.
Defined.

Lemma GetHave_NewHave (idx : Z) :
  is_u32 idx -> common.GetHave (common.NewHave idx) = Ret idx.
Proof.
  intros Hidx. unfold common.GetHave, common.NewHave.
  rewrite MessageID_NewWireMessage.
  destruct (decide (common.Have = common.Have)); [|done].
  rewrite Payload_NewWireMessage by (vm_compute; reflexivity).
  simpl. by rewrite be32_bytes.
Qed.

(** X2.  [GetHave] reads back the index [NewHave] was given. *)
Theorem X2_have_round_trip (idx : Z) :
  is_u32 idx -> common.GetHave (common.NewHave idx) = Ret idx.
Proof. exact (GetHave_NewHave idx). Qed.

Lemma X2_have_round_trip_witness :
  common.GetHave (common.NewHave 4294967295) = Ret 4294967295.
Proof. apply X2_have_round_trip. unfold is_u32. lia. Defined.

Lemma MessageID_known (msg : list byte) (id : byte) :
  common.MessageID msg = id -> id <> common.Invalid ->
  exists (b0 b1 b2 b3 : byte) (rest : list byte),
    msg = b0 :: b1 :: b2 :: b3 :: id :: rest.
Proof.
  unfold common.MessageID. intros Hid Hne.
  destruct (Z.ltb_spec 4 (len msg)) as [Hlen|]; [|congruence].
  destruct msg as [|b0 [|b1 [|b2 [|b3 [|b4 rest]]]]];
    try (unfold len in Hlen; simpl in Hlen; lia).
  simpl in Hid. subst. by eexists _, _, _, _, _.
Qed.

Lemma Payload_of_frame (b0 b1 b2 b3 id : byte) (rest : list byte) :
  exists data, common.Payload (b0 :: b1 :: b2 :: b3 :: id :: rest) = Ret data
               /\ (data = rest \/ data = []).
Proof.
  unfold common.Payload, common.Len, binary.Uint32. simpl res_bind.
  destruct (0 <? _).
  - exists rest. split; [|by left].
    apply (slice_from_app [b0; b1; b2; b3; id] rest). reflexivity.
  - exists []. split; [done|by right].
Qed.

(** X3.  The parsers never panic, whatever bytes they are given: each
    returns its zero value unless the id is the one it parses and the
    message has the size of that message type (17 bytes for a request, 9
    for a have, more than 13 for a piece). *)
Theorem X3_parsers_are_guarded (msg : list byte) :
  (exists r, common.GetPieceRequest msg = Ret r
     /\ (r <> common.zeroPieceRequest ->
         common.MessageID msg = common.Request /\ len msg = 17))
  /\ (exists p, common.GetPieceData msg = Ret p
     /\ (p <> common.zeroPieceData ->
         common.MessageID msg = common.Piece /\ 13 < len msg))
  /\ (exists h, common.GetHave msg = Ret h
     /\ (h <> 0 -> common.MessageID msg = common.Have /\ len msg = 9)).
Proof.
  split; [|split].
  - unfold common.GetPieceRequest.
    destruct (decide (common.MessageID msg = common.Request)) as [Hid|];
      [|by eexists].
    destruct (MessageID_known msg _ Hid) as (b0 & b1 & b2 & b3 & rest & ->); [done|].
    destruct (Payload_of_frame b0 b1 b2 b3 common.Request rest)
      as (data & -> & [-> | ->]); simpl res_bind; [|by eexists].
    destruct (Z.eqb_spec (len rest) 12) as [Hlen|]; [|by eexists].
    destruct rest as [|c0 [|c1 [|c2 [|c3 [|c4 [|c5 [|c6 [|c7 [|c8 [|c9 [|c10
      [|c11 [|]]]]]]]]]]]]]; try (unfold len in Hlen; simpl in Hlen; lia).
    eexists. split; [reflexivity|]. intros _. split; [done|reflexivity].
  - unfold common.GetPieceData.
    destruct (decide (common.MessageID msg = common.Piece)) as [Hid|];
      [|by eexists].
    destruct (MessageID_known msg _ Hid) as (b0 & b1 & b2 & b3 & rest & ->); [done|].
    destruct (Payload_of_frame b0 b1 b2 b3 common.Piece rest)
      as (data & -> & [-> | ->]); simpl res_bind; [|by eexists].
    destruct (Z.ltb_spec 8 (len rest)) as [Hlen|]; [|by eexists].
    destruct rest as [|c0 [|c1 [|c2 [|c3 [|c4 [|c5 [|c6 [|c7 [|c8 rest]]]]]]]]];
      try (unfold len in Hlen; simpl in Hlen; lia).
    rewrite (slice_from_app [c0; c1; c2; c3] (c4 :: c5 :: c6 :: c7 :: c8 :: rest))
      by reflexivity.
    rewrite (slice_from_app [c0; c1; c2; c3; c4; c5; c6; c7] (c8 :: rest))
      by reflexivity.
    eexists. split; [reflexivity|]. intros _. split; [done|].
    unfold len. simpl. lia.
  - unfold common.GetHave.
    destruct (decide (common.MessageID msg = common.Have)) as [Hid|];
      [|by eexists].
    destruct (MessageID_known msg _ Hid) as (b0 & b1 & b2 & b3 & rest & ->); [done|].
    destruct (Payload_of_frame b0 b1 b2 b3 common.Have rest)
      as (data & -> & [-> | ->]); simpl res_bind; [|by eexists].
    destruct (Z.eqb_spec (len rest) 4) as [Hlen|]; [|by eexists].
    destruct rest as [|c0 [|c1 [|c2 [|c3 [|]]]]];
      try (unfold len in Hlen; simpl in Hlen; lia).
    eexists. split; [reflexivity|]. intros _. split; [done|reflexivity].
Qed.

(** ** The wire reader on arbitrary streams *)

(** X4.  On every finite stream and with every handler the reader comes
    back: it returns an error (the end of the stream at the latest) or
    panics on an oversize frame; the fuel of the model is never the
    reason. *)
Theorem X4_reader_returns (r : list byte) (f : common.WireMessage -> option error) :
  (exists e tr, common.ReadWireMessages r f = Ret (e, tr))
  \/ common.ReadWireMessages r f = Panic.
Proof.
  pose proof (ReadWireMessages_ends r f) as Hends.
  destruct (common.ReadWireMessages r f) as [[e tr]| |]; [left|by right|done].
  by eexists _, _.
Qed.

(** Two handlers that agree on the messages that fill the whole buffer
    cannot be told apart by the loop. *)
Lemma ReadWireMessages_loop_handler fuel (f f' : common.WireMessage -> option error)
    msg r tr :
  (forall m, len m = common.MaxWireMessageSize + 4 -> f m = f' m) ->
  len msg = common.MaxWireMessageSize + 4 ->
  common.ReadWireMessages_loop fuel f msg r tr
  = common.ReadWireMessages_loop fuel f' msg r tr.
Proof.
  intros Hff. revert msg r tr.
  induction fuel as [|fuel IH]; intros msg r tr Hmsg; [done|].
  simpl.
  destruct (common.ReadFull r 4) as [[got r1] err] eqn:Hrf.
  set (msg1 := got ++ drop (length got) msg) in *.
  assert (Hgot : (length got <= 4)%nat).
  { unfold common.ReadFull in Hrf. repeat case_decide; simplify_eq; simpl; try lia.
    rewrite length_take. lia. }
  assert (Hmsg1 : len msg1 = common.MaxWireMessageSize + 4).
  { unfold msg1, len in *. rewrite length_app, length_drop.
    change (common.MaxWireMessageSize + 4) with 32772 in *. lia. }
  destruct (binary.Uint32 (take 4 msg1)) as [l| |] eqn:Hl; simpl; try done.
  destruct (0 <? l) eqn:Hpos.
  - destruct (l <? common.MaxWireMessageSize) eqn:Hsmall.
    + destruct (common.CopyN_Discard r1 l) as [r2 [e2|]]; [done|by apply IH].
    + destruct (slice msg1 4 (u32 (4 + l))) as [body| |] eqn:Hbody; simpl; try done.
      destruct (common.ReadFull r1 (length body)) as [[got2 r2] err2] eqn:Hrf2.
      set (msg2 := take 4 msg1 ++ got2 ++ drop (S (S (S (S (length got2))))) msg1) in *.
      apply Z.ltb_ge in Hsmall. apply Z.ltb_lt in Hpos.
      unfold slice in Hbody.
      destruct ((0 <=? 4) && (4 <=? u32 (4 + l)) && (u32 (4 + l) <=? len msg1))
        eqn:Hb; [|done].
      apply andb_prop in Hb as [Hb Hb3]. apply andb_prop in Hb as [_ Hb2].
      apply Z.leb_le in Hb2, Hb3.
      destruct err2 as [e2|]; [done|].
      destruct (slice_to msg2 (u32 (4 + l))) as [m'| |] eqn:Hm; simpl; try done.
      assert (Hlenbody : len body = u32 (4 + l) - 4).
      { simplify_eq. unfold len in *. rewrite length_take, length_drop. lia. }
      assert (Hgot2 : length got2 = length body).
      { unfold common.ReadFull in Hrf2. repeat case_decide; simplify_eq; simpl; try lia.
        rewrite length_take. lia. }
      assert (Hmsg2 : len msg2 = common.MaxWireMessageSize + 4).
      { unfold msg2, len in *.
        rewrite !length_app, length_take, length_drop. lia. }
      assert (Hl32 : 0 <= l < 2 ^ 32) by (by eapply Uint32_range).
      assert (Hl' : l = common.MaxWireMessageSize).
      { change common.MaxWireMessageSize with 32768 in *.
        unfold u32 in *.
        destruct (Z_lt_le_dec (4 + l) (2 ^ 32)).
        - rewrite Z.mod_small in * by lia. lia.
        - replace ((4 + l) mod 2 ^ 32) with (4 + l - 2 ^ 32) in *; [lia|].
          apply Z.mod_unique with 1; lia. }
      assert (Hm' : len m' = common.MaxWireMessageSize + 4).
      { subst l. unfold slice_to, slice in Hm.
        destruct ((0 <=? 0) && (0 <=? u32 (4 + common.MaxWireMessageSize))
                  && (u32 (4 + common.MaxWireMessageSize) <=? len msg2));
          [|done].
        injection Hm as <-. unfold len in *. rewrite length_take, length_drop.
        change (u32 (4 + common.MaxWireMessageSize)) with 32772.
        change (common.MaxWireMessageSize + 4) with 32772 in *. lia. }
      rewrite <- (Hff m' Hm').
      destruct (f m'); [done|by apply IH].
  - destruct err as [e1|]; [done|by apply IH].
Qed.

(** X5.  Whatever the stream, and whether the run returns or panics,
    the handler is called only on messages that fill the whole buffer,
    32772 bytes with the prefix: two handlers that agree on the messages
    of that length give the same run, so what a handler would do with a
    shorter frame never matters; and every message in the trace of a run
    that returns is 32772 bytes long. *)
Theorem X5_reader_dispatches_only_full_frames
    (r : list byte) (f f' : common.WireMessage -> option error) :
  (forall m, len m = 32772 -> f m = f' m) ->
  common.ReadWireMessages r f = common.ReadWireMessages r f'
  /\ forall e tr m,
       common.ReadWireMessages r f = Ret (e, tr) ->
       common.Dispatched m ∈ tr -> len m = 32772.
Proof.
  intros Hff. split.
  - unfold common.ReadWireMessages.
    apply ReadWireMessages_loop_handler; [exact Hff|].
    unfold len. rewrite length_replicate. apply Z2Nat.id. done.
  - intros e tr m Hrun Hin.
    exact (ReadWireMessages_dispatches_only_full r f e tr Hrun m Hin).
Qed.

(** A handler that accepts every frame and one that refuses every frame
    shorter than the buffer, on a CHOKE frame followed by a frame that
    announces 32769 bytes: the two runs are the same, and they panic. *)
Lemma X5_reader_dispatches_only_full_frames_witness :
  let f : common.WireMessage -> option error := fun _ => None in
  let f' : common.WireMessage -> option error :=
    fun m => if len m =? 32772 then None else Some ErrInvalidPiece in
  let r := [x00; x00; x00; x01; x00; x00; x00; x80; x01; x07] in
  common.ReadWireMessages r f = Panic
  /\ common.ReadWireMessages r f = common.ReadWireMessages r f'
  /\ forall e tr m,
       common.ReadWireMessages r f = Ret (e, tr) ->
       common.Dispatched m ∈ tr -> len m = 32772.
Proof.
  intros f f' r. split; [vm_compute; reflexivity|].
  apply (X5_reader_dispatches_only_full_frames r f f').
  intros m Hm. unfold f, f'. rewrite Hm. reflexivity.
Defined.

Lemma ReadWireMessages_loop_more_fuel fuel fuel' f msg r tr :
  (fuel <= fuel')%nat ->
  common.ReadWireMessages_loop fuel f msg r tr <> NoFuel ->
  common.ReadWireMessages_loop fuel' f msg r tr
  = common.ReadWireMessages_loop fuel f msg r tr.
Proof.
  revert fuel' msg r tr.
  induction fuel as [|fuel IH]; intros fuel' msg r tr Hle Hends; [done|].
  destruct fuel' as [|fuel']; [lia|]. simpl in *.
  destruct (common.ReadFull r 4) as [[got r1] err].
  destruct (binary.Uint32 _) as [l| |]; simpl in *; try done.
  destruct (0 <? l).
  - destruct (l <? common.MaxWireMessageSize).
    + destruct (common.CopyN_Discard r1 l) as [r2 [e2|]]; [done|].
      apply IH; [lia|done].
    + destruct (slice _ 4 _) as [body| |]; simpl in *; try done.
      destruct (common.ReadFull r1 _) as [[got2 r2] [e2|]]; [done|].
      destruct (slice_to _ _) as [m| |]; simpl in *; try done.
      destruct (f m); [done|]. apply IH; [lia|done].
  - destruct err; [done|]. apply IH; [lia|done].
Qed.

(** X6.  A keep-alive frame at the head of the stream changes nothing:
    the reader skips it without calling the handler and goes on as if the
    stream had started behind it. *)
Theorem X6_keep_alive_is_skipped
    (r : list byte) (f : common.WireMessage -> option error) :
  common.ReadWireMessages (common.KeepAlive ++ r) f = common.ReadWireMessages r f.
Proof.
  unfold common.ReadWireMessages.
  set (n := Z.to_nat (common.MaxWireMessageSize + 4)).
  assert (Hn : n = (4 + (n - 4))%nat) by (unfold n, common.MaxWireMessageSize; lia).
  set (buf := replicate n x00).
  assert (Hbuf : buf = [x00; x00; x00; x00] ++ replicate (n - 4) x00).
  { unfold buf. rewrite Hn at 1. by rewrite replicate_add. }
  change (length (common.KeepAlive ++ r)) with (S (S (S (S (length r))))).
  change (common.ReadWireMessages_loop (S (S (S (S (S (length r)))))) f buf
            (common.KeepAlive ++ r) [])
    with (let '(got, r1, err) := common.ReadFull (common.KeepAlive ++ r) 4 in
          let msg1 := got ++ drop (length got) buf in
          do l <- binary.Uint32 (take 4 msg1);
          let continue r' msg' (err' : option error) tr' :=
            match err' with
            | None => common.ReadWireMessages_loop (S (S (S (S (length r))))) f msg' r' tr'
            | Some e => Ret (e, tr')
            end in
          if 0 <? l then
            if l <? common.MaxWireMessageSize then
              let '(r2, err2) := common.CopyN_Discard r1 l in
              continue r2 msg1 err2 ([] ++ [common.Discarded l])
            else
              do body <- slice msg1 4 (u32 (4 + l));
              let '(got2, r2, err2) := common.ReadFull r1 (length body) in
              let msg2 := take 4 msg1 ++ got2 ++ drop (4 + length got2) msg1 in
              match err2 with
              | None =>
                  do m <- slice_to msg2 (u32 (4 + l));
                  continue r2 msg2 (f m) ([] ++ [common.Dispatched m])
              | Some e => continue r2 msg2 err2 []
              end
          else continue r1 msg1 err []).
  assert (Hrf : common.ReadFull (common.KeepAlive ++ r) 4
                = ([x00; x00; x00; x00], r, None)).
  { unfold common.ReadFull, common.KeepAlive. simpl.
    repeat case_decide; try done; simpl in *; lia. }
  rewrite Hrf. cbv zeta.
  assert (Hmsg1 : [x00; x00; x00; x00] ++ drop (length [x00; x00; x00; x00]) buf = buf).
  { rewrite Hbuf. reflexivity. }
  rewrite Hmsg1.
  assert (Hhdr : binary.Uint32 (take 4 buf) = Ret 0) by (rewrite Hbuf; reflexivity).
  rewrite Hhdr. unfold res_bind at 1. change (0 <? 0) with false. cbv iota.
  apply ReadWireMessages_loop_more_fuel; [lia|].
  apply ReadWireMessages_loop_ends. lia.
Qed.

(** ** Manifests: announce URLs, total size, piece layout *)

Lemma announce_inner (al l : list string) :
  fold_left (fun l a => if 0 <? Z.of_nat (String.length a) then l ++ [a] else l) al l
  = l ++ filter (fun u => u <> "") al.
Proof.
  revert l. induction al as [|a al IH]; intros l; simpl.
  - by rewrite app_nil_r.
  - rewrite IH. destruct a as [|c a'].
    + simpl. rewrite filter_cons_False by (intros Hn; by apply Hn). done.
    + change (0 <? Z.of_nat (String.length (String c a'))) with
        (0 <? Z.of_nat (S (String.length a'))).
      destruct (Z.ltb_spec 0 (Z.of_nat (S (String.length a')))); [|lia].
      rewrite filter_cons_True by done. by rewrite <- app_assoc.
Qed.

Lemma announce_outer (lists : list (list string)) (l : list string) :
  fold_left
    (fun l al =>
       fold_left (fun l a => if 0 <? Z.of_nat (String.length a) then l ++ [a] else l)
         al l) lists l
  = l ++ filter (fun u => u <> "") (concat lists).
Proof.
  revert l. induction lists as [|al lists IH]; intros l; simpl.
  - by rewrite app_nil_r.
  - rewrite IH, announce_inner, filter_app. by rewrite <- app_assoc.
Qed.

(** X7.  [GetAllAnnounceURLS] returns, in order, the announce URL and
    then every entry of the announce list, leaving out the empty ones and
    nothing else: a URL that is listed twice is returned twice. *)
Theorem X7_all_announce_urls (tf : metainfo.TorrentFile) :
  metainfo.GetAllAnnounceURLS tf
  = filter (fun u => u <> "")
      (metainfo.Announce tf :: concat (metainfo.AnnounceList tf)).
Proof.
  unfold metainfo.GetAllAnnounceURLS. rewrite announce_outer.
  destruct (metainfo.Announce tf) as [|c a'].
  - simpl. by rewrite filter_cons_False by (intros Hn; by apply Hn).
  - change (0 <? Z.of_nat (String.length (String c a'))) with
      (0 <? Z.of_nat (S (String.length a'))).
    destruct (Z.ltb_spec 0 (Z.of_nat (S (String.length a')))); [|lia].
    by rewrite filter_cons_True by done.
Qed.

Lemma sum_lengths_mod (files : list metainfo.FileInfo) (a : Z) :
  fold_left (fun total f => u64 (total + metainfo.fi_Length f)) files (u64 a)
  = u64 (a + content_length files).
Proof.
  revert a. induction files as [|fi rest IH]; intros a; simpl.
  - by rewrite Z.add_0_r.
  - assert (Hu : u64 (u64 a + metainfo.fi_Length fi) = u64 (a + metainfo.fi_Length fi)).
    { unfold u64. by rewrite Zplus_mod_idemp_l. }
    rewrite Hu, IH. f_equal. lia.
Qed.

(** X8.  [TotalSize] is the sum of the lengths of the files [GetFiles]
    lists, taken modulo 2^64: the loop adds in [uint64] and wraps without
    notice when a manifest declares more. *)
Theorem X8_total_size_is_sum_mod (tf : metainfo.TorrentFile) :
  0 <= metainfo.Length (metainfo.tf_Info tf) < 2 ^ 64 ->
  metainfo.TotalSize tf
  = content_length (metainfo.GetFiles (metainfo.tf_Info tf)) mod 2 ^ 64.
Proof.
  intros Hlen. unfold metainfo.TotalSize, metainfo.IsSingleFile, metainfo.GetFiles.
  destruct (0 <? metainfo.Length (metainfo.tf_Info tf)).
  - simpl. rewrite Z.add_0_r. symmetry. apply Z.mod_small. lia.
  - change 0 with (u64 0) at 1. rewrite sum_lengths_mod. reflexivity.
Qed.

(** Two files of 2^63 bytes each: the total wraps to 0. *)
Lemma X8_total_size_is_sum_mod_witness :
  let tf := metainfo.mkTorrentFile
    (metainfo.mkInfo 16 [] "d"
       [metainfo.mkFileInfo (2 ^ 63) ["a"] []; metainfo.mkFileInfo (2 ^ 63) ["b"] []]
       None 0 [] None) "" [] in
  metainfo.TotalSize tf = (2 ^ 63 + (2 ^ 63 + 0)) mod 2 ^ 64.
Proof.
  intros tf. apply (X8_total_size_is_sum_mod tf). simpl. lia.
Defined.

Lemma sum_const (pl : Z) (k : nat) (f : Z -> Z) :
  (forall i, 0 <= i < Z.of_nat k -> f i = pl) ->
  foldr Z.add 0 (f <$> (Z.of_nat <$> seq 0 k)) = Z.of_nat k * pl.
Proof.
  induction k as [|k IH]; intros Hf; [simpl; lia|].
  rewrite seq_S, !fmap_app, foldr_app. simpl.
  rewrite Hf by lia.
  assert (Hshift : forall l acc, foldr Z.add acc l = foldr Z.add 0 l + acc).
  { induction l as [|x l IHl]; intros acc; simpl; [lia|]. rewrite IHl. lia. }
  rewrite Hshift, IH by (intros i Hi; apply Hf; lia). lia.
Qed.

(** X9.  For a manifest whose piece count agrees with its content
    length the pieces tile the content: piece [i] ends where piece
    [i + 1] starts, the last one ends at [TotalSize], and the piece
    lengths add up to [TotalSize]. *)
Theorem X9_pieces_tile_content (tf : metainfo.TorrentFile) :
  pieces_cover_content tf ->
  let n := metainfo.NumPieces (metainfo.tf_Info tf) in
  let pl := metainfo.PieceLength (metainfo.tf_Info tf) in
  (forall i, 0 <= i < n ->
     pl * i + metainfo.LengthOfPiece tf i
     = if decide (i = n - 1) then metainfo.TotalSize tf else pl * (i + 1))
  /\ foldr Z.add 0 (metainfo.LengthOfPiece tf <$> piece_indices tf)
     = metainfo.TotalSize tf.
Proof.
  intros Hwf n pl.
  pose proof (LengthOfPiece_last tf Hwf) as Hlast. cbv zeta in Hlast. fold n pl in Hlast.
  pose proof (NumPieces_range (metainfo.tf_Info tf)) as Hn. fold n in Hn.
  assert (Hn1 : 1 <= n) by (destruct Hwf as (? & _); done).
  split.
  - intros i Hi. case_decide as Hd.
    + subst i. rewrite Hlast. lia.
    + rewrite LengthOfPiece_inner by (fold n; lia). fold pl. lia.
  - unfold piece_indices. fold n.
    replace (Z.to_nat n) with (S (Z.to_nat (n - 1))) by lia.
    rewrite seq_S, !fmap_app, foldr_app. simpl.
    replace (Z.of_nat (Z.to_nat (n - 1))) with (n - 1) by lia.
    rewrite Hlast, Z.add_0_r.
    assert (Hshift : forall l acc, foldr Z.add acc l = foldr Z.add 0 l + acc).
    { induction l as [|x l IHl]; intros acc; simpl; [lia|]. rewrite IHl. lia. }
    rewrite Hshift, (sum_const pl).
    + rewrite Z2Nat.id by lia. lia.
    + intros i Hi. apply LengthOfPiece_inner. fold n. lia.
Qed.

(** Forty bytes in three pieces of sixteen. *)
Lemma X9_pieces_tile_content_witness :
  let tf := metainfo.mkTorrentFile
    (metainfo.mkInfo 16 (replicate 60 x00) "d"
       [metainfo.mkFileInfo 30 ["a"] []; metainfo.mkFileInfo 10 ["b"] []]
       None 0 [] None) "" [] in
  (forall i, 0 <= i < 3 ->
     16 * i + metainfo.LengthOfPiece tf i
     = if decide (i = 3 - 1) then metainfo.TotalSize tf else 16 * (i + 1))
  /\ foldr Z.add 0 (metainfo.LengthOfPiece tf <$> piece_indices tf)
     = metainfo.TotalSize tf.
Proof.
  intros tf. apply (X9_pieces_tile_content tf).
  unfold pieces_cover_content, is_u32. vm_compute. repeat split; congruence.
Defined.

(** ** The piece store at and beyond the end of the content *)

Lemma content_length_nonneg (files : list metainfo.FileInfo) :
  Forall (fun f => 0 <= metainfo.fi_Length f < 2 ^ 63) files ->
  0 <= content_length files.
Proof. induction 1; simpl; lia. Qed.

Section PastTheEnd.
Context {FS : Type} `{!metainfo.PathLib, !storage.Driver FS}.
Variables (t : storage.fsTorrent) (fs : FS).

Lemma WriteAt_files_past (files : list metainfo.FileInfo) (p : list byte)
    (off n : Z) :
  Forall (fun f => 0 <= metainfo.fi_Length f < 2 ^ 63) files ->
  content_length files <= off < 2 ^ 63 ->
  storage.WriteAt_files t fs files p off n = Ret (n, None, fs).
Proof.
  revert off. induction files as [|fi rest IH]; intros off Hf Hoff; [done|].
  apply Forall_cons in Hf as [Hfi Hrest].
  change (content_length (fi :: rest))
    with (metainfo.fi_Length fi + content_length rest) in Hoff.
  pose proof (content_length_nonneg rest Hrest).
  cbn [storage.WriteAt_files].
  rewrite (i64_small (metainfo.fi_Length fi)) by lia.
  rewrite (proj2 (Z.leb_le _ _)) by lia.
  rewrite i64_small by lia. apply IH; [done|lia].
Qed.

Lemma ReadAt_file_beyond fuel (fi : metainfo.FileInfo) b off out :
  i64 (metainfo.fi_Length fi) <= off ->
  storage.ReadAt_file fuel t fs fi b off out = Ret (storage.NextFile b off out).
Proof.
  intros Hoff. destruct fuel; simpl;
    by destruct (Z.ltb_spec off (i64 (metainfo.fi_Length fi))); [lia|].
Qed.

Lemma ReadAt_files_past (files : list metainfo.FileInfo) (b : list byte)
    (off : Z) (out : list byte) :
  Forall (fun f => 0 <= metainfo.fi_Length f < 2 ^ 63) files ->
  content_length files <= off < 2 ^ 63 ->
  storage.ReadAt_files t fs files b off out = Ret (out, Some EOF).
Proof.
  revert off. induction files as [|fi rest IH]; intros off Hf Hoff; [done|].
  apply Forall_cons in Hf as [Hfi Hrest].
  change (content_length (fi :: rest))
    with (metainfo.fi_Length fi + content_length rest) in Hoff.
  pose proof (content_length_nonneg rest Hrest).
  rewrite ReadAt_files_cons.
  rewrite ReadAt_file_beyond by (rewrite i64_small by lia; lia).
  unfold res_bind at 1.
  rewrite (i64_small (metainfo.fi_Length fi)) by lia.
  rewrite i64_small by lia. apply IH; [done|lia].
Qed.

(** X10.  At or past the end of the content nothing is transferred and
    the driver is not called: [WriteAt] reports success with a count of
    zero, dropping the data, and [ReadAt] reports [EOF] with a count of
    zero and the buffer as it was. *)
Theorem X10_past_the_end (p b : list byte) (off : Z) :
  let files := metainfo.GetFiles (metainfo.tf_Info (storage.meta t)) in
  Forall (fun f => 0 <= metainfo.fi_Length f < 2 ^ 63) files ->
  content_length files <= off < 2 ^ 63 ->
  storage.WriteAt t fs p off = Ret (0, None, fs)
  /\ storage.ReadAt t fs b off = Ret (0, Some EOF, b).
Proof.
  intros files Hf Hoff. split.
  - unfold storage.WriteAt. by apply WriteAt_files_past.
  - unfold storage.ReadAt. fold files.
    rewrite (ReadAt_files_past files b off [] Hf Hoff). reflexivity.
Qed.
End PastTheEnd.

(** Three bytes offered at offset 7 of a seven-byte torrent. *)
Lemma X10_past_the_end_witness :
  let tf := metainfo.mkTorrentFile
    (metainfo.mkInfo 4 [] "d"
       [metainfo.mkFileInfo 3 ["a"] []; metainfo.mkFileInfo 4 ["b"] []]
       None 0 [] None) "" [] in
  let t := storage.mkFsTorrent (storage.mkFsStorage "data" "meta")
             (metainfo.IhV1 []) tf None in
  let fs := memfs.mkMemFS ∅ ∅ in
  storage.WriteAt t fs [x01; x02; x03] 7 = Ret (0, None, fs)
  /\ storage.ReadAt t fs [x09; x09] 7 = Ret (0, Some EOF, [x09; x09]).
Proof.
  intros tf t fs. apply (X10_past_the_end t fs [x01; x02; x03] [x09; x09] 7).
  - repeat constructor; simpl; lia.
  - simpl. lia.
Defined.

(** ** Storing a piece and verifying it *)

(** Overwriting a range of a list leaves the bytes outside it alone. *)
Lemma splice_lookup {A} (c p : list A) (off k : nat) :
  (off + length p <= length c)%nat ->
  (k < off \/ off + length p <= k)%nat ->
  (take off c ++ p ++ drop (off + length p) c) !! k = c !! k.
Proof.
  intros Hlen [Hk|Hk].
  - rewrite lookup_app_l by (rewrite length_take; lia). by apply lookup_take_lt.
  - rewrite lookup_app_r by (rewrite length_take; lia).
    rewrite length_take, lookup_app_r by lia.
    rewrite lookup_drop. f_equal. lia.
Qed.

Lemma splice_outside {A} (c p : list A) (off o l : nat) :
  (off + length p <= length c)%nat ->
  (o + l <= off \/ off + length p <= o)%nat ->
  take l (drop o (take off c ++ p ++ drop (off + length p) c))
  = take l (drop o c).
Proof.
  intros Hlen Hout. apply list_eq. intros i.
  rewrite !lookup_take. case_decide; [|done].
  rewrite !lookup_drop. apply splice_lookup; lia.
Qed.

Section PutThenVerify.
Context {sha : Sha1} {paths : metainfo.PathLib}.
Variable t : storage.fsTorrent.

Local Abbreviation info := (metainfo.tf_Info (storage.meta t)).
Local Abbreviation np := (metainfo.NumPieces (metainfo.tf_Info (storage.meta t))).
Local Abbreviation pl := (metainfo.PieceLength (metainfo.tf_Info (storage.meta t))).

(** Where a piece lies in the content. *)
Lemma piece_extent (T idx : Z) :
  pieces_cover_content (storage.meta t) ->
  metainfo.TotalSize (storage.meta t) = T ->
  0 <= idx < np ->
  0 < metainfo.LengthOfPiece (storage.meta t) idx
  /\ 0 < pl < 2 ^ 32
  /\ pl * idx + metainfo.LengthOfPiece (storage.meta t) idx <= T
  /\ (idx < np - 1 ->
      metainfo.LengthOfPiece (storage.meta t) idx = pl).
Proof.
  intros Hwf HT Hidx.
  pose proof (LengthOfPiece_last _ Hwf) as Hlast. cbv zeta in Hlast.
  destruct Hwf as (Hn1 & Hpl & Hlo & Hhi). unfold is_u32 in Hpl.
  rewrite HT in *.
  assert (0 < pl) by nia.
  destruct (decide (idx = np - 1)) as [->|Hne].
  - rewrite Hlast. repeat split; try lia.
  - rewrite LengthOfPiece_inner by lia. repeat split; try lia. nia.
Qed.

(** Reading piece [idx] back from an allocated in-memory layout. *)
Lemma VerifyPiece_mem (fs : memfs.MemFS) (idx : Z) :
  preallocated t fs ->
  pieces_cover_content (storage.meta t) ->
  content_length (metainfo.GetFiles info) < 2 ^ 63 ->
  0 <= idx < np ->
  storage.VerifyPiece t fs idx
  = storage.checkPiece t
      (common.mkPieceData idx 0
         (take (Z.to_nat (metainfo.LengthOfPiece (storage.meta t) idx))
            (drop (Z.to_nat (pl * idx))
               (content t fs (metainfo.GetFiles info))))).
Proof.
  intros Hall Hwf Htot Hidx.
  pose proof (TotalSize_content t fs Hall Htot) as HT.
  destruct (piece_extent _ idx Hwf HT Hidx) as (Hl0 & Hpl & Hend & _).
  unfold storage.VerifyPiece, storage.VisitPiece.
  cbn [common.req_Length common.req_Begin common.req_Index].
  assert (Hoff : i64 (0 + i64 (pl * idx)) = pl * idx).
  { rewrite (i64_small (pl * idx)) by nia. rewrite i64_small by nia. lia. }
  rewrite Hoff.
  set (l := metainfo.LengthOfPiece (storage.meta t) idx) in *.
  assert (Hlen0 : len (replicate (Z.to_nat l) x00) = l)
    by (unfold len; rewrite length_replicate; lia).
  rewrite (ReadAt_mem t fs) by (done || nia || (rewrite Hlen0; lia)).
  rewrite decide_False.
  2:{ intros [Hnil _]. apply (f_equal length) in Hnil.
      rewrite length_replicate in Hnil. simpl in Hnil. lia. }
  rewrite length_replicate. cbn [res_bind].
  destruct (storage.checkPiece t _) as [[e|]| |]; reflexivity.
Qed.

End PutThenVerify.

(** X11.  Take an allocated layout whose file entries name different
    files, a manifest whose piece count agrees with its content length
    (content shorter than 2^63 bytes, digest string shorter than 2^32),
    and a torrent whose bitfield is loaded.  A piece whose data hash to
    the manifest's digest and have the length [LengthOfPiece] gives is
    then stored by [PutPiece] and afterwards found intact by
    [VerifyPiece]; the layout stays allocated, and the verdict on every
    other piece is what it was before.  ([PutPiece] does not look at the
    piece's [Begin]: the data go to the start of the piece.)  Neither
    condition can go: with two entries naming one file the second half
    of the piece overwrites the first, and with more digests than
    content the last piece is empty and reading it reports [EOF]. *)
Theorem X11_put_then_verify {sha : Sha1} {paths : metainfo.PathLib}
    (t : storage.fsTorrent) (fs : memfs.MemFS) (pc : common.PieceData)
    (b : bittorrent.Bitfield) :
  let info := metainfo.tf_Info (storage.meta t) in
  preallocated t fs ->
  distinct_files t ->
  pieces_cover_content (storage.meta t) ->
  content_length (metainfo.GetFiles info) < 2 ^ 63 ->
  len (metainfo.Pieces info) < 2 ^ 32 ->
  storage.bf t = Some b ->
  0 <= common.pc_Index pc ->
  hash_matches info pc ->
  len (common.pc_Data pc)
    = metainfo.LengthOfPiece (storage.meta t) (common.pc_Index pc) ->
  exists fs',
    let t' := storage.with_bf t (Some (bittorrent.Set_ b (common.pc_Index pc))) in
    storage.PutPiece t fs pc = Ret (t', fs', None)
    /\ preallocated t' fs'
    /\ storage.VerifyPiece t' fs' (common.pc_Index pc) = Ret None
    /\ forall j, 0 <= j < metainfo.NumPieces info -> j <> common.pc_Index pc ->
         storage.VerifyPiece t' fs' j = storage.VerifyPiece t fs j.
Proof.
  intros info Hall Hnd Hwf Htot Hsmall Hbf Hidx0 Hm Hlen. subst info.
  destruct pc as [idx bg data]. cbn [common.pc_Index common.pc_Data] in *.
  set (info := metainfo.tf_Info (storage.meta t)) in *.
  set (pl := metainfo.PieceLength info) in *.
  assert (Hidx : 0 <= idx < metainfo.NumPieces info)
    by (destruct Hm as [? _]; simpl in *; lia).
  pose proof (TotalSize_content t fs Hall Htot) as HT.
  destruct (piece_extent t _ idx Hwf HT Hidx) as (Hl0 & Hpl & Hend & Hinner).
  fold info pl in Hpl, Hend, Hinner, HT.
  pose proof (content_length_allocated t fs _ Hall) as Hcl. fold info in Hcl.
  assert (Hoff : i64 (i64 pl * idx) = pl * idx).
  { rewrite (i64_small pl) by lia. apply i64_small. nia. }
  destruct (WriteAt_files_mem t _ fs data (pl * idx) 0 Hall Hnd Htot)
    as (fs' & Hrun & Hall' & Hcont & _); [nia|fold info; lia|lia|lia|].
  fold info in Hcont.
  set (c := content t fs (metainfo.GetFiles info)) in *.
  assert (Hsplice : Z.to_nat (pl * idx + len data)
                    = (Z.to_nat (pl * idx) + length data)%nat)
    by (unfold len; nia).
  rewrite Hsplice in Hcont.
  exists fs'. cbv zeta.
  set (t' := storage.with_bf t (Some (bittorrent.Set_ b idx))).
  assert (Hall2 : preallocated t' fs') by exact Hall'.
  assert (Hread : forall j, 0 <= j < metainfo.NumPieces info ->
    storage.VerifyPiece t' fs' j
    = storage.checkPiece t
        (common.mkPieceData j 0
           (take (Z.to_nat (metainfo.LengthOfPiece (storage.meta t) j))
              (drop (Z.to_nat (pl * j))
                 (take (Z.to_nat (pl * idx)) c ++ data
                    ++ drop (Z.to_nat (pl * idx) + length data) c))))).
  { intros j Hj. rewrite (VerifyPiece_mem t' fs' j Hall2 Hwf Htot Hj).
    rewrite <- Hcont. reflexivity. }
  split; [|split; [exact Hall2|split]].
  - unfold storage.PutPiece, storage.checkPiece.
    rewrite CheckPiece_spec by done.
    rewrite bool_decide_true by done. cbn [res_bind common.pc_Index common.pc_Data].
    unfold storage.WriteAt. fold info pl. fold info in Hrun. rewrite Hoff, Hrun. cbn [res_bind].
    rewrite Hbf. reflexivity.
  - rewrite (Hread idx Hidx).
    rewrite drop_app_length' by (rewrite length_take; unfold len in *; nia).
    rewrite take_app_length' by (unfold len in *; lia).
    unfold storage.checkPiece. rewrite CheckPiece_spec by done.
    rewrite bool_decide_true; [reflexivity|exact Hm].
  - intros j Hj Hne. rewrite (Hread j Hj).
    rewrite (VerifyPiece_mem t fs j Hall Hwf Htot Hj). fold info pl c.
    destruct (piece_extent t _ j Hwf HT Hj) as (Hlj0 & _ & Hjend & Hjinner).
    fold info pl in Hjend, Hjinner.
    rewrite splice_outside; [reflexivity|unfold len in *; nia|].
    destruct (Z_lt_le_dec j idx) as [Hlt|Hge].
    + left. rewrite Hjinner by lia. nia.
    + right. rewrite Hinner in Hlen by lia. unfold len in *. nia.
Qed.

(** Two pieces of two bytes in one file; the second piece arrives. *)
Lemma X11_put_then_verify_witness :
  let tf := metainfo.mkTorrentFile
    (metainfo.mkInfo 2
       (example.checksum [x01; x02] ++ example.checksum [x03; x04])
       "f" [] None 4 [] None) "" [] in
  let b := bittorrent.mkBitfield 2 [x80] in
  let t := storage.mkFsTorrent (storage.mkFsStorage "data" "meta")
             (metainfo.IhV1 []) tf (Some b) in
  let fs := memfs.mkMemFS {[ "data/f" := [x01; x02; x00; x00] ]} ∅ in
  let pc := common.mkPieceData 1 0 [x03; x04] in
  exists fs',
    let t' := storage.with_bf t (Some (bittorrent.Set_ b 1)) in
    storage.PutPiece t fs pc = Ret (t', fs', None)
    /\ preallocated t' fs'
    /\ storage.VerifyPiece t' fs' 1 = Ret None
    /\ forall j, 0 <= j < metainfo.NumPieces (metainfo.tf_Info tf) -> j <> 1 ->
         storage.VerifyPiece t' fs' j = storage.VerifyPiece t fs j.
Proof.
  intros tf b t fs pc. apply (X11_put_then_verify t fs pc b).
  - vm_compute. reflexivity.
  - unfold distinct_files. apply (bool_decide_unpack _). vm_compute. exact I.
  - unfold pieces_cover_content, is_u32. vm_compute. repeat split; congruence.
  - vm_compute. reflexivity.
  - vm_compute. reflexivity.
  - reflexivity.
  - simpl. lia.
  - split; vm_compute; reflexivity.
  - vm_compute. reflexivity.
Defined.

(** Both conditions are needed.  Two entries that name one file: the
    piece is stored and its bit set, and it does not verify.  One digest
    more than there is content: the empty last piece is accepted, and
    verifying it reports [EOF]. *)
Example PutPiece_shared_file_does_not_verify :
  let data := [x01; x02; x03; x04] in
  let tf := metainfo.mkTorrentFile
    (metainfo.mkInfo 4 (example.checksum data) "d"
       [metainfo.mkFileInfo 2 ["a"] []; metainfo.mkFileInfo 2 ["a"] []]
       None 0 [] None) "" [] in
  let b := bittorrent.NewBitfield 1 in
  let t := storage.mkFsTorrent (storage.mkFsStorage "data" "meta")
             (metainfo.IhV1 []) tf (Some b) in
  let fs := memfs.mkMemFS {[ "data/d/a" := [x00; x00] ]} ∅ in
  let t' := storage.with_bf t (Some (bittorrent.Set_ b 0)) in
  let fs' := memfs.mkMemFS {[ "data/d/a" := [x03; x04] ]} ∅ in
  preallocated t fs
  /\ pieces_cover_content tf
  /\ storage.PutPiece t fs (common.mkPieceData 0 0 data) = Ret (t', fs', None)
  /\ storage.VerifyPiece t' fs' 0 = Ret (Some ErrInvalidPiece).
Proof.
  intros data tf b t fs t' fs'.
  split; [vm_compute; reflexivity|].
  split; [unfold pieces_cover_content, is_u32; vm_compute; repeat split; congruence|].
  split; vm_compute; reflexivity.
Qed.

Example PutPiece_empty_last_piece_does_not_verify :
  let data := [x01; x02; x03; x04] in
  let tf := metainfo.mkTorrentFile
    (metainfo.mkInfo 4 (example.checksum data ++ example.checksum []) "f" []
       None 4 [] None) "" [] in
  let b := bittorrent.NewBitfield 2 in
  let t := storage.mkFsTorrent (storage.mkFsStorage "data" "meta")
             (metainfo.IhV1 []) tf (Some b) in
  let fs := memfs.mkMemFS {[ "data/f" := data ]} ∅ in
  let t' := storage.with_bf t (Some (bittorrent.Set_ b 1)) in
  preallocated t fs
  /\ distinct_files t
  /\ metainfo.LengthOfPiece tf 1 = 0
  /\ storage.PutPiece t fs (common.mkPieceData 1 0 []) = Ret (t', fs, None)
  /\ storage.VerifyPiece t' fs 1 = Ret (Some EOF).
Proof.
  intros data tf b t fs t'.
  split; [vm_compute; reflexivity|].
  split; [unfold distinct_files; apply (bool_decide_unpack _); vm_compute; exact I|].
  split; [vm_compute; reflexivity|].
  split; vm_compute; reflexivity.
Qed.

(** ** Verification without a stored bitfield *)

Lemma byte_bit_inverted (x : byte) (j : Z) :
  byte_bit (byte_of_Z (Z.lxor (Z_of_byte x) 255)) j = negb (byte_bit x j).
Proof.
  unfold byte_bit. rewrite Z_of_byte_of_Z.
  pose proof (bit_index_range j).
  change 256 with (2 ^ 8). rewrite Z.mod_pow2_bits_low by lia.
  rewrite Z.lxor_spec. change 255 with (Z.ones 8).
  rewrite Z.ones_spec_low by lia. apply xorb_true_r.
Qed.

Lemma Has_Inverted (b : bittorrent.Bitfield) (j : Z) :
  Bitfield_wf b ->
  bittorrent.Has (bittorrent.Inverted b) j
  = (0 <=? j) && (j <? bittorrent.bf_Length b) && negb (bittorrent.Has b j).
Proof.
  intros Hwf. rewrite !Has_unfold. unfold bittorrent.Inverted.
  cbn [bittorrent.bf_Length bittorrent.bf_Data].
  destruct (Z.leb_spec 0 j); [|done].
  destruct (Z.ltb_spec j (bittorrent.bf_Length b)); [|done].
  destruct (lookup_in_bitfield b j Hwf ltac:(lia)) as [x Hx].
  change (map ?f ?l) with (f <$> l).
  rewrite list_lookup_fmap, Hx. simpl. apply byte_bit_inverted.
Qed.

Lemma Has_all (n j : Z) :
  0 <= n ->
  bittorrent.Has (bittorrent.Inverted (bittorrent.NewBitfield n)) j
  = (0 <=? j) && (j <? n).
Proof.
  intros Hn. rewrite Has_Inverted by (by apply NewBitfield_wf).
  rewrite Has_NewBitfield. cbn [bittorrent.NewBitfield bittorrent.bf_Length].
  by rewrite andb_true_r.
Qed.

Section VerifyFresh.
Context {FS : Type}
  `{!Sha1, !metainfo.PathLib, !storage.InfohashHex, !storage.Driver FS}.
Variables (t : storage.fsTorrent) (fs : FS).

Local Abbreviation info := (metainfo.tf_Info (storage.meta t)).
Local Abbreviation np := (metainfo.NumPieces (metainfo.tf_Info (storage.meta t))).

(** The error [verifyBitfield] is left with is the verdict on the last
    claimed piece. *)
Lemma verifyBitfield_loop_err (chk : bittorrent.Bitfield) (fuel : nat)
    (idx : Z) (has has' : bittorrent.Bitfield) (err err' : option error) :
  0 <= idx ->
  storage.verifyBitfield_loop fuel t fs chk np idx has err = Ret (has', err') ->
  ((forall j, idx <= j < np -> bittorrent.Has chk j = false) -> err' = err)
  /\ (forall j, idx <= j < np -> bittorrent.Has chk j = true ->
        (forall k, j < k < np -> bittorrent.Has chk k = false) ->
        storage.VerifyPiece t fs j = Ret err').
Proof.
  revert idx has err.
  induction fuel as [|fuel IH]; intros idx has err Hidx Hrun.
  - simpl in Hrun. destruct (Z.ltb_spec idx np); [done|].
    injection Hrun as <- <-. split; [done|]. intros j Hj. lia.
  - simpl in Hrun. destruct (Z.ltb_spec idx np) as [Hlt|Hge].
    2:{ injection Hrun as <- <-. split; [done|]. intros j Hj. lia. }
    pose proof (NumPieces_range info) as Hnp.
    assert (Hnext : u32 (idx + 1) = idx + 1)
      by (unfold u32; apply Z.mod_small; lia).
    rewrite Hnext in Hrun.
    destruct (bittorrent.Has chk idx) eqn:Hchk.
    + rewrite visit_as_VerifyPiece in Hrun.
      destruct (storage.VerifyPiece t fs idx) as [verdict| |] eqn:Hv;
        [|done|done].
      assert (Hstep : exists has1,
        storage.verifyBitfield_loop fuel t fs chk np (idx + 1) has1 verdict
        = Ret (has', err')).
      { destruct verdict as [e|]; simpl in Hrun; eauto. }
      destruct Hstep as (has1 & Hrest).
      destruct (IH (idx + 1) has1 verdict ltac:(lia) Hrest) as [Hnone Hlast].
      split.
      * intros Hall. rewrite Hall in Hchk by lia. done.
      * intros j Hj Hcj Hafter.
        destruct (decide (j = idx)) as [->|Hne].
        -- rewrite Hnone; [done|]. intros k Hk. apply Hafter. lia.
        -- apply Hlast; [lia|done|done].
    + simpl in Hrun.
      destruct (IH (idx + 1) has err ltac:(lia) Hrun) as [Hnone Hlast].
      split.
      * intros Hall. apply Hnone. intros j Hj. apply Hall. lia.
      * intros j Hj Hcj Hafter.
        destruct (decide (j = idx)) as [->|Hne]; [congruence|].
        apply Hlast; [lia|done|done].
Qed.

(** X12.  The error [verifyBitfield] returns is the verdict of
    [VerifyPiece] on the last piece the given bitfield claims, and
    [nil] when it claims none: a failure on an earlier piece is
    overwritten by the pieces checked after it. *)
Theorem X12_verify_reports_last_piece (chk has : bittorrent.Bitfield)
    (warn : bool) (err : option error) :
  storage.verifyBitfield t fs chk warn = Ret (has, err) ->
  ((forall j, 0 <= j < np -> bittorrent.Has chk j = false) -> err = None)
  /\ (forall j, 0 <= j < np -> bittorrent.Has chk j = true ->
        (forall k, j < k < np -> bittorrent.Has chk k = false) ->
        storage.VerifyPiece t fs j = Ret err).
Proof.
  unfold storage.verifyBitfield. intros Hrun.
  by apply verifyBitfield_loop_err in Hrun.
Qed.

(** X13.  Without a stored bitfield [VerifyAll] checks every piece:
    bit [i] of the resulting bitfield is set exactly when piece [i]
    verifies.  With [fresh] that bitfield is written to the bitfield
    file and the torrent's cached bitfield is left as it was;
    otherwise it becomes the cached bitfield. *)
Theorem X13_verify_all_without_bitfield (fresh : bool) :
  storage.FindBitfield (storage.st t) fs (storage.ih t) = None ->
  match storage.VerifyAll t fs fresh with
  | Ret (t', fs', err) =>
      exists has,
        (forall i, bittorrent.Has has i = true
                   <-> 0 <= i < np /\ piece_ok t fs i = true)
        /\ if fresh
           then t' = t
                /\ exists e, storage.flushBitfield (storage.st t) fs
                               (storage.ih t) (Some has) = Ret (fs', e)
           else storage.bf t' = Some has
  | Panic => exists i, 0 <= i < np /\ storage.VerifyPiece t fs i = Panic
  | NoFuel => False
  end.
Proof.
  intros Hfind. unfold storage.VerifyAll. rewrite Hfind.
  pose proof (NumPieces_range info) as Hnp.
  set (check := bittorrent.Inverted (bittorrent.NewBitfield np)).
  assert (Hbits : forall has,
    (forall j, bittorrent.Has has j
               = (j <? np) && bittorrent.Has check j && piece_ok t fs j) ->
    forall i, bittorrent.Has has i = true
              <-> 0 <= i < np /\ piece_ok t fs i = true).
  { intros has Hv i. rewrite Hv. unfold check. rewrite Has_all by lia.
    rewrite !andb_true_iff, Z.ltb_lt, Z.leb_le. tauto. }
  destruct fresh.
  - pose proof (verifyBitfield_spec t fs check false) as Hv.
    destruct (storage.verifyBitfield t fs check false) as [[has e]| |];
      cbn [res_bind].
    + unfold storage.flushBitfield.
      destruct (storage.OpenFileWriteOnly _ _) as [fs1 [e1|]]; cbn [res_bind].
      * exists has. split; [exact (Hbits has Hv)|]. split; [done|]. by exists (Some e1).
      * destruct (storage.Bitfield_BEncode _ _ _) as [fs2 e2] eqn:Henc.
        exists has. split; [exact (Hbits has Hv)|]. split; [done|].
        exists e2. by rewrite Henc.
    + destruct Hv as (j & Hj & _ & Hp). by exists j.
    + done.
  - pose proof (verifyBitfield_spec t fs check true) as Hv.
    destruct (storage.verifyBitfield t fs check true) as [[has e]| |];
      cbn [res_bind].
    + destruct e as [e|].
      * exists has. split; [exact (Hbits has Hv)|done].
      * unfold storage.Flush, storage.Bitfield_, storage.flushBitfield.
        cbn [storage.bf storage.with_bf].
        destruct (storage.OpenFileWriteOnly _ _) as [fs1 [e1|]]; cbn [res_bind].
        -- exists has. split; [exact (Hbits has Hv)|done].
        -- destruct (storage.Bitfield_BEncode _ _ _) as [fs2 e2].
           exists has. split; [exact (Hbits has Hv)|done].
    + destruct Hv as (j & Hj & _ & Hp). by exists j.
    + done.
Qed.
End VerifyFresh.

(** Both pieces claimed, the first one damaged on disk, the second one
    intact: no error is reported. *)
Lemma X12_verify_reports_last_piece_witness :
  let tf := metainfo.mkTorrentFile
    (metainfo.mkInfo 2
       (example.checksum [x01; x02] ++ example.checksum [x03; x04])
       "f" [] None 4 [] None) "" [] in
  let chk := bittorrent.mkBitfield 2 [xc0] in
  let t := storage.mkFsTorrent (storage.mkFsStorage "data" "meta")
             (metainfo.IhV1 []) tf None in
  let fs := memfs.mkMemFS {[ "data/f" := [x09; x09; x03; x04] ]} ∅ in
  storage.VerifyPiece t fs 0 = Ret (Some ErrInvalidPiece)
  /\ ((forall j, 0 <= j < metainfo.NumPieces (metainfo.tf_Info tf) ->
         bittorrent.Has chk j = false) -> @None error = None)
  /\ (forall j, 0 <= j < metainfo.NumPieces (metainfo.tf_Info tf) ->
        bittorrent.Has chk j = true ->
        (forall k, j < k < metainfo.NumPieces (metainfo.tf_Info tf) ->
           bittorrent.Has chk k = false) ->
        storage.VerifyPiece t fs j = Ret (@None error)).
Proof.
  intros tf chk t fs. split; [vm_compute; reflexivity|].
  apply (X12_verify_reports_last_piece t fs chk (bittorrent.mkBitfield 2 [x40])
           true None).
  vm_compute. reflexivity.
Defined.

(** A torrent of two pieces with no bitfield file, verified afresh. *)
Lemma X13_verify_all_without_bitfield_witness :
  let tf := metainfo.mkTorrentFile
    (metainfo.mkInfo 2
       (example.checksum [x01; x02] ++ example.checksum [x03; x04])
       "f" [] None 4 [] None) "" [] in
  let t := storage.mkFsTorrent (storage.mkFsStorage "data" "meta")
             (metainfo.IhV1 []) tf None in
  let fs := memfs.mkMemFS {[ "data/f" := [x01; x02; x09; x09] ]} ∅ in
  match storage.VerifyAll t fs true with
  | Ret (t', fs', err) =>
      exists has,
        (forall i, bittorrent.Has has i = true
                   <-> 0 <= i < metainfo.NumPieces (metainfo.tf_Info tf)
                       /\ piece_ok t fs i = true)
        /\ t' = t
           /\ exists e, storage.flushBitfield (storage.st t) fs
                          (storage.ih t) (Some has) = Ret (fs', e)
  | Panic => exists i, 0 <= i < metainfo.NumPieces (metainfo.tf_Info tf)
                       /\ storage.VerifyPiece t fs i = Panic
  | NoFuel => False
  end.
Proof.
  intros tf t fs. apply (X13_verify_all_without_bitfield t fs true).
  vm_compute. reflexivity.
Defined.

(** ** The bitfield file on first use *)

Lemma CountSet_NewBitfield (n : Z) : bittorrent.CountSet (bittorrent.NewBitfield n) = 0.
Proof.
  unfold bittorrent.CountSet.
  induction (bittorrent.indices (bittorrent.NewBitfield n)) as [|i l IH]; [done|].
  rewrite filter_cons_False; [exact IH|].
  by rewrite Has_NewBitfield.
Qed.

Lemma TotalSize_range (tf : metainfo.TorrentFile) :
  0 <= metainfo.Length (metainfo.tf_Info tf) < 2 ^ 64 ->
  0 <= metainfo.TotalSize tf < 2 ^ 64.
Proof.
  intros Hlen. unfold metainfo.TotalSize.
  destruct (metainfo.IsSingleFile tf); [done|].
  pose proof (sum_lengths_mod (metainfo.Files (metainfo.tf_Info tf)) 0) as Hsum.
  change (u64 0) with 0 in Hsum. rewrite Hsum.
  unfold u64. apply Z.mod_pos_bound. lia.
Qed.

Section FirstUse.
Context {FS : Type} `{!storage.InfohashHex, !storage.Driver FS}.

(** X14.  The first [Bitfield()] of a torrent that has no bitfield
    file creates the file with an all-clear bitfield of [NumPieces]
    bits, reads it back and caches it; later calls return the cached
    bitfield without looking at the file system; and
    [DownloadRemaining] is then the whole of [TotalSize]. *)
Theorem X14_first_use_creates_bitfield (t : storage.fsTorrent)
    (fs fs1 fs2 : FS) (e : option error) :
  let name := storage.bitfieldFilename (storage.st t) (storage.ih t) in
  let info := metainfo.tf_Info (storage.meta t) in
  let empty := bittorrent.NewBitfield (metainfo.NumPieces info) in
  let t' := storage.with_bf t (Some empty) in
  storage.bf t = None ->
  storage.FileExists fs name = false ->
  storage.OpenFileWriteOnly fs name = (fs1, None) ->
  storage.Bitfield_BEncode fs1 name empty = (fs2, e) ->
  storage.OpenFileReadOnly fs2 name = None ->
  storage.Bitfield_BDecode fs2 name = Some empty ->
  0 <= metainfo.Length info < 2 ^ 64 ->
  storage.Bitfield_ t fs = (t', fs2, Some empty)
  /\ (forall fs3, storage.Bitfield_ t' fs3 = (t', fs3, Some empty))
  /\ storage.DownloadRemaining t fs
     = Ret (metainfo.TotalSize (storage.meta t), t', fs2).
Proof.
  intros name info empty t' Hbf Hex Hopen Henc Hread Hdec Hlen.
  assert (Hfirst : storage.Bitfield_ t fs = (t', fs2, Some empty)).
  { unfold storage.Bitfield_, storage.HasBitfield, storage.CreateNewBitfield,
      storage.FindBitfield.
    fold name info. rewrite Hbf, Hex. cbv zeta. rewrite Hopen. fold empty.
    rewrite Henc. cbn [fst]. rewrite Hread, Hdec. reflexivity. }
  split; [exact Hfirst|]. split; [intros fs3; reflexivity|].
  unfold storage.DownloadRemaining. rewrite Hfirst.
  cbn [storage.meta storage.with_bf]. unfold empty.
  rewrite CountSet_NewBitfield.
  pose proof (TotalSize_range (storage.meta t) Hlen).
  f_equal. f_equal. f_equal.
  change (u64 0) with 0. rewrite Z.mul_0_l. change (u64 0) with 0.
  rewrite Z.sub_0_r. unfold u64. apply Z.mod_small. lia.
Qed.
End FirstUse.

(** A four-byte torrent of two pieces on an empty in-memory driver. *)
Lemma X14_first_use_creates_bitfield_witness :
  let tf := metainfo.mkTorrentFile
    (metainfo.mkInfo 2
       (example.checksum [x01; x02] ++ example.checksum [x03; x04])
       "f" [] None 4 [] None) "" [] in
  let t := storage.mkFsTorrent (storage.mkFsStorage "data" "meta")
             (metainfo.IhV1 []) tf None in
  let fs := memfs.mkMemFS ∅ ∅ in
  let empty := bittorrent.NewBitfield 2 in
  let t' := storage.with_bf t (Some empty) in
  let fs2 := memfs.mkMemFS {[ "meta/00.bitfield" := [] ]}
                           {[ "meta/00.bitfield" := empty ]} in
  storage.Bitfield_ t fs = (t', fs2, Some empty)
  /\ (forall fs3 : memfs.MemFS, storage.Bitfield_ t' fs3 = (t', fs3, Some empty))
  /\ storage.DownloadRemaining t fs = Ret (4, t', fs2).
Proof.
  intros tf t fs empty t' fs2.
  apply (X14_first_use_creates_bitfield t fs
           (memfs.mkMemFS {[ "meta/00.bitfield" := [] ]} ∅) fs2 None).
  - reflexivity.
  - vm_compute. reflexivity.
  - vm_compute. reflexivity.
  - vm_compute. reflexivity.
  - vm_compute. reflexivity.
  - vm_compute. reflexivity.
  - simpl. lia.
Defined.

(** ** Allocation *)

Section AllocationMem.
Context {paths : metainfo.PathLib}.
Variable t : storage.fsTorrent.

Local Abbreviation zeros f := (replicate (Z.to_nat (metainfo.fi_Length f)) x00).

Lemma exists_insert (fs : memfs.MemFS) (name other : string) (c : list byte) :
  name <> other ->
  memfs.exists_ (memfs.mkMemFS (<[name := c]> (memfs.mem_files fs))
                   (memfs.mem_bitfields fs)) other
  = memfs.exists_ fs other.
Proof.
  intros Hne. unfold memfs.exists_. cbn [memfs.mem_files memfs.mem_bitfields].
  by rewrite lookup_insert_ne.
Qed.

Lemma AllocateFile_mem (fs : memfs.MemFS) (f : metainfo.FileInfo) :
  metainfo.IsSingleFile (storage.meta t) = false ->
  memfs.exists_ fs (storage.fileName t f) = false ->
  storage.AllocateFile t fs f
  = (memfs.mkMemFS (<[storage.fileName t f := zeros f]> (memfs.mem_files fs))
       (memfs.mem_bitfields fs), None).
Proof.
  intros Hmulti Hnone. unfold storage.AllocateFile, storage.fileName in *.
  rewrite Hmulti in *. unfold storage.EnsureFile, memfs.mem_allocator, memfs.ensure_file.
  by rewrite Hnone.
Qed.

(** Allocating files that do not exist yet creates each of them filled
    with zeros and touches nothing else. *)
Lemma Allocate_files_mem (files : list metainfo.FileInfo) :
  forall fs : memfs.MemFS,
  metainfo.IsSingleFile (storage.meta t) = false ->
  NoDup (storage.fileName t <$> files) ->
  Forall (fun f => memfs.exists_ fs (storage.fileName t f) = false) files ->
  exists fs',
    storage.Allocate_files t fs files = (fs', None)
    /\ Forall (fun f => memfs.mem_files fs' !! storage.fileName t f = Some (zeros f))
         files
    /\ (forall name, name ∉ storage.fileName t <$> files ->
          memfs.mem_files fs' !! name = memfs.mem_files fs !! name)
    /\ memfs.mem_bitfields fs' = memfs.mem_bitfields fs.
Proof.
  induction files as [|f rest IH]; intros fs Hmulti Hnd Hnone.
  - exists fs. repeat split; done.
  - rewrite fmap_cons in Hnd. apply NoDup_cons in Hnd as [Hfresh Hnd].
    apply Forall_cons in Hnone as [Hf Hrest].
    cbn [storage.Allocate_files]. rewrite (AllocateFile_mem fs f Hmulti Hf).
    set (fs1 := memfs.mkMemFS _ _).
    destruct (IH fs1 Hmulti Hnd) as (fs' & Hrun & Hfiles & Hframe & Hbits).
    { rewrite Forall_forall in Hrest |- *. intros g Hg.
      unfold fs1. rewrite exists_insert; [by apply Hrest|].
      intros Heq. apply Hfresh. rewrite Heq. by apply list_elem_of_fmap_2. }
    exists fs'. split; [exact Hrun|]. split; [|split].
    + constructor; [|exact Hfiles].
      rewrite Hframe by done. unfold fs1. cbn [memfs.mem_files].
      apply lookup_insert_eq.
    + intros name Hname. rewrite fmap_cons in Hname.
      apply not_elem_of_cons in Hname as [Hne Hname].
      rewrite Hframe by done. unfold fs1. cbn [memfs.mem_files].
      by apply lookup_insert_ne.
    + rewrite Hbits. reflexivity.
Qed.

(** Files holding their declared number of zeros make an allocated
    layout whose content is all zeros. *)
Lemma zeros_allocated (fs : memfs.MemFS) (files : list metainfo.FileInfo) :
  Forall (fun f => 0 <= metainfo.fi_Length f) files ->
  Forall (fun f => memfs.mem_files fs !! storage.fileName t f = Some (zeros f))
    files ->
  allocated t fs files
  /\ content t fs files = replicate (Z.to_nat (content_length files)) x00.
Proof.
  induction files as [|f rest IH]; intros Hpos Hz; [done|].
  apply Forall_cons in Hpos as [Hf Hpos]. apply Forall_cons in Hz as [Hzf Hz].
  destruct (IH Hpos Hz) as [Hall Hcont].
  assert (0 <= content_length rest).
  { clear -Hpos. induction Hpos; simpl; lia. }
  split.
  - apply allocated_cons. split; [|exact Hall].
    unfold file_ready. rewrite Hzf. apply Z.eqb_eq.
    unfold len. rewrite length_replicate. lia.
  - change (content t fs (f :: rest))
      with (file_bytes t fs f ++ content t fs rest).
    rewrite (file_bytes_ready t fs _ _ Hzf), Hcont.
    change (content_length (f :: rest))
      with (metainfo.fi_Length f + content_length rest).
    rewrite Z2Nat.inj_add by lia. by rewrite replicate_add.
Qed.
End AllocationMem.

(** X15.  On the in-memory driver, when the file entries name different
    files, none of which exists yet, with declared lengths that are not
    negative, [Allocate] creates the files that [ReadAt] and [WriteAt]
    later open, each at its declared length and filled with zeros, and
    leaves the bitfield files alone.  For a single-file torrent this is
    shown under the condition that joining the lone path element gives
    the path back: [Allocate] ensures [Join(DataDir, Path)], the readers
    open [Join(DataDir, filepath.Join(Path))]. *)
Theorem X15_allocate_prepares_layout {paths : metainfo.PathLib}
    (t : storage.fsTorrent) (fs : memfs.MemFS) :
  let info := metainfo.tf_Info (storage.meta t) in
  let files := metainfo.GetFiles info in
  (metainfo.IsSingleFile (storage.meta t) = true ->
   metainfo.filepath_Join [metainfo.Path info] = metainfo.Path info) ->
  distinct_files t ->
  Forall (fun f => 0 <= metainfo.fi_Length f) files ->
  Forall (fun f => memfs.exists_ fs (storage.fileName t f) = false) files ->
  exists fs',
    storage.Allocate t fs = (fs', None)
    /\ preallocated t fs'
    /\ content t fs' files = replicate (Z.to_nat (content_length files)) x00
    /\ memfs.mem_bitfields fs' = memfs.mem_bitfields fs.
Proof.
  intros info files Hclean Hnd Hpos Hnone.
  unfold storage.Allocate, preallocated. fold info files.
  destruct (metainfo.IsSingleFile (storage.meta t)) eqn:Hmode.
  - specialize (Hclean eq_refl).
    assert (Hfiles : files = [metainfo.mkFileInfo (metainfo.Length info)
                                [metainfo.Path info] (metainfo.Sum info)]).
    { unfold files, metainfo.GetFiles. unfold metainfo.IsSingleFile in Hmode.
      fold info in Hmode. by rewrite Hmode. }
    rewrite Hfiles in *.
    apply Forall_cons in Hnone as [Hf _].
    assert (Hname : storage.fileName t (metainfo.mkFileInfo (metainfo.Length info)
                      [metainfo.Path info] (metainfo.Sum info))
                    = storage.FilePath t).
    { unfold storage.fileName, storage.FilePath. rewrite Hmode.
      cbn [metainfo.fi_Path]. unfold metainfo.FilePath_FilePath.
      fold info. by rewrite Hclean. }
    rewrite Hname in Hf.
    unfold storage.EnsureFile, memfs.mem_allocator, memfs.ensure_file. rewrite Hf.
    eexists. split; [reflexivity|].
    destruct (zeros_allocated t
      (memfs.mkMemFS (<[storage.FilePath t :=
                          replicate (Z.to_nat (metainfo.Length info)) x00]>
                        (memfs.mem_files fs)) (memfs.mem_bitfields fs))
      [metainfo.mkFileInfo (metainfo.Length info) [metainfo.Path info]
         (metainfo.Sum info)] Hpos) as [Hall Hcont].
    { constructor; [|constructor]. rewrite Hname. cbn [memfs.mem_files metainfo.fi_Length].
      apply lookup_insert_eq. }
    split; [exact Hall|]. split; [exact Hcont|reflexivity].
  - assert (Hfiles : files = metainfo.Files info).
    { unfold files, metainfo.GetFiles. unfold metainfo.IsSingleFile in Hmode.
      fold info in Hmode. by rewrite Hmode. }
    rewrite <- Hfiles.
    destruct (Allocate_files_mem t files fs Hmode Hnd Hnone)
      as (fs' & Hrun & Hz & _ & Hbits).
    exists fs'. split; [exact Hrun|].
    destruct (zeros_allocated t fs' files Hpos Hz) as [Hall Hcont].
    split; [exact Hall|]. split; [exact Hcont|exact Hbits].
Qed.

(** Three files, one of them empty, allocated on an empty driver. *)
Lemma X15_allocate_prepares_layout_witness :
  let tf := metainfo.mkTorrentFile
    (metainfo.mkInfo 4 [] "d"
       [metainfo.mkFileInfo 3 ["a"] []; metainfo.mkFileInfo 0 ["e"] [];
        metainfo.mkFileInfo 4 ["sub"; "b"] []]
       None 0 [] None) "" [] in
  let t := storage.mkFsTorrent (storage.mkFsStorage "data" "meta")
             (metainfo.IhV1 []) tf None in
  let fs := memfs.mkMemFS ∅ ∅ in
  exists fs',
    storage.Allocate t fs = (fs', None)
    /\ preallocated t fs'
    /\ content t fs' (metainfo.GetFiles (metainfo.tf_Info tf))
       = replicate (Z.to_nat (content_length (metainfo.GetFiles (metainfo.tf_Info tf)))) x00
    /\ memfs.mem_bitfields fs' = memfs.mem_bitfields fs.
Proof.
  intros tf t fs. apply (X15_allocate_prepares_layout t fs).
  - vm_compute. discriminate.
  - unfold distinct_files. apply (bool_decide_unpack _). vm_compute. exact I.
  - repeat constructor; simpl; lia.
  - repeat constructor.
Defined.

(** ** Serving piece requests *)

(** X16.  [handlePieceRequest] closes the connection on a nil or
    zero-length request.  On an allocated layout a request that lies
    inside the content is answered with exactly one PIECE message, which
    parses back to the requested index and offset and the bytes on disk;
    the connection is not closed, and the torrent's bitfield is not
    consulted, so unverified bytes are served as well. *)
Theorem X16_piece_request_served {paths : metainfo.PathLib}
    (st : storage.fsTorrent) (fs : memfs.MemFS) (r : common.PieceRequest) :
  let info := metainfo.tf_Info (storage.meta st) in
  let files := metainfo.GetFiles info in
  let off := common.req_Begin r + metainfo.PieceLength info * common.req_Index r in
  preallocated st fs ->
  content_length files < 2 ^ 63 ->
  PieceRequest_wf r ->
  0 <= metainfo.PieceLength info ->
  off + common.req_Length r <= content_length files ->
  common.req_Length r + 9 < 2 ^ 32 ->
  swarm.handlePieceRequest st fs None = Ret [swarm.ConnClose]
  /\ (common.req_Length r = 0 ->
      swarm.handlePieceRequest st fs (Some r) = Ret [swarm.ConnClose])
  /\ (0 < common.req_Length r ->
      exists msg,
        swarm.handlePieceRequest st fs (Some r) = Ret [swarm.ConnSend msg]
        /\ common.GetPieceData msg
           = Ret (common.mkPieceData (common.req_Index r) (common.req_Begin r)
                    (take (Z.to_nat (common.req_Length r))
                       (drop (Z.to_nat off) (content st fs files))))).
Proof.
  intros info files off Hall Htot (Hi & Hb & Hl) Hpl Hend Hfit.
  unfold is_u32 in *.
  split; [reflexivity|]. split.
  - intros Hz. unfold swarm.handlePieceRequest. by rewrite Hz.
  - intros Hpos. unfold swarm.handlePieceRequest.
    destruct (Z.ltb_spec 0 (common.req_Length r)); [|lia].
    unfold storage.VisitPiece. fold info.
    assert (Hoff : i64 (common.req_Begin r
                        + i64 (metainfo.PieceLength info * common.req_Index r)) = off).
    { unfold off. rewrite (i64_small (_ * _)) by nia. apply i64_small. nia. }
    rewrite Hoff.
    assert (Hlen0 : len (replicate (Z.to_nat (common.req_Length r)) x00)
                    = common.req_Length r)
      by (unfold len; rewrite length_replicate; lia).
    rewrite (ReadAt_mem st fs)
      by (done || (unfold off; nia) || (fold info files; rewrite Hlen0; lia)).
    rewrite decide_False.
    2:{ intros [Hnil _]. apply (f_equal length) in Hnil.
        rewrite length_replicate in Hnil. simpl in Hnil. lia. }
    rewrite length_replicate. cbn [res_bind app]. fold info files.
    eexists. split; [reflexivity|].
    apply GetPieceData_ToWireMessage.
    + split; assumption.
    + cbn [common.pc_Data]. intros Hnil. apply (f_equal length) in Hnil.
      rewrite length_take, length_drop in Hnil.
      pose proof (content_length_allocated st fs _ Hall) as Hcl.
      fold info files in Hcl. unfold len in Hcl. simpl in Hnil. unfold off in *. nia.
    + cbn [common.pc_Data]. unfold len. rewrite length_take. lia.
Qed.

(** Two bytes asked for from the middle of a six-byte file; no bitfield
    is loaded. *)
Lemma X16_piece_request_served_witness :
  let tf := metainfo.mkTorrentFile
    (metainfo.mkInfo 4 [] "f" [] None 6 [] None) "" [] in
  let st := storage.mkFsTorrent (storage.mkFsStorage "data" "meta")
              (metainfo.IhV1 []) tf None in
  let fs := memfs.mkMemFS {[ "data/f" := [x01; x02; x03; x04; x05; x06] ]} ∅ in
  let r := common.mkPieceRequest 0 3 2 in
  let files := metainfo.GetFiles (metainfo.tf_Info tf) in
  swarm.handlePieceRequest st fs None = Ret [swarm.ConnClose]
  /\ (common.req_Length r = 0 ->
      swarm.handlePieceRequest st fs (Some r) = Ret [swarm.ConnClose])
  /\ (0 < common.req_Length r ->
      exists msg,
        swarm.handlePieceRequest st fs (Some r) = Ret [swarm.ConnSend msg]
        /\ common.GetPieceData msg
           = Ret (common.mkPieceData 0 3
                    (take (Z.to_nat 2) (drop (Z.to_nat (3 + 4 * 0))
                       (content st fs files))))).
Proof.
  intros tf st fs r files. apply (X16_piece_request_served st fs r).
  - vm_compute. reflexivity.
  - vm_compute. reflexivity.
  - unfold PieceRequest_wf, is_u32. simpl. lia.
  - simpl. lia.
  - vm_compute. discriminate.
  - simpl. lia.
Defined.

(** ** Dialling announced peers *)

Lemma dials_to_app (a : string) (d1 d2 : list string) :
  dials_to a (d1 ++ d2) = dials_to a d1 + dials_to a d2.
Proof. unfold dials_to. by rewrite filter_app, len_app. Qed.

Lemma dials_to_nonneg (a : string) (d : list string) : 0 <= dials_to a d.
Proof. apply len_nonneg. Qed.

Lemma dial_budget_nonneg (a : string) (g : swarm.goroutine) : 0 <= dial_budget a g.
Proof.
  unfold dial_budget. case_decide; [|lia]. destruct (swarm.g_state g); lia.
Qed.

Lemma dial_budgets_nonneg (a : string) (gs : list swarm.goroutine) :
  0 <= dial_budgets a gs.
Proof.
  induction gs as [|g gs IH]; simpl; [lia|].
  pose proof (dial_budget_nonneg a g). lia.
Qed.

Lemma dial_budgets_insert (a : string) (gs : list swarm.goroutine) (i : nat)
    (g g' : swarm.goroutine) :
  gs !! i = Some g ->
  dial_budgets a (<[i := g']> gs)
  = dial_budgets a gs - dial_budget a g + dial_budget a g'.
Proof.
  revert i. induction gs as [|x gs IH]; intros i Hi; [done|].
  destruct i as [|i]; simpl in *.
  - injection Hi as ->. lia.
  - rewrite (IH i Hi). lia.
Qed.

(** One step of a goroutine pays for the dial it starts. *)
Lemma step_goroutine_budget (a : string) o t dials g :
  let r := swarm.step_goroutine o t dials g in
  dials_to a r.1.2 + dial_budget a r.2 <= dials_to a dials + dial_budget a g.
Proof.
  unfold swarm.step_goroutine, dial_budget.
  destruct g as [ga gid gst]. cbn [swarm.g_addr swarm.g_state swarm.g_id].
  destruct gst as [n|n|]; cbn [fst snd].
  - destruct (swarm.closing t); cbn [fst snd swarm.g_addr swarm.g_state].
    { case_decide; lia. }
    destruct (swarm.HasIBConn t ga); cbn [fst snd swarm.g_addr swarm.g_state].
    { case_decide; lia. }
    destruct (swarm.HasOBConn t ga); cbn [negb fst snd swarm.g_addr swarm.g_state].
    { lia. }
    rewrite dials_to_app. unfold dials_to at 2.
    case_decide as Ha.
    + rewrite filter_cons_True, filter_nil by done. change (len [ga]) with 1. lia.
    + rewrite filter_cons_False, filter_nil by done. change (len []) with 0. lia.
  - destruct o; cbn [fst snd swarm.g_addr swarm.g_state];
      try (case_decide; lia).
    destruct (Z.leb_spec (n - 1) 0); cbn [swarm.g_state]; case_decide; lia.
  - cbn [fst snd swarm.g_addr swarm.g_state]. lia.
Qed.

Lemma step_budget (a : string) (w : swarm.world) (s : nat * swarm.dial_outcome) :
  dials_to a (swarm.w_dials (swarm.step w s))
    + dial_budgets a (swarm.w_gs (swarm.step w s))
  <= dials_to a (swarm.w_dials w) + dial_budgets a (swarm.w_gs w).
Proof.
  unfold swarm.step.
  destruct (swarm.w_gs w !! s.1) as [g|] eqn:Hg; [|lia].
  pose proof (step_goroutine_budget a s.2 (swarm.w_torrent w) (swarm.w_dials w) g)
    as Hstep. cbv zeta in Hstep.
  destruct (swarm.step_goroutine _ _ _ _) as [[t' d'] g'].
  cbn [fst snd swarm.w_dials swarm.w_gs] in *.
  rewrite (dial_budgets_insert a _ _ g g' Hg). lia.
Qed.

Lemma run_budget (a : string) (w : swarm.world) schedule :
  dials_to a (swarm.w_dials (swarm.run w schedule))
    + dial_budgets a (swarm.w_gs (swarm.run w schedule))
  <= dials_to a (swarm.w_dials w) + dial_budgets a (swarm.w_gs w).
Proof.
  unfold swarm.run. revert w.
  induction schedule as [|s rest IH]; intros w; [simpl; lia|].
  simpl. pose proof (IH (swarm.step w s)). pose proof (step_budget a w s). lia.
Qed.

Lemma dial_budgets_start (a : string) (l : list (string * list byte)) :
  dial_budgets a (swarm.PersistPeer <$> l)
  = 10 * len (filter (fun ai : string * list byte => ai.1 = a) l).
Proof.
  induction l as [|[a' id] l IH]; [done|].
  rewrite fmap_cons. cbn [dial_budgets foldr]. fold (dial_budgets a (swarm.PersistPeer <$> l)).
  rewrite IH. unfold dial_budget. cbn [swarm.PersistPeer swarm.g_addr swarm.g_state fst snd].
  case_decide as Ha.
  - rewrite filter_cons_True by done. unfold len. simpl length. lia.
  - rewrite filter_cons_False by done. lia.
Qed.

(** X17.  Whatever the schedule and the outcomes of the dials, an
    address is handed to [Dial] at most ten times for each
    [PersistPeer] goroutine that [addPeers] started for it. *)
Theorem X17_at_most_ten_dials (Resolve : swarm.Peer -> error + string)
    (t : swarm.Torrent) (peers : list swarm.Peer)
    (schedule : list (nat * swarm.dial_outcome)) (a : string) :
  dials_to a (swarm.w_dials (swarm.run (swarm.announce_peers Resolve t peers) schedule))
  <= 10 * len (filter (fun ai : string * list byte => ai.1 = a)
                 (swarm.addPeers Resolve t peers)).
Proof.
  pose proof (run_budget a (swarm.announce_peers Resolve t peers) schedule) as Hrun.
  pose proof (dial_budgets_nonneg a
    (swarm.w_gs (swarm.run (swarm.announce_peers Resolve t peers) schedule))).
  unfold swarm.announce_peers in Hrun at 3 4.
  cbn [swarm.w_dials swarm.w_gs] in Hrun.
  rewrite dial_budgets_start in Hrun.
  change (dials_to a []) with 0 in Hrun. lia.
Qed.

(** X19.  The goroutines that [addPeers] starts dial nobody but the
    peers it let through: whatever the schedule and the outcomes of the
    dials, every address handed to [Dial] is the address a listed peer
    resolved to, is not the process's own address, and had no outbound
    connection when [addPeers] looked.  (An address that has only an
    inbound connection is let through.) *)
Theorem X19_dials_only_admitted_peers
    (Resolve : swarm.Peer -> error + string) (t : swarm.Torrent)
    (peers : list swarm.Peer) (schedule : list (nat * swarm.dial_outcome))
    (a : string) :
  a ∈ swarm.w_dials (swarm.run (swarm.announce_peers Resolve t peers) schedule) ->
  a <> swarm.self t
  /\ swarm.HasOBConn t a = false
  /\ exists p, p ∈ peers /\ Resolve p = inr a.
Proof.
  intros Hin. apply run_dials_addr in Hin as [Hin|Hin].
  { by apply elem_of_nil in Hin. }
  unfold swarm.announce_peers in Hin. cbn [swarm.w_gs] in Hin.
  apply list_elem_of_fmap in Hin as (g & -> & Hg).
  apply list_elem_of_fmap in Hg as ([a' id] & -> & Hai).
  cbn [swarm.PersistPeer swarm.g_addr fst].
  apply addPeers_filter in Hai as (Hself & Hob & p & Hp & Hres & _).
  split; [exact Hself|]. split; [exact Hob|]. by exists p.
Qed.

(** The tracker names our own address, a peer that is connected outbound
    and a new peer; only the new peer is dialled. *)
Lemma X19_dials_only_admitted_peers_witness :
  let resolve : swarm.Peer -> error + string := fun p => inr (swarm.peer_Dest p) in
  let t := swarm.mkTorrent {[ "out.i2p" := swarm.mkPeerConn None false ]} ∅
             false "self.i2p" in
  let peers := [swarm.mkPeer "self.i2p" []; swarm.mkPeer "out.i2p" [];
                swarm.mkPeer "new.i2p" []] in
  let schedule := [(0%nat, swarm.Failed); (0%nat, swarm.Failed)] in
  swarm.w_dials (swarm.run (swarm.announce_peers resolve t peers) schedule)
    = ["new.i2p"]
  /\ "new.i2p" <> swarm.self t
  /\ swarm.HasOBConn t "new.i2p" = false
  /\ exists p, p ∈ peers /\ resolve p = inr "new.i2p".
Proof.
  intros resolve t peers schedule. split; [vm_compute; reflexivity|].
  apply (X19_dials_only_admitted_peers resolve t peers schedule "new.i2p").
  vm_compute. apply list_elem_of_here.
Defined.

(** ** Inbound peers and broadcasts *)

Lemma len_map_to_list_insert {A} (m : gmap string A) (a : string) (x : A) :
  m !! a = None ->
  len (map_to_list (<[a := x]> m)) = len (map_to_list m) + 1.
Proof.
  intros Hm. unfold len. rewrite (Permutation_length (map_to_list_insert m a x Hm)).
  simpl. lia.
Qed.

(** X20.  An inbound connection from an address that has no inbound
    entry is admitted, whether or not there is an outbound connection to
    the same address: it is stored under the address and marked
    inbound, started and sent the bitfield, the outbound map is left
    alone and the peer count goes up by one.  A further inbound
    connection from that address is closed and changes nothing. *)
Theorem X20_inbound_admission (t : swarm.Torrent) (a : string)
    (c c' : swarm.PeerConn) :
  swarm.HasIBConn t a = false ->
  let t1 := (swarm.onNewPeer t a c).1 in
  (swarm.onNewPeer t a c).2 = [swarm.ConnStart; swarm.ConnSendBitfield]
  /\ swarm.ibconns t1 !! a = Some (swarm.mkPeerConn (swarm.c_bf c) true)
  /\ swarm.obconns t1 = swarm.obconns t
  /\ swarm.NumPeers t1 = swarm.NumPeers t + 1
  /\ swarm.onNewPeer t1 a c' = (t1, [swarm.ConnClose]).
Proof.
  intros Hib. unfold swarm.onNewPeer at 1 2 3. rewrite Hib. cbn [fst snd].
  cbv zeta. split; [done|].
  unfold swarm.addIBPeer.
  split; [apply lookup_insert_eq|]. split; [done|]. split.
  - unfold swarm.NumPeers, swarm.VisitPeers.
    cbn [swarm.obconns swarm.ibconns].
    assert (Hnone : swarm.ibconns t !! a = None).
    { unfold swarm.HasIBConn in Hib. apply bool_decide_eq_false in Hib.
      by apply eq_None_not_Some. }
    pose proof (len_map_to_list_insert (swarm.ibconns t) a
                  (swarm.mkPeerConn (swarm.c_bf c) true) Hnone) as Hlen.
    unfold len in *. rewrite !length_app, !length_fmap. lia.
  - unfold swarm.onNewPeer, swarm.HasIBConn. cbn [swarm.ibconns].
    rewrite bool_decide_true; [done|]. rewrite lookup_insert_eq. by eexists.
Qed.

(** The address is already connected outbound; the inbound connection
    is admitted next to it. *)
Lemma X20_inbound_admission_witness :
  let t := swarm.mkTorrent {[ "a.i2p" := swarm.mkPeerConn None false ]} ∅
             false "self.i2p" in
  let c := swarm.mkPeerConn None false in
  let t1 := (swarm.onNewPeer t "a.i2p" c).1 in
  (swarm.onNewPeer t "a.i2p" c).2 = [swarm.ConnStart; swarm.ConnSendBitfield]
  /\ swarm.ibconns t1 !! "a.i2p" = Some (swarm.mkPeerConn (swarm.c_bf c) true)
  /\ swarm.obconns t1 = swarm.obconns t
  /\ swarm.NumPeers t1 = swarm.NumPeers t + 1
  /\ swarm.onNewPeer t1 "a.i2p" c = (t1, [swarm.ConnClose]).
Proof.
  intros t c. apply (X20_inbound_admission t "a.i2p" c c). vm_compute. reflexivity.
Defined.

Lemma collect_lookup {A} (l : list (string * A)) (m : gmap string A) (a : string) :
  is_Some (fold_left (fun m ac => <[ac.1 := ac.2]> m) l m !! a)
  <-> a ∈ l.*1 \/ is_Some (m !! a).
Proof.
  revert m. induction l as [|[k x] l IH]; intros m.
  - simpl. rewrite elem_of_nil. tauto.
  - cbn [fold_left]. rewrite IH, fmap_cons, elem_of_cons. cbn [fst snd].
    destruct (decide (a = k)) as [->|Hne].
    + rewrite lookup_insert_eq. split; [intros _; left; by left|].
      intros _. right. by eexists.
    + rewrite lookup_insert_ne by done. tauto.
Qed.

Lemma elem_of_keys {A} (m : gmap string A) (a : string) :
  a ∈ (map_to_list m).*1 <-> is_Some (m !! a).
Proof.
  rewrite list_elem_of_fmap. split.
  - intros ([k x] & -> & Hin). apply elem_of_map_to_list in Hin. by eexists.
  - intros [x Hx]. exists (a, x). split; [done|]. by apply elem_of_map_to_list.
Qed.

Lemma broadcastHave_keys (t : swarm.Torrent) (idx : Z) :
  (swarm.broadcastHave t idx).*1
  = (map_to_list
       (fold_left (fun m (ac : string * swarm.PeerConn) => <[ac.1 := ac.2]> m)
          (map_to_list (swarm.obconns t) ++ map_to_list (swarm.ibconns t)) ∅)).*1.
Proof.
  unfold swarm.broadcastHave. cbv zeta.
  rewrite <- list_fmap_compose. apply list_fmap_ext. by intros ? [? ?].
Qed.

Lemma broadcastHave_reaches (t : swarm.Torrent) (idx : Z) (a : string) :
  a ∈ (swarm.broadcastHave t idx).*1 <-> connected t a.
Proof.
  rewrite broadcastHave_keys, elem_of_keys.
  rewrite collect_lookup, fmap_app, elem_of_app, !elem_of_keys, lookup_empty.
  unfold connected, swarm.HasOBConn, swarm.HasIBConn.
  rewrite !bool_decide_eq_true. split; [|tauto].
  intros [?|[? [=]]]. done.
Qed.

(** X21.  [broadcastHave] sends the HAVE message for the piece to every
    address that has an outbound or an inbound connection, once per
    address even when it has both, and to no one else; the message
    parses back to the piece index. *)
Theorem X21_have_reaches_each_peer_once (t : swarm.Torrent) (idx : Z) :
  is_u32 idx ->
  let sent := swarm.broadcastHave t idx in
  NoDup sent.*1
  /\ (forall a, a ∈ sent.*1 <-> connected t a)
  /\ (forall a m, (a, m) ∈ sent -> common.GetHave m = Ret idx).
Proof.
  intros Hidx sent. split; [|split].
  - unfold sent. rewrite broadcastHave_keys. apply NoDup_fst_map_to_list.
  - intros a. apply broadcastHave_reaches.
  - intros a m Hin. unfold sent, swarm.broadcastHave in Hin.
    apply list_elem_of_fmap in Hin as ([k x] & [= -> ->] & _).
    by apply GetHave_NewHave.
Qed.

(** One address connected both ways and one inbound only: two
    messages. *)
Lemma X21_have_reaches_each_peer_once_witness :
  let pc := swarm.mkPeerConn None false in
  let t := swarm.mkTorrent {[ "a.i2p" := pc ]} {[ "a.i2p" := pc; "b.i2p" := pc ]}
             false "self.i2p" in
  swarm.NumPeers t = 3
  /\ length (swarm.broadcastHave t 7) = 2%nat
  /\ NoDup (swarm.broadcastHave t 7).*1
  /\ (forall a, a ∈ (swarm.broadcastHave t 7).*1 <-> connected t a)
  /\ (forall a m, (a, m) ∈ swarm.broadcastHave t 7 -> common.GetHave m = Ret 7).
Proof.
  intros pc t. split; [vm_compute; reflexivity|]. split; [vm_compute; reflexivity|].
  apply (X21_have_reaches_each_peer_once t 7). unfold is_u32. lia.
Defined.

(** ** Announce times *)

(** X22.  The first time a tracker name is looked at, its next announce
    is set one minute ahead and [shouldAnnounce] answers no; from then
    on the stored time is what every later call compares the clock
    with, and the table is no longer changed. *)
Theorem X22_first_announce_waits (announcers : gmap string swarm.torrentAnnounce)
    (name : string) (now0 now1 : Z) :
  announcers !! name = None ->
  now0 <= now1 ->
  let r := swarm.shouldAnnounce announcers now0 now1 name in
  r.2 = false
  /\ r.1 = <[name := swarm.mkTorrentAnnounce (now1 + swarm.Minute) 0]> announcers
  /\ forall now2 now3,
       swarm.shouldAnnounce r.1 now2 now3 name
       = (r.1, now1 + swarm.Minute <? now2).
Proof.
  intros Hnew Hclock. unfold swarm.shouldAnnounce, swarm.nextAnnounceFor.
  rewrite Hnew. cbn [fst snd]. split; [|split; [done|]].
  - apply Z.ltb_ge. unfold swarm.Minute. lia.
  - intros now2 now3. by rewrite lookup_insert_eq.
Qed.

Lemma X22_first_announce_waits_witness :
  let r := swarm.shouldAnnounce ∅ 100 105 "tracker" in
  r.2 = false
  /\ r.1 = <[ "tracker" := swarm.mkTorrentAnnounce (105 + swarm.Minute) 0 ]> ∅
  /\ forall now2 now3,
       swarm.shouldAnnounce r.1 now2 now3 "tracker"
       = (r.1, 105 + swarm.Minute <? now2).
Proof.
  apply (X22_first_announce_waits ∅ "tracker" 100 105); [reflexivity|lia].
Defined.

(** ** Checking a piece against the manifest *)

(** X23.  As long as the digest string is shorter than 2^32 bytes,
    [CheckPiece] never indexes outside it: it returns, and its answer is
    yes exactly when the index is below [NumPieces] and the digest of
    the data equals the twenty bytes the manifest holds for the index.
    The data's length and the piece's [Begin] play no part. *)
Theorem X23_check_piece_decides `{!Sha1} (i : metainfo.Info) (pc : common.PieceData) :
  len (metainfo.Pieces i) < 2 ^ 32 ->
  0 <= common.pc_Index pc ->
  metainfo.CheckPiece i pc = Ret (bool_decide (hash_matches i pc))
  /\ (common.pc_Index pc >= metainfo.NumPieces i ->
      metainfo.CheckPiece i pc = Ret false).
Proof.
  intros Hsmall Hidx. split; [by apply CheckPiece_spec|].
  intros Hout. rewrite CheckPiece_spec by done. f_equal.
  apply bool_decide_eq_false. intros [Hlt _]. lia.
Qed.

(** A block that says it begins at byte 9 of the piece is checked like
    any other. *)
Lemma X23_check_piece_decides_witness :
  let i := metainfo.mkInfo 4 (example.checksum [x01; x02; x03; x04]) "f" []
             None 4 [] None in
  let pc := common.mkPieceData 0 9 [x04; x03; x02; x01] in
  metainfo.CheckPiece i pc = Ret (bool_decide (hash_matches i pc))
  /\ (common.pc_Index pc >= metainfo.NumPieces i ->
      metainfo.CheckPiece i pc = Ret false).
Proof.
  intros i pc. apply (X23_check_piece_decides i pc).
  - vm_compute. reflexivity.
  - simpl. lia.
Defined.

(** ** Writing inside the content *)

Lemma WriteAt_files_bitfields {paths : metainfo.PathLib} (t : storage.fsTorrent)
    (files : list metainfo.FileInfo) :
  forall (fs fs' : memfs.MemFS) (p : list byte) (off n n' : Z) (e : option error),
  storage.WriteAt_files t fs files p off n = Ret (n', e, fs') ->
  memfs.mem_bitfields fs' = memfs.mem_bitfields fs.
Proof.
  induction files as [|fi rest IH]; intros fs fs' p off n n' e Hrun.
  - simpl in Hrun. by injection Hrun as _ _ <-.
  - rewrite WriteAt_files_cons in Hrun. cbv zeta in Hrun.
    destruct (_ <=? off); [by eapply IH|].
    unfold storage.openfileWrite in Hrun.
    cbn [storage.OpenFileWriteOnly memfs.mem_driver] in Hrun.
    set (fname := storage.fileName t fi) in *.
    assert (Hopen : exists fs1, memfs.open_write fs fname = (fs1, None)
                      /\ memfs.mem_bitfields fs1 = memfs.mem_bitfields fs).
    { unfold memfs.open_write. destruct (memfs.exists_ fs fname); eauto. }
    destruct Hopen as (fs1 & Hopen & Hb1). rewrite Hopen in Hrun.
    destruct (slice_to p _) as [chunk| |]; cbn [res_bind] in Hrun; [|done|done].
    cbn [storage.File_WriteAt memfs.mem_driver] in Hrun.
    assert (Hwrite : memfs.mem_bitfields (memfs.write_at fs1 fname chunk off).1.1
                     = memfs.mem_bitfields fs1).
    { unfold memfs.write_at. destruct (memfs.mem_files fs1 !! fname); [|done].
      by destruct (off <? 0). }
    destruct (memfs.write_at fs1 fname chunk off) as [[fs2 n1] [e1|]];
      cbn [fst] in Hwrite.
    + injection Hrun as _ _ <-. congruence.
    + destruct (slice_from p n1) as [p'| |]; cbn [res_bind] in Hrun; [|done|done].
      destruct (len p' =? 0).
      * injection Hrun as _ _ <-. congruence.
      * apply IH in Hrun. congruence.
Qed.

(** X24.  On an allocated layout whose file entries name different
    files, with content shorter than 2^63 bytes, a write that lies
    inside the content replaces exactly the addressed range of the
    linear content: the bytes before and after it stay, every file keeps
    its length, and no file outside the torrent and no bitfield file is
    touched.  (With two entries naming one file the later part of the
    write lands on the earlier.) *)
Theorem X24_write_replaces_range {paths : metainfo.PathLib}
    (t : storage.fsTorrent) (fs : memfs.MemFS) (p : list byte) (off : Z) :
  let files := metainfo.GetFiles (metainfo.tf_Info (storage.meta t)) in
  preallocated t fs ->
  distinct_files t ->
  content_length files < 2 ^ 63 ->
  0 <= off ->
  off + len p <= content_length files ->
  exists fs',
    storage.WriteAt t fs p off = Ret (len p, None, fs')
    /\ preallocated t fs'
    /\ content t fs' files
       = take (Z.to_nat off) (content t fs files) ++ p
           ++ drop (Z.to_nat (off + len p)) (content t fs files)
    /\ (forall name, name ∉ storage.fileName t <$> files ->
          memfs.mem_files fs' !! name = memfs.mem_files fs !! name)
    /\ memfs.mem_bitfields fs' = memfs.mem_bitfields fs.
Proof.
  intros files Hall Hnd Htot Hoff Hend.
  pose proof (len_nonneg p).
  destruct (WriteAt_files_mem t files fs p off 0 Hall Hnd Htot Hoff Hend)
    as (fs' & Hrun & Hall' & Hcont & Hframe); [lia|lia|].
  exists fs'. split; [exact Hrun|]. split; [exact Hall'|].
  split; [exact Hcont|]. split; [exact Hframe|].
  exact (WriteAt_files_bitfields t files fs fs' p off 0 _ _ Hrun).
Qed.

(** Two bytes written over the boundary between two files. *)
Lemma X24_write_replaces_range_witness :
  let tf := metainfo.mkTorrentFile
    (metainfo.mkInfo 4 [] "d"
       [metainfo.mkFileInfo 3 ["a"] []; metainfo.mkFileInfo 4 ["b"] []]
       None 0 [] None) "" [] in
  let t := storage.mkFsTorrent (storage.mkFsStorage "data" "meta")
             (metainfo.IhV1 []) tf None in
  let fs := memfs.mkMemFS
    {[ "data/d/a" := [x01; x02; x03]; "data/d/b" := [x04; x05; x06; x07];
       "data/other" := [x09] ]} ∅ in
  let files := metainfo.GetFiles (metainfo.tf_Info tf) in
  let p := [xaa; xbb] in
  exists fs',
    storage.WriteAt t fs p 2 = Ret (len p, None, fs')
    /\ preallocated t fs'
    /\ content t fs' files
       = take (Z.to_nat 2) (content t fs files) ++ p
           ++ drop (Z.to_nat (2 + len p)) (content t fs files)
    /\ (forall name, name ∉ storage.fileName t <$> files ->
          memfs.mem_files fs' !! name = memfs.mem_files fs !! name)
    /\ memfs.mem_bitfields fs' = memfs.mem_bitfields fs.
Proof.
  intros tf t fs files p. apply (X24_write_replaces_range t fs p 2).
  - vm_compute. reflexivity.
  - unfold distinct_files. apply (bool_decide_unpack _). vm_compute. exact I.
  - vm_compute. reflexivity.
  - lia.
  - vm_compute. discriminate.
Defined.

(** ** Transfers that run past the end of the content *)

Section Overhang.
Context {paths : metainfo.PathLib}.
Variable t : storage.fsTorrent.

Lemma allocated_nonneg (fs : memfs.MemFS) (files : list metainfo.FileInfo) :
  allocated t fs files -> 0 <= content_length files.
Proof.
  intros Hall. rewrite <- (content_length_allocated t fs files Hall).
  apply len_nonneg.
Qed.

(** A read that starts inside the content and wants more than is left
    gets what is left, and [EOF]. *)
Lemma ReadAt_files_over (fs : memfs.MemFS) (files : list metainfo.FileInfo) :
  forall (b : list byte) (off : Z) (out : list byte),
  allocated t fs files ->
  content_length files < 2 ^ 63 ->
  len b < 2 ^ 63 ->
  0 <= off <= content_length files ->
  content_length files < off + len b ->
  storage.ReadAt_files t fs files b off out
  = Ret (out ++ drop (Z.to_nat off) (content t fs files), Some EOF).
Proof.
  induction files as [|fi rest IH]; intros b off out Hall Htot Hb Hoff Hover.
  - simpl. change (content t fs []) with (@nil byte).
    by rewrite drop_nil, app_nil_r.
  - apply allocated_cons in Hall as [Hfi Hrest].
    apply file_ready_spec in Hfi as (c & Hc & Hlen).
    pose proof (len_nonneg c) as Hc0.
    pose proof (allocated_nonneg fs rest Hrest) as Hrest0.
    change (content_length (fi :: rest))
      with (metainfo.fi_Length fi + content_length rest) in *.
    change (content t fs (fi :: rest))
      with (file_bytes t fs fi ++ content t fs rest).
    rewrite (file_bytes_ready _ _ _ _ Hc).
    assert (Hfil : i64 (metainfo.fi_Length fi) = len c)
      by (rewrite <- Hlen; apply i64_small; lia).
    rewrite ReadAt_files_cons.
    destruct (Z_lt_le_dec off (len c)) as [Hin|Hpast].
    + rewrite (ReadAt_file_mem t fs fi c b off out) by (done || lia).
      destruct (Z.leb_spec (len b) (len c - off)) as [Hfit|_]; [lia|].
      cbn [res_bind]. rewrite Hfil, Z.sub_diag. change (i64 0) with 0.
      rewrite IH; [|done|lia| |lia|].
      * f_equal. f_equal. rewrite <- app_assoc. f_equal.
        rewrite drop_app_le by (unfold len in *; lia).
        change (Z.to_nat 0) with 0%nat. by rewrite drop_0.
      * rewrite len_drop. unfold len in *. lia.
      * rewrite len_drop. unfold len in *. lia.
    + rewrite ReadAt_file_past by lia. cbn [res_bind].
      rewrite Hfil, (i64_small (off - len c)) by lia.
      rewrite IH by (done || lia).
      f_equal. f_equal. f_equal.
      rewrite drop_app_ge by (unfold len in *; lia).
      f_equal. unfold len. lia.
Qed.

(** A write that starts inside the content and brings more than fits
    stores what fits. *)
Lemma WriteAt_files_over (files : list metainfo.FileInfo) :
  forall (fs : memfs.MemFS) (p : list byte) (off n : Z),
  allocated t fs files ->
  NoDup (storage.fileName t <$> files) ->
  content_length files < 2 ^ 63 ->
  len p < 2 ^ 63 ->
  0 <= off <= content_length files ->
  content_length files < off + len p ->
  0 <= n -> n + len p < 2 ^ 63 ->
  exists fs',
    storage.WriteAt_files t fs files p off n
    = Ret (n + (content_length files - off), None, fs')
    /\ allocated t fs' files
    /\ content t fs' files
       = take (Z.to_nat off) (content t fs files)
           ++ take (Z.to_nat (content_length files - off)) p
    /\ (forall name, name ∉ storage.fileName t <$> files ->
          memfs.mem_files fs' !! name = memfs.mem_files fs !! name).
Proof.
  induction files as [|fi rest IH];
    intros fs p off n Hall Hnd Htot Hp Hoff Hover Hn Hnp.
  - simpl in *. exists fs. assert (off = 0) as -> by lia.
    rewrite Z.sub_diag, Z.add_0_r. split; [done|]. split; [done|].
    split; [|done]. change (content t fs []) with (@nil byte).
    by rewrite take_nil.
  - apply allocated_cons in Hall as [Hfi Hrest].
    apply file_ready_spec in Hfi as (c & Hc & Hlen).
    rewrite fmap_cons in Hnd. apply NoDup_cons in Hnd as [Hfresh Hnd].
    pose proof (len_nonneg c) as Hc0. pose proof (len_nonneg p) as Hp0.
    pose proof (allocated_nonneg fs rest Hrest) as Hrest0.
    change (content_length (fi :: rest))
      with (metainfo.fi_Length fi + content_length rest) in *.
    change (content t fs (fi :: rest))
      with (file_bytes t fs fi ++ content t fs rest).
    rewrite (file_bytes_ready t fs _ _ Hc).
    assert (Hfil : i64 (metainfo.fi_Length fi) = len c)
      by (rewrite <- Hlen; apply i64_small; lia).
    rewrite WriteAt_files_cons. cbv zeta. rewrite Hfil.
    destruct (Z.leb_spec (len c) off) as [Hpast|Hin].
    + rewrite (i64_small (off - len c)) by lia.
      destruct (IH fs p (off - len c) n) as (fs' & Hrun & Hall' & Hcont & Hframe);
        try done; try lia.
      exists fs'. split; [rewrite Hrun; do 3 f_equal; lia|].
      assert (Hfi' : memfs.mem_files fs' !! storage.fileName t fi = Some c)
        by (rewrite Hframe; done).
      split; [|split].
      * apply allocated_cons. split; [|done].
        unfold file_ready. rewrite Hfi'. by apply Z.eqb_eq.
      * change (content t fs' (fi :: rest))
          with (file_bytes t fs' fi ++ content t fs' rest).
        rewrite (file_bytes_ready t fs' _ _ Hfi'), Hcont.
        rewrite take_app_ge by (unfold len in *; lia).
        rewrite <- app_assoc. do 2 f_equal.
        -- f_equal. unfold len in *. lia.
        -- f_equal. lia.
      * intros name Hname. apply Hframe. intros Hin. apply Hname.
        rewrite fmap_cons. by right.
    + rewrite (i64_small (len c - off)) by lia.
      destruct (Z.ltb_spec (len c - off) (len p)) as [_|]; [|lia].
      set (n1 := len c - off).
      unfold storage.openfileWrite. simpl storage.OpenFileWriteOnly.
      unfold memfs.open_write, memfs.exists_. rewrite Hc. simpl orb. cbv iota.
      unfold slice_to, slice.
      destruct (Z.leb_spec 0 n1); [|lia]. destruct (Z.leb_spec n1 (len p)); [|lia].
      simpl andb. cbv iota. simpl res_bind. rewrite Z.sub_0_r, drop_0.
      simpl storage.File_WriteAt. unfold memfs.write_at. rewrite Hc.
      destruct (Z.ltb_spec off 0); [lia|].
      set (chunk := take (Z.to_nat n1) p).
      assert (Hchunk : len chunk = n1)
        by (unfold chunk, len in *; rewrite length_take; lia).
      rewrite Hchunk, (i64_small (n + n1)) by lia.
      set (c2 := memfs.write_bytes c chunk off).
      assert (Hc2 : c2 = take (Z.to_nat off) c ++ chunk).
      { unfold c2. rewrite write_bytes_inside by lia. rewrite Hchunk.
        rewrite (drop_ge c) by (unfold n1, len in *; lia). by rewrite app_nil_r. }
      assert (Hlen2 : len c2 = len c).
      { rewrite Hc2, !len_app, Hchunk. unfold len in *.
        rewrite length_take. lia. }
      set (fs2 := memfs.mkMemFS _ _).
      assert (Hfi2 : memfs.mem_files fs2 !! storage.fileName t fi = Some c2)
        by apply lookup_insert_eq.
      assert (Hsame2 : forall name, name ∈ storage.fileName t <$> rest ->
                memfs.mem_files fs2 !! name = memfs.mem_files fs !! name).
      { intros name Hname. apply lookup_insert_ne. intros <-. done. }
      pose proof (allocated_frame t fs fs2 rest Hsame2 Hrest) as Hrest2.
      pose proof (content_frame t fs fs2 rest Hsame2) as Hcont2.
      unfold slice_from, slice.
      rewrite (proj2 (Z.leb_le 0 n1)), (proj2 (Z.leb_le n1 (len p))) by lia.
      rewrite Z.leb_refl. simpl andb. cbv iota. simpl res_bind.
      rewrite (take_ge (drop _ p)) by (rewrite length_drop; unfold len; lia).
      assert (Hp' : len (drop (Z.to_nat n1) p) = len p - n1)
        by (rewrite len_drop; unfold len in *; lia).
      destruct (Z.eqb_spec (len (drop (Z.to_nat n1) p)) 0) as [Hdone|_]; [lia|].
      destruct (IH fs2 (drop (Z.to_nat n1) p) 0 (n + n1))
        as (fs' & Hrun & Hall' & Hcont & Hframe); try done; try lia.
      exists fs'. split; [rewrite Hrun; do 3 f_equal; lia|].
      assert (Hfi' : memfs.mem_files fs' !! storage.fileName t fi = Some c2)
        by (rewrite Hframe; done).
      split; [|split].
      * apply allocated_cons. split; [|done].
        unfold file_ready. rewrite Hfi'. apply Z.eqb_eq. lia.
      * change (content t fs' (fi :: rest))
          with (file_bytes t fs' fi ++ content t fs' rest).
        rewrite (file_bytes_ready t fs' _ _ Hfi'), Hcont, Hcont2, Hc2.
        change (Z.to_nat 0) with 0%nat. rewrite take_0, app_nil_l.
        rewrite take_app_le by (unfold len in *; lia).
        rewrite <- !app_assoc. f_equal.
        rewrite Z.sub_0_r. unfold chunk.
        rewrite take_take_drop. f_equal. unfold n1. lia.
      * intros name Hname. rewrite Hframe.
        -- apply lookup_insert_ne. intros <-. apply Hname. rewrite fmap_cons. left.
        -- intros Hmem. apply Hname. rewrite fmap_cons. by right.
Qed.
End Overhang.

(** X25.  On an allocated layout whose file entries name different
    files, with content shorter than 2^63 bytes, a write that starts
    inside the content but brings more bytes than are left is cut off
    at the end of the content: the bytes that fit are stored, their
    number is returned, and the error is [nil] although fewer bytes than
    given were written. *)
Theorem X25_write_is_cut_short {paths : metainfo.PathLib}
    (t : storage.fsTorrent) (fs : memfs.MemFS) (p : list byte) (off : Z) :
  let files := metainfo.GetFiles (metainfo.tf_Info (storage.meta t)) in
  let room := content_length files - off in
  preallocated t fs ->
  distinct_files t ->
  content_length files < 2 ^ 63 ->
  len p < 2 ^ 63 ->
  0 <= off <= content_length files ->
  room < len p ->
  exists fs',
    storage.WriteAt t fs p off = Ret (room, None, fs')
    /\ preallocated t fs'
    /\ content t fs' files
       = take (Z.to_nat off) (content t fs files) ++ take (Z.to_nat room) p.
Proof.
  intros files room Hall Hnd Htot Hp Hoff Hover.
  pose proof (len_nonneg p).
  destruct (WriteAt_files_over t files fs p off 0 Hall Hnd Htot Hp Hoff)
    as (fs' & Hrun & Hall' & Hcont & _); [unfold room in *; lia|lia|lia|].
  exists fs'. split; [exact Hrun|]. split; [exact Hall'|exact Hcont].
Qed.

(** Four bytes offered two bytes before the end of a seven-byte
    torrent. *)
Lemma X25_write_is_cut_short_witness :
  let tf := metainfo.mkTorrentFile
    (metainfo.mkInfo 4 [] "d"
       [metainfo.mkFileInfo 3 ["a"] []; metainfo.mkFileInfo 4 ["b"] []]
       None 0 [] None) "" [] in
  let t := storage.mkFsTorrent (storage.mkFsStorage "data" "meta")
             (metainfo.IhV1 []) tf None in
  let fs := memfs.mkMemFS
    {[ "data/d/a" := [x01; x02; x03]; "data/d/b" := [x04; x05; x06; x07] ]} ∅ in
  let files := metainfo.GetFiles (metainfo.tf_Info tf) in
  let p := [xaa; xbb; xcc; xdd] in
  exists fs',
    storage.WriteAt t fs p 5 = Ret (content_length files - 5, None, fs')
    /\ preallocated t fs'
    /\ content t fs' files
       = take (Z.to_nat 5) (content t fs files)
           ++ take (Z.to_nat (content_length files - 5)) p.
Proof.
  intros tf t fs files p. apply (X25_write_is_cut_short t fs p 5).
  - vm_compute. reflexivity.
  - unfold distinct_files. apply (bool_decide_unpack _). vm_compute. exact I.
  - vm_compute. reflexivity.
  - vm_compute. reflexivity.
  - vm_compute. split; discriminate.
  - vm_compute. reflexivity.
Defined.

(** X26.  A read that starts inside the content but asks for more bytes
    than are left returns the bytes up to the end of the content, their
    number, and [EOF]; the rest of the buffer is left as it was. *)
Theorem X26_read_is_cut_short {paths : metainfo.PathLib}
    (t : storage.fsTorrent) (fs : memfs.MemFS) (b : list byte) (off : Z) :
  let files := metainfo.GetFiles (metainfo.tf_Info (storage.meta t)) in
  let room := content_length files - off in
  preallocated t fs ->
  content_length files < 2 ^ 63 ->
  len b < 2 ^ 63 ->
  0 <= off <= content_length files ->
  room < len b ->
  storage.ReadAt t fs b off
  = Ret (room, Some EOF,
         drop (Z.to_nat off) (content t fs files) ++ drop (Z.to_nat room) b).
Proof.
  intros files room Hall Htot Hb Hoff Hover. unfold storage.ReadAt. fold files.
  rewrite (ReadAt_files_over t fs files b off [] Hall Htot Hb Hoff)
    by (unfold room in *; lia).
  cbn [res_bind app].
  pose proof (content_length_allocated t fs files Hall) as Hcl.
  assert (Hlen : length (drop (Z.to_nat off) (content t fs files)) = Z.to_nat room).
  { rewrite length_drop. unfold room, len in *. lia. }
  unfold len. rewrite Hlen. do 3 f_equal. unfold room in *. lia.
Qed.

Lemma X26_read_is_cut_short_witness :
  let tf := metainfo.mkTorrentFile
    (metainfo.mkInfo 4 [] "d"
       [metainfo.mkFileInfo 3 ["a"] []; metainfo.mkFileInfo 4 ["b"] []]
       None 0 [] None) "" [] in
  let t := storage.mkFsTorrent (storage.mkFsStorage "data" "meta")
             (metainfo.IhV1 []) tf None in
  let fs := memfs.mkMemFS
    {[ "data/d/a" := [x01; x02; x03]; "data/d/b" := [x04; x05; x06; x07] ]} ∅ in
  let files := metainfo.GetFiles (metainfo.tf_Info tf) in
  let b := [x00; x00; x00; x00] in
  storage.ReadAt t fs b 5
  = Ret (content_length files - 5, Some EOF,
         drop (Z.to_nat 5) (content t fs files)
           ++ drop (Z.to_nat (content_length files - 5)) b).
Proof.
  intros tf t fs files b. apply (X26_read_is_cut_short t fs b 5).
  - vm_compute. reflexivity.
  - vm_compute. reflexivity.
  - vm_compute. reflexivity.
  - vm_compute. split; discriminate.
  - vm_compute. reflexivity.
Defined.

(** X27.  A piece request that reaches past the end of the content is
    not answered: the read reports [EOF], the visitor is not called, no
    message is sent and the connection is not closed. *)
Theorem X27_overhanging_request_unanswered {paths : metainfo.PathLib}
    (st : storage.fsTorrent) (fs : memfs.MemFS) (r : common.PieceRequest) :
  let info := metainfo.tf_Info (storage.meta st) in
  let files := metainfo.GetFiles info in
  let off := common.req_Begin r + metainfo.PieceLength info * common.req_Index r in
  preallocated st fs ->
  content_length files < 2 ^ 63 ->
  PieceRequest_wf r ->
  0 <= metainfo.PieceLength info ->
  off <= content_length files ->
  content_length files < off + common.req_Length r ->
  swarm.handlePieceRequest st fs (Some r) = Ret [].
Proof.
  intros info files off Hall Htot (Hi & Hb & Hl) Hpl Hoff Hover.
  unfold is_u32 in *. unfold swarm.handlePieceRequest.
  destruct (Z.ltb_spec 0 (common.req_Length r)); [|lia].
  unfold storage.VisitPiece. fold info.
  assert (Hoff' : i64 (common.req_Begin r
                       + i64 (metainfo.PieceLength info * common.req_Index r)) = off).
  { unfold off in *. rewrite (i64_small (_ * _)) by nia. apply i64_small. nia. }
  rewrite Hoff'.
  assert (Hlen0 : len (replicate (Z.to_nat (common.req_Length r)) x00)
                  = common.req_Length r)
    by (unfold len; rewrite length_replicate; lia).
  unfold storage.ReadAt. fold info files.
  rewrite (ReadAt_files_over st fs files _ off [] Hall Htot)
    by (rewrite ?Hlen0; unfold off in *; nia).
  reflexivity.
Qed.

(** Four bytes asked for two bytes before the end of a six-byte file. *)
Lemma X27_overhanging_request_unanswered_witness :
  let tf := metainfo.mkTorrentFile
    (metainfo.mkInfo 4 [] "f" [] None 6 [] None) "" [] in
  let st := storage.mkFsTorrent (storage.mkFsStorage "data" "meta")
              (metainfo.IhV1 []) tf None in
  let fs := memfs.mkMemFS {[ "data/f" := [x01; x02; x03; x04; x05; x06] ]} ∅ in
  swarm.handlePieceRequest st fs (Some (common.mkPieceRequest 1 0 4)) = Ret [].
Proof.
  intros tf st fs.
  apply (X27_overhanging_request_unanswered st fs (common.mkPieceRequest 1 0 4)).
  - vm_compute. reflexivity.
  - vm_compute. reflexivity.
  - unfold PieceRequest_wf, is_u32. simpl. lia.
  - simpl. lia.
  - vm_compute. discriminate.
  - vm_compute. reflexivity.
Defined.

(** ** Dropping a peer *)

